(** * Cricsheet match transform: a shallow embedding of [cricsheet_scraper.py]

    The development embeds the parsing half of the script (the helpers
    [split_over_ball] and [normalize_date], the two inning normalizers,
    [detect_and_parse_innings] and [parse_match_json]) and proves the
    properties its specification states about them.

    Python values are the values [json.loads] builds.  Numbers are integers,
    as in Cricsheet files; a document with fractional numbers is outside the
    model.  A [dict] is its item list in insertion order (keys of a real dict
    are distinct; lookups take the first match).  A [str] is a string over
    the code points 0..255.  An exception is a value of [exn] carried by the
    [result] monad.

    A second model, [Store], runs the same statements over a store of
    mutable objects, with allocation, aliasing and [append]; it is proved
    to compute what the first model computes and to leave the objects it
    is given as they were. *)

From Stdlib Require Import ZArith List String Ascii Bool Lia DecimalString.
From Stdlib Require Import Sorting.Sorted Sorting.Permutation.
From Stdlib Require Import Floats.PrimFloat Floats.SpecFloat Floats.FloatOps.
Import ListNotations.

Local Open Scope string_scope.
Local Open Scope Z_scope.

(** ** Exceptions and the result monad *)

Inductive exn : Type :=
| AttributeError
| TypeError
| KeyError
| ValueError
| IndexError
| OverflowError.

Inductive result (A : Type) : Type :=
| Ok (a : A)
| Raise (e : exn).

Arguments Ok {A} a.
Arguments Raise {A} e.

Definition bind {A B : Type} (c : result A) (k : A -> result B) : result B :=
  match c with
  | Ok a => k a
  | Raise e => Raise e
  end.

Notation "x <- c1 ;; c2" := (bind c1 (fun x => c2))
  (at level 61, c1 at next level, right associativity).
Notation "' pat <- c1 ;; c2" :=
  (bind c1 (fun x => match x with pat => c2 end))
  (at level 61, pat pattern, c1 at next level, right associativity).

(** [try: ... except Exception: ...] *)
Definition try_except {A : Type} (body : result A) (handler : A) : A :=
  match body with
  | Ok a => a
  | Raise _ => handler
  end.

Definition result_map {A B : Type} (f : A -> B) (c : result A) : result B :=
  match c with
  | Ok a => Ok (f a)
  | Raise e => Raise e
  end.

(** A [for] loop whose body may raise: the state is threaded from left to
    right and the first exception ends the loop. *)
Fixpoint for_each {S A : Type} (body : S -> A -> result S) (s : S) (l : list A)
  : result S :=
  match l with
  | [] => Ok s
  | x :: l' => s' <- body s x ;; for_each body s' l'
  end.

(** [enumerate(l, start)] *)
Fixpoint enumerate {A : Type} (start : Z) (l : list A) : list (Z * A) :=
  match l with
  | [] => []
  | x :: l' => (start, x) :: enumerate (start + 1) l'
  end.

(** ** Values *)

#[local] Set Warnings "-register-all".

Inductive json : Type :=
| JNull
| JBool (b : bool)
| JInt (z : Z)
| JStr (s : string)
| JList (l : list json)
| JObj (items : list (string * json)).

(** Truth value of an object, as [if], [not] and [or] test it. *)
Definition truthy (v : json) : bool :=
  match v with
  | JNull => false
  | JBool b => b
  | JInt z => negb (z =? 0)
  | JStr s => negb (String.eqb s "")
  | JList l => match l with [] => false | _ :: _ => true end
  | JObj d => match d with [] => false | _ :: _ => true end
  end.

(** [a or b] *)
Definition py_or (a b : json) : json := if truthy a then a else b.

Definition is_none (v : json) : bool :=
  match v with JNull => true | _ => false end.

Definition isinstance_dict (v : json) : bool :=
  match v with JObj _ => true | _ => false end.

Fixpoint lookup (k : string) (d : list (string * json)) : option json :=
  match d with
  | [] => None
  | (k', v) :: d' => if String.eqb k k' then Some v else lookup k d'
  end.

(** [k in d] for a dict [d] *)
Definition has_key (k : string) (d : list (string * json)) : bool :=
  match lookup k d with Some _ => true | None => false end.

(** [v.get(k, dflt)]: only a dict has the method. *)
Definition py_get (v : json) (k : string) (dflt : json) : result json :=
  match v with
  | JObj d => Ok (match lookup k d with Some x => x | None => dflt end)
  | _ => Raise AttributeError
  end.

(** The integer a [bool] or [int] stands for in arithmetic. *)
Definition as_int (v : json) : option Z :=
  match v with
  | JInt z => Some z
  | JBool b => Some (Z.b2z b)
  | _ => None
  end.

(** [a + b] *)
Definition py_add (a b : json) : result json :=
  match a, b with
  | JStr x, JStr y => Ok (JStr (x ++ y))
  | JList x, JList y => Ok (JList (x ++ y)%list)
  | _, _ =>
      match as_int a, as_int b with
      | Some x, Some y => Ok (JInt (x + y))
      | _, _ => Raise TypeError
      end
  end.

(** [a == b]: numbers compare by value ([True == 1]), lists element by
    element, dicts as sets of items. *)
Fixpoint py_eq (a b : json) {struct a} : bool :=
  match a, b with
  | JNull, JNull => true
  | JBool x, JBool y => Bool.eqb x y
  | JBool x, JInt y => Z.b2z x =? y
  | JInt x, JBool y => x =? Z.b2z y
  | JInt x, JInt y => x =? y
  | JStr x, JStr y => String.eqb x y
  | JList xs, JList ys =>
      (fix all2 (xs : list json) (ys : list json) {struct xs} : bool :=
         match xs, ys with
         | [], [] => true
         | x :: xs', y :: ys' => py_eq x y && all2 xs' ys'
         | _, _ => false
         end) xs ys
  | JObj dx, JObj dy =>
      (List.length dx =? List.length dy)%nat &&
      (fix sub (dx : list (string * json)) {struct dx} : bool :=
         match dx with
         | [] => true
         | (k, v) :: dx' =>
             match lookup k dy with
             | Some w => py_eq v w && sub dx'
             | None => false
             end
         end) dx
  | _, _ => false
  end.

(** Characters of a string, each as a one-character string. *)
Fixpoint chars (s : string) : list json :=
  match s with
  | EmptyString => []
  | String c s' => JStr (String c EmptyString) :: chars s'
  end.

(** The items a [for] loop draws from a value. *)
Definition py_iter (v : json) : result (list json) :=
  match v with
  | JList l => Ok l
  | JStr s => Ok (chars s)
  | JObj d => Ok (map (fun kv => JStr (fst kv)) d)
  | _ => Raise TypeError
  end.

(** ** Strings *)

Definition dot : ascii := "."%char.

(** ["." in s] *)
Fixpoint contains_dot (s : string) : bool :=
  match s with
  | EmptyString => false
  | String c s' => Ascii.eqb c dot || contains_dot s'
  end.

(** [s.split(".")] *)
Fixpoint split_dot (s : string) : list string :=
  match s with
  | EmptyString => [EmptyString]
  | String c s' =>
      if Ascii.eqb c dot then EmptyString :: split_dot s'
      else match split_dot s' with
           | [] => [String c EmptyString]
           | p :: ps => String c p :: ps
           end
  end.

(** White space [int] skips around a number: the C locale's, and the two
    Latin-1 spaces NEL and NBSP. *)
Definition is_space (c : ascii) : bool :=
  let n := nat_of_ascii c in
  ((9 <=? n)%nat && (n <=? 13)%nat) || (n =? 32)%nat || (n =? 133)%nat
  || (n =? 160)%nat.

Definition digit_of (c : ascii) : option Z :=
  let n := nat_of_ascii c in
  if ((48 <=? n)%nat && (n <=? 57)%nat)%bool then Some (Z.of_nat (n - 48))
  else None.

Fixpoint lstrip (s : string) : string :=
  match s with
  | EmptyString => EmptyString
  | String c s' => if is_space c then lstrip s' else s
  end.

Fixpoint all_space (s : string) : bool :=
  match s with
  | EmptyString => true
  | String c s' => is_space c && all_space s'
  end.

(** Digits after the first one; a single underscore may separate two digits.
    Returns the value read and the rest of the string. *)
Fixpoint int_digits (acc : Z) (s : string) : option (Z * string) :=
  match s with
  | EmptyString => Some (acc, EmptyString)
  | String c s' =>
      match digit_of c with
      | Some d => int_digits (10 * acc + d) s'
      | None =>
          if Ascii.eqb c "_"%char then
            match s' with
            | EmptyString => None
            | String c' s'' =>
                match digit_of c' with
                | Some d => int_digits (10 * acc + d) s''
                | None => None
                end
            end
          else Some (acc, s)
      end
  end.

Definition int_unsigned (s : string) : option Z :=
  match s with
  | EmptyString => None
  | String c s' =>
      match digit_of c with
      | Some d =>
          match int_digits d s' with
          | Some (v, rest) => if all_space rest then Some v else None
          | None => None
          end
      | None => None
      end
  end.

(** [int(s)] for a string [s], base ten.  The interpreter's optional cap on
    the number of digits is not modelled. *)
Definition py_int (s : string) : result Z :=
  let s1 := lstrip s in
  let parsed :=
    match s1 with
    | EmptyString => None
    | String c s2 =>
        if Ascii.eqb c "+"%char then int_unsigned s2
        else if Ascii.eqb c "-"%char then option_map Z.opp (int_unsigned s2)
        else int_unsigned s1
    end in
  match parsed with
  | Some v => Ok v
  | None => Raise ValueError
  end.

(** [a, b = l]: unpacking into two names. *)
Definition unpack2 {A : Type} (l : list A) : result (A * A) :=
  match l with
  | [a; b] => Ok (a, b)
  | _ => Raise ValueError
  end.

(** [s[:n]] *)
Definition prefix (n : nat) (s : string) : string := substring 0 n s.

(** ** Helpers of the script *)

Definition split_over_ball (ball_str : string) : option Z * option Z :=
  try_except
    (if contains_dot ball_str then
       '(over_s, ball_s) <- unpack2 (split_dot ball_str) ;;
       o <- py_int over_s ;;
       b <- py_int ball_s ;;
       Ok (Some o, Some b)
     else
       n <- py_int ball_str ;;
       Ok (Some n, Some 0))
    (None, None).

(** ["/" in s] *)
Fixpoint has_slash (s : string) : bool :=
  match s with
  | EmptyString => false
  | String c s' => Ascii.eqb c "/"%char || has_slash s'
  end.

(** [os.path.basename(p)] on a POSIX system: what follows the last slash. *)
Fixpoint basename (p : string) : string :=
  match p with
  | EmptyString => EmptyString
  | String _ p' => if has_slash p then basename p' else p
  end.

(** [os.path.splitext(p)[0]] for a [p] without a slash: [p] up to its last
    dot, when something other than dots comes before that dot. *)
Definition splitext_root (p : string) : string :=
  let init := removelast (split_dot p) in
  if existsb (fun s => negb (String.eqb s "")) init
  then String.concat "." init
  else p.

(** ** Floating-point numbers

    A Python [float] is a binary64 number; the arithmetic is the
    processor's. *)

(** Conversion of an [int] in mixed arithmetic: rounded to nearest, and an
    error when the integer is beyond the largest finite number. *)
Definition float_of_int (z : Z) : result float :=
  match binary_normalize prec emax z 0 false with
  | S754_infinity _ => Raise OverflowError
  | sf => Ok (SF2Prim sf)
  end.

Definition to_float (v : json) : result float :=
  match as_int v with
  | Some z => float_of_int z
  | None => Raise TypeError
  end.

(** [a / d] for a float [d] that is not zero *)
Definition py_truediv (a : json) (d : float) : result float :=
  x <- to_float a ;; Ok (PrimFloat.div x d).

(** [a + f] for a float [f] *)
Definition py_add_float (a : json) (f : float) : result float :=
  x <- to_float a ;; Ok (PrimFloat.add x f).

(** ** Calendar dates *)

Record date : Type := { year : nat; month : nat; day : nat }.

Definition decimal (n : nat) : string :=
  DecimalString.NilEmpty.string_of_uint (Nat.to_uint n).

Fixpoint zeros (n : nat) : string :=
  match n with
  | O => EmptyString
  | S n' => String "0"%char (zeros n')
  end.

(** ["%0<w>d" % n] *)
Definition zero_pad (w : nat) (n : nat) : string :=
  let s := decimal n in zeros (w - String.length s) ++ s.

(** [d.isoformat()] *)
Definition isoformat (d : date) : string :=
  zero_pad 4 (year d) ++ "-" ++ zero_pad 2 (month d) ++ "-" ++ zero_pad 2 (day d).

Definition digit_nat (c : ascii) : option nat :=
  option_map Z.to_nat (digit_of c).

Definition is_leap (y : nat) : bool :=
  ((y mod 4 =? 0) && negb (y mod 100 =? 0) || (y mod 400 =? 0))%nat.

Definition days_in_month (y m : nat) : nat :=
  match m with
  | 2 => if is_leap y then 29 else 28
  | 4 | 6 | 9 | 11 => 30
  | _ => 31
  end%nat.

Definition valid_date (d : date) : bool :=
  ((1 <=? year d) && (1 <=? month d) && (month d <=? 12)
   && (1 <=? day d) && (day d <=? days_in_month (year d) (month d)))%nat.

(** The calendar form [YYYY-MM-DD], which every version of
    [datetime.fromisoformat] reads; the longer forms, whose set depends on
    the version of the interpreter, are not read by this instance. *)
Definition fromisoformat_ymd (s : string) : option date :=
  match s with
  | String y1 (String y2 (String y3 (String y4 (String "-"
      (String m1 (String m2 (String "-"
      (String d1 (String d2 EmptyString))))))))) =>
      match digit_nat y1, digit_nat y2, digit_nat y3, digit_nat y4,
            digit_nat m1, digit_nat m2, digit_nat d1, digit_nat d2 with
      | Some a, Some b, Some c, Some d, Some e, Some f, Some g, Some h =>
          let dt := {| year := 1000 * a + 100 * b + 10 * c + d;
                       month := 10 * e + f;
                       day := 10 * g + h |}%nat in
          if valid_date dt then Some dt else None
      | _, _, _, _, _, _, _, _ => None
      end
  | _ => None
  end.

(** ** More of the object model *)

(** [list(d.keys())[0]] *)
Definition first_key (v : json) : result string :=
  match v with
  | JObj ((k, _) :: _) => Ok k
  | JObj [] => Raise IndexError
  | _ => Raise AttributeError
  end.

(** [v[k]] for a string [k] *)
Definition py_getitem (v : json) (k : string) : result json :=
  match v with
  | JObj d => match lookup k d with Some x => Ok x | None => Raise KeyError end
  | _ => Raise TypeError
  end.

(** [v[0]] *)
Definition py_index0 (v : json) : result json :=
  match v with
  | JList (x :: _) => Ok x
  | JList [] => Raise IndexError
  | JStr (String c _) => Ok (JStr (String c EmptyString))
  | JStr EmptyString => Raise IndexError
  | JObj _ => Raise KeyError
  | _ => Raise TypeError
  end.

(** [v[:2]] *)
Definition py_slice2 (v : json) : result (list json) :=
  match v with
  | JList l => Ok (firstn 2 l)
  | JStr s => Ok (chars (prefix 2 s))
  | _ => Raise TypeError
  end.

Definition of_option_int (o : option Z) : json :=
  match o with
  | Some z => JInt z
  | None => JNull
  end.

(** ** Rows *)

(** A normalized inning: the dict with keys [inning_number], [team] and
    [deliveries] both normalizers build; a delivery is the tuple
    [(over_num, ball_num, ev)]. *)
Record norm_inning : Type := {
  inning_number : Z;
  team : json;
  deliveries : list (json * json * json)
}.

Record match_row : Type := {
  mr_match_id : json;
  mr_match_type : json;
  mr_match_date : json;
  mr_venue : json;
  mr_city : json;
  mr_country : json;
  mr_team1 : json;
  mr_team2 : json;
  mr_toss_winner : json;
  mr_toss_decision : json;
  mr_winner : json;
  mr_result : json;
  mr_margin : json
}.

Record innings_row : Type := {
  ir_match_id : json;
  ir_inning_number : Z;
  ir_batting_team : json;
  ir_bowling_team : json;
  ir_runs : json;
  ir_wickets : Z;
  ir_overs : option float
}.

Record delivery_row : Type := {
  dr_match_id : json;
  dr_inning_number : Z;
  dr_overs : json;
  dr_ball : json;
  dr_batting_team : json;
  dr_bowling_team : json;
  dr_batter : json;
  dr_bowler : json;
  dr_non_striker : json;
  dr_runs_batter : json;
  dr_runs_extras : json;
  dr_runs_total : json;
  dr_extras_type : json;
  dr_wicket_kind : json;
  dr_player_out : json
}.

(** ** The inning normalizers *)

(** Body of the inner loop of [parse_v1_innings]. *)
Definition parse_v1_entry (deliveries : list (json * json * json)) (entry : json)
  : result (list (json * json * json)) :=
  if negb (isinstance_dict entry) || negb (truthy entry) then Ok deliveries
  else
    ball_key <- first_key entry ;;
    ev <- py_getitem entry ball_key ;;
    let '(over_num, ball_num) := split_over_ball ball_key in
    Ok (deliveries ++ [(of_option_int over_num, of_option_int ball_num, ev)])%list.

(** Body of the outer loop of [parse_v1_innings]. *)
Definition parse_v1_inning (norm_innings : list norm_inning) (p : Z * json)
  : result (list norm_inning) :=
  let '(idx, inn) := p in
  if negb (isinstance_dict inn) || negb (truthy inn) then Ok norm_innings
  else
    name <- first_key inn ;;
    data <- py_getitem inn name ;;
    team <- py_get data "team" JNull ;;
    entries <- py_get data "deliveries" (JList []) ;;
    entries <- py_iter entries ;;
    deliveries <- for_each parse_v1_entry [] entries ;;
    Ok (norm_innings ++
        [{| inning_number := idx; team := team; deliveries := deliveries |}])%list.

Definition parse_v1_innings (innings_list : json) : result (list norm_inning) :=
  items <- py_iter innings_list ;;
  for_each parse_v1_inning [] (enumerate 1 items).

(** Body of the innermost loop of [parse_v2_innings]. *)
Definition parse_v2_delivery (over_num : json)
  (deliveries : list (json * json * json)) (p : Z * json)
  : result (list (json * json * json)) :=
  let '(i, ev) := p in
  Ok (deliveries ++ [(over_num, JInt i, ev)])%list.

(** Body of the loop over the over blocks. *)
Definition parse_v2_over (deliveries : list (json * json * json))
  (over_blk : json) : result (list (json * json * json)) :=
  over_num <- py_get over_blk "over" JNull ;;
  evs <- py_get over_blk "deliveries" (JList []) ;;
  evs <- py_iter evs ;;
  for_each (parse_v2_delivery over_num) deliveries (enumerate 1 evs).

(** Body of the outer loop of [parse_v2_innings]. *)
Definition parse_v2_inning (norm_innings : list norm_inning) (p : Z * json)
  : result (list norm_inning) :=
  let '(idx, inn) := p in
  team <- py_get inn "team" JNull ;;
  overs <- py_get inn "overs" (JList []) ;;
  overs <- py_iter overs ;;
  deliveries <- for_each parse_v2_over [] overs ;;
  Ok (norm_innings ++
      [{| inning_number := idx; team := team; deliveries := deliveries |}])%list.

Definition parse_v2_innings (innings_list : json) : result (list norm_inning) :=
  items <- py_iter innings_list ;;
  for_each parse_v2_inning [] (enumerate 1 items).

(** The test [isinstance(first, dict) and "team" in first and "overs" in first] *)
Definition is_v2 (first : json) : bool :=
  match first with
  | JObj d => has_key "team" d && has_key "overs" d
  | _ => false
  end.

Definition detect_and_parse_innings (innings_list : json)
  : result (list norm_inning) :=
  if negb (truthy innings_list) then Ok []
  else
    first <- py_index0 innings_list ;;
    if is_v2 first then parse_v2_innings innings_list
    else parse_v1_innings innings_list.

Definition extract_country_from_venue (info : json) : result json :=
  country <- py_get info "country" JNull ;;
  Ok (py_or country JNull).

(** ** The event reducer *)

(** The running values of the loop over one inning's deliveries, with the
    list of Delivery rows the loop appends to. *)
Record reducer : Type := {
  total_runs : json;
  total_wkts : Z;
  last_over : json;
  last_ball : json;
  deliveries_rows : list delivery_row
}.

(** [next(iter(extras_obj.keys()), None) if extras_obj else None] *)
Definition extras_type_of (extras_obj : json) : result json :=
  if truthy extras_obj then
    match extras_obj with
    | JObj ((k, _) :: _) => Ok (JStr k)
    | JObj [] => Ok JNull
    | _ => Raise AttributeError
    end
  else Ok JNull.

(** The [if isinstance(wickets, list) and wickets:] block: the flag, the kind
    and the dismissed player. *)
Definition wicket_of (wickets : json) : result (Z * json * json) :=
  match wickets with
  | JList (wk :: _) =>
      wicket_kind <- py_get wk "kind" JNull ;;
      player_out <- py_get wk "player_out" JNull ;;
      Ok (1, wicket_kind, player_out)
  | _ => Ok (0, JNull, JNull)
  end.

(** Body of the loop over the deliveries of an inning. *)
Definition reduce_delivery (match_id : json) (inn : norm_inning)
  (batting_team bowling_team : json) (st : reducer) (d : json * json * json)
  : result reducer :=
  let '(over_num, ball_num, ev) := d in
  let last_over := if negb (is_none over_num) then over_num else last_over st in
  let last_ball := if negb (is_none ball_num) then ball_num else last_ball st in
  runs <- py_get ev "runs" JNull ;;
  let runs := py_or runs (JObj []) in
  rb <- py_get runs "batter" (JInt 0) ;;
  rext <- py_get runs "extras" (JInt 0) ;;
  rsum <- py_add rb rext ;;
  rtot <- py_get runs "total" rsum ;;
  extras_obj <- py_get ev "extras" JNull ;;
  let extras_obj := py_or extras_obj (JObj []) in
  extras_type <- extras_type_of extras_obj ;;
  wickets <- py_get ev "wickets" JNull ;;
  wickets <- (if truthy wickets then Ok wickets else py_get ev "wicket" JNull) ;;
  '(wicket_flag, wicket_kind, player_out) <- wicket_of wickets ;;
  batter <- py_get ev "batter" JNull ;;
  bowler <- py_get ev "bowler" JNull ;;
  non_striker <- py_get ev "non_striker" JNull ;;
  let row := {|
    dr_match_id := match_id;
    dr_inning_number := inning_number inn;
    dr_overs := over_num;
    dr_ball := ball_num;
    dr_batting_team := batting_team;
    dr_bowling_team := bowling_team;
    dr_batter := batter;
    dr_bowler := bowler;
    dr_non_striker := non_striker;
    dr_runs_batter := rb;
    dr_runs_extras := rext;
    dr_runs_total := rtot;
    dr_extras_type := extras_type;
    dr_wicket_kind := wicket_kind;
    dr_player_out := player_out |} in
  total_runs <- py_add (total_runs st) rtot ;;
  Ok {| total_runs := total_runs;
        total_wkts := total_wkts st + wicket_flag;
        last_over := last_over;
        last_ball := last_ball;
        deliveries_rows := (deliveries_rows st ++ [row])%list |}.

(** [(last_over or 0) + (last_ball or 0) / 6.0] *)
Definition overs_expr (last_over last_ball : json) : result float :=
  q <- py_truediv (py_or last_ball (JInt 0)) 6%float ;;
  py_add_float (py_or last_over (JInt 0)) q.

(** The three statements that follow the loop. *)
Definition overs_float_of (last_over last_ball : json) : result (option float) :=
  if negb (is_none last_over) && negb (is_none last_ball) then
    f <- overs_expr last_over last_ball ;; Ok (Some f)
  else Ok None.

(** The four assignments before the loop over the deliveries. *)
Definition reducer_init (deliveries_rows : list delivery_row) : reducer :=
  {| total_runs := JInt 0; total_wkts := 0;
     last_over := JInt 0; last_ball := JInt 0;
     deliveries_rows := deliveries_rows |}.

(** Body of the loop over the normalized innings: the state is the pair of
    [innings_rows] and [deliveries_rows]. *)
Definition reduce_inning (match_id team1 team2 : json)
  (rows : list innings_row * list delivery_row) (inn : norm_inning)
  : result (list innings_row * list delivery_row) :=
  let innings_rows := fst rows in
  let batting_team := team inn in
  let bowling_team := if py_eq batting_team team1 then team2 else team1 in
  st <- for_each (reduce_delivery match_id inn batting_team bowling_team)
          (reducer_init (snd rows)) (deliveries inn) ;;
  overs_float <- overs_float_of (last_over st) (last_ball st) ;;
  Ok ((innings_rows ++
        [{| ir_match_id := match_id;
            ir_inning_number := inning_number inn;
            ir_batting_team := batting_team;
            ir_bowling_team := bowling_team;
            ir_runs := total_runs st;
            ir_wickets := total_wkts st;
            ir_overs := overs_float |}])%list,
      deliveries_rows st).

Section Transform.

(** [datetime.fromisoformat] followed by [.date()]: the date a string
    denotes, or nothing where the library raises.  The strings it reads
    depend on the version of the interpreter, so it is a parameter. *)
Variable fromisoformat : string -> option date.

Definition normalize_date (date_obj : json) : json :=
  if is_none date_obj then JNull
  else
    let date_obj :=
      match date_obj with
      | JList l => match l with x :: _ => x | [] => JNull end
      | _ => date_obj
      end in
    match date_obj with
    | JStr s =>
        match fromisoformat s with
        | Some dt => JStr (isoformat dt)
        | None => JStr (prefix 10 s)
        end
    | _ => JNull
    end.

Definition parse_match_json (j : json) (match_path : string)
  : result (match_row * list innings_row * list delivery_row) :=
  info <- py_get j "info" (JObj []) ;;
  match_type <- py_get info "match_type" JNull ;;
  match_id <- py_get info "match_id" JNull ;;
  let match_id :=
    if truthy match_id then match_id
    else JStr (splitext_root (basename match_path)) in
  teams <- py_get info "teams" (JList []) ;;
  padded <- py_add teams (JList [JNull; JNull]) ;;
  padded <- py_slice2 padded ;;
  '(team1, team2) <- unpack2 padded ;;
  dates <- py_get info "dates" JNull ;;
  venue <- py_get info "venue" JNull ;;
  city <- py_get info "city" JNull ;;
  country <- extract_country_from_venue info ;;
  toss <- py_get info "toss" (JObj []) ;;
  toss_winner <- py_get (py_or toss (JObj [])) "winner" JNull ;;
  toss <- py_get info "toss" (JObj []) ;;
  toss_decision <- py_get (py_or toss (JObj [])) "decision" JNull ;;
  outcome <- py_get info "outcome" (JObj []) ;;
  winner <- py_get (py_or outcome (JObj [])) "winner" JNull ;;
  outcome <- py_get info "outcome" (JObj []) ;;
  result_ <- py_get (py_or outcome (JObj [])) "result" JNull ;;
  let match_row := {|
    mr_match_id := match_id;
    mr_match_type := match_type;
    mr_match_date := normalize_date dates;
    mr_venue := venue;
    mr_city := city;
    mr_country := country;
    mr_team1 := team1;
    mr_team2 := team2;
    mr_toss_winner := toss_winner;
    mr_toss_decision := toss_decision;
    mr_winner := winner;
    mr_result := result_;
    mr_margin := JNull |} in
  innings_src <- py_get j "innings" (JList []) ;;
  norm_innings <- detect_and_parse_innings innings_src ;;
  '(innings_rows, deliveries_rows) <-
    for_each (reduce_inning match_id team1 team2) ([], []) norm_innings ;;
  Ok (match_row, innings_rows, deliveries_rows).

End Transform.

(** ** Vocabulary of the specification *)

(** The two encodings of the inning list. *)
Inductive dialect : Type :=
| DialectA
| DialectB.

(** The rule of the schema detector, in the specification's words: Dialect B
    when the first entry is a mapping with a [team] key and an [overs] key,
    Dialect A otherwise. *)
Definition classify (innings_list : list json) : dialect :=
  match innings_list with
  | JObj d :: _ =>
      if has_key "team" d && has_key "overs" d then DialectB else DialectA
  | _ => DialectA
  end.

(** The value of a field of a mapping, null when the field is absent. *)
Definition field (k : string) (d : list (string * json)) : json :=
  match lookup k d with
  | Some x => x
  | None => JNull
  end.

Definition is_nonempty_list (v : json) : bool :=
  match v with
  | JList (_ :: _) => true
  | _ => false
  end.

(** A [wickets] or a [wicket] field is present as a non-empty list. *)
Definition wicket_field_present (d : list (string * json)) : bool :=
  is_nonempty_list (field "wickets" d) || is_nonempty_list (field "wicket" d).

(** The field the reducer consults: [wickets], and [wicket] when [wickets]
    is absent or falsy. *)
Definition chosen_wickets (d : list (string * json)) : json :=
  py_or (field "wickets" d) (field "wicket" d).

(** The last non-null value of a sequence, [dflt] when there is none. *)
Definition last_non_null (dflt : json) (l : list json) : json :=
  fold_left (fun acc v => if is_none v then acc else v) l dflt.

Definition over_of (d : json * json * json) : json := fst (fst d).
Definition ball_of (d : json * json * json) : json := snd (fst d).
Definition event_of (d : json * json * json) : json := snd d.

(** The total a Delivery row carries, as an integer. *)
Definition runs_total_int (r : delivery_row) : Z :=
  match as_int (dr_runs_total r) with
  | Some z => z
  | None => 0
  end.

Definition sum_Z (l : list Z) : Z := fold_left Z.add l 0.

(** A delivery bears a wicket when the field the reducer consults is a
    non-empty list. *)
Definition bears_wicket (ev : json) : bool :=
  match ev with
  | JObj d => is_nonempty_list (chosen_wickets d)
  | _ => false
  end.

Definition count_wickets (evs : list json) : Z :=
  Z.of_nat (List.length (filter bears_wicket evs)).

(** ** One match in both dialects *)

(** A match as both dialects describe it: per inning a team and the over
    blocks, per over block its index and its events in order.  Each event
    carries the ball label Dialect A keys it by, and each inning the label
    Dialect A wraps it in. *)
Record logical_over : Type := {
  lo_index : Z;
  lo_balls : list (string * json)
}.

Record logical_inning : Type := {
  li_name : string;
  li_team : json;
  li_overs : list logical_over
}.

Record logical_match : Type := {
  lm_info : json;
  lm_innings : list logical_inning
}.

Definition v1_entry (b : string * json) : json := JObj [(fst b, snd b)].

Definition v1_inning (i : logical_inning) : json :=
  JObj [(li_name i,
         JObj [("team", li_team i);
               ("deliveries",
                JList (flat_map (fun o => map v1_entry (lo_balls o))
                         (li_overs i)))])].

Definition v2_over (o : logical_over) : json :=
  JObj [("over", JInt (lo_index o));
        ("deliveries", JList (map snd (lo_balls o)))].

Definition v2_inning (i : logical_inning) : json :=
  JObj [("team", li_team i); ("overs", JList (map v2_over (li_overs i)))].

Definition encode_v1 (m : logical_match) : json :=
  JObj [("info", lm_info m); ("innings", JList (map v1_inning (lm_innings m)))].

Definition encode_v2 (m : logical_match) : json :=
  JObj [("info", lm_info m); ("innings", JList (map v2_inning (lm_innings m)))].








(** ** Sample documents *)

Definition ev_runs (rb rext rtot : Z) : json :=
  JObj [("batter", JStr "P"); ("bowler", JStr "Q"); ("non_striker", JStr "R");
        ("runs", JObj [("batter", JInt rb); ("extras", JInt rext);
                       ("total", JInt rtot)])].

Definition ev_wicket : json :=
  JObj [("batter", JStr "P"); ("bowler", JStr "Q");
        ("runs", JObj [("batter", JInt 0); ("extras", JInt 0); ("total", JInt 0)]);
        ("wickets", JList [JObj [("kind", JStr "bowled"); ("player_out", JStr "X")];
                           JObj [("kind", JStr "run out"); ("player_out", JStr "Y")]])].

Definition sample_info : json :=
  JObj [("match_type", JStr "T20"); ("dates", JList [JStr "2022-01-03"; JStr "2022-01-04"]);
        ("teams", JList [JStr "A"; JStr "B"]); ("venue", JStr "V")].

Definition sample_match : logical_match :=
  {| lm_info := sample_info;
     lm_innings :=
       [ {| li_name := "1st innings"; li_team := JStr "A";
            li_overs := [ {| lo_index := 0;
                             lo_balls := [("0.1", ev_runs 0 0 0); ("0.2", ev_runs 4 0 4);
                                          ("0.3", ev_runs 0 1 1)] |};
                          {| lo_index := 1;
                             lo_balls := [("1.1", ev_wicket); ("1.2", ev_runs 6 0 6)] |} ] |};
         {| li_name := "2nd innings"; li_team := JStr "B";
            li_overs := [ {| lo_index := 0;
                             lo_balls := [("0.1", ev_runs 1 0 1)] |} ] |} ] |}.

(** Six deliveries with batter runs 0, 4, 1, 6, 0, 2 and no extras. *)
Definition six_balls : norm_inning :=
  {| inning_number := 1; team := JStr "A";
     deliveries :=
       map (fun p => (JInt 0, JInt (fst p), ev_runs (snd p) 0 (snd p)))
         (enumerate 1 [0; 4; 1; 6; 0; 2]) |}.

(** An event with a truthy [wickets] field that is no list, and a [wicket]
    field that is a non-empty list. *)
Definition ev_wicket_shadowed : list (string * json) :=
  [("runs", JObj [("batter", JInt 0); ("extras", JInt 0); ("total", JInt 0)]);
   ("wickets", JStr "x");
   ("wicket", JList [JObj [("kind", JStr "bowled"); ("player_out", JStr "X")]])].

(** ** Events the reducer accepts *)

Definition is_int (v : json) : bool :=
  match as_int v with
  | Some _ => true
  | None => false
  end.

Definition extras_ok (v : json) : bool :=
  match v with
  | JObj _ => true
  | _ => negb (truthy v)
  end.

Definition wickets_ok (w : json) : bool :=
  match w with
  | JList (wk :: _) => isinstance_dict wk
  | _ => true
  end.

(** An event the loop body does not raise on: a mapping whose [runs] are
    absent or a mapping of integers, whose [extras] are absent, falsy or a
    mapping, and whose first wicket entry, when there is one, is a
    mapping. *)
Definition event_ok (ev : json) : bool :=
  match ev with
  | JObj d =>
      match py_or (field "runs" d) (JObj []) with
      | JObj rd =>
          is_int (match lookup "batter" rd with Some x => x | None => JInt 0 end)
          && is_int (match lookup "extras" rd with Some x => x | None => JInt 0 end)
          && is_int (match lookup "total" rd with Some x => x | None => JInt 0 end)
      | _ => false
      end
      && extras_ok (field "extras" d)
      && wickets_ok (chosen_wickets d)
  | _ => false
  end.

(** An over or ball number the overs computation accepts: null, or an
    integer a float can hold. *)
Definition floatable (v : json) : bool :=
  match v with
  | JNull => true
  | JInt z => match float_of_int z with Ok _ => true | Raise _ => false end
  | _ => false
  end.

Definition delivery_ok (d : json * json * json) : bool :=
  floatable (over_of d) && floatable (ball_of d) && event_ok (event_of d).



(** The rows the loop over one inning writes, tagged with the inning. *)
Definition row_of_inning (match_id : json) (inn : norm_inning)
  (batting_team bowling_team : json) (r : delivery_row) : Prop :=
  dr_match_id r = match_id /\
  dr_inning_number r = inning_number inn /\
  dr_batting_team r = batting_team /\
  dr_bowling_team r = bowling_team /\
  is_int (dr_runs_total r) = true.

(** The Innings row the reducer writes for a normalized inning. *)
Definition inning_row_of (match_id team1 team2 : json) (inn : norm_inning)
  (r : innings_row) : Prop :=
  ir_match_id r = match_id /\
  ir_inning_number r = inning_number inn /\
  ir_batting_team r = team inn /\
  ir_bowling_team r = (if py_eq (team inn) team1 then team2 else team1) /\
  (exists z, ir_runs r = JInt z) /\
  ir_wickets r = count_wickets (map event_of (deliveries inn)) /\
  exists f,
    ir_overs r = Some f /\
    overs_expr (last_non_null (JInt 0) (map over_of (deliveries inn)))
               (last_non_null (JInt 0) (map ball_of (deliveries inn))) = Ok f.

(** A match between A and B in which a third team bats. *)
Definition doc_third_team : json :=
  JObj [("info", JObj [("match_id", JStr "m1"); ("teams", JList [JStr "A"; JStr "B"])]);
        ("innings",
         JList [JObj [("team", JStr "C");
                      ("overs", JList [JObj [("over", JInt 0);
                                             ("deliveries", JList [ev_runs 1 0 1])]])]])].

(** A match whose team list has one entry. *)
Definition doc_one_team : json :=
  JObj [("info", JObj [("match_id", JStr "m2"); ("teams", JList [JStr "A"])]);
        ("innings",
         JList [JObj [("team", JStr "A"); ("overs", JList [])];
                JObj [("team", JStr "Z"); ("overs", JList [])]])].

(** An inning without deliveries. *)
Definition empty_inning (n : Z) (tm : json) : norm_inning :=
  {| inning_number := n; team := tm; deliveries := [] |}.

(** Inning lists with a well-formed first entry followed by an empty
    mapping, or by a number, in each dialect. *)
Definition v2_good_inning : json :=
  JObj [("team", JStr "A");
        ("overs", JList [JObj [("over", JInt 0);
                               ("deliveries", JList [ev_runs 1 0 1])]])].

Definition v1_good_inning : json :=
  JObj [("1st innings",
         JObj [("team", JStr "A");
               ("deliveries", JList [JObj [("0.1", ev_runs 1 0 1)]])])].

Definition doc_of_innings (innings : list json) : json :=
  JObj [("info", JObj [("match_id", JStr "m3"); ("teams", JList [JStr "A"; JStr "B"])]);
        ("innings", JList innings)].

(** The inning numbers and batting teams of the Innings rows, and the number
    of Delivery rows. *)
Definition rows_view (out : match_row * list innings_row * list delivery_row)
  : list (Z * json) * nat :=
  (map (fun r => (ir_inning_number r, ir_batting_team r)) (snd (fst out)),
   List.length (snd out)).

(** ** Vocabulary of the further properties *)

(** The test of [parse_v1_innings] and of its inner loop for an entry that
    is not skipped: a mapping that is not empty. *)
Definition kept_v1 (x : json) : bool := isinstance_dict x && truthy x.

(** The positions 1, 2, ..., n. *)
Definition positions (n : nat) : list Z :=
  map (fun i => Z.of_nat i + 1) (seq 0 n).

(** [v.get(k, [])] *)
Definition field_or_empty (k : string) (d : list (string * json)) : json :=
  match lookup k d with
  | Some x => x
  | None => JList []
  end.

(** The value under the first key of a mapping. *)
Definition first_value (x : json) : json :=
  match x with
  | JObj ((_, v) :: _) => v
  | _ => JNull
  end.

(** Over and ball of a normalized delivery are both null or both integers. *)
Definition both_or_neither (d : json * json * json) : Prop :=
  (over_of d = JNull /\ ball_of d = JNull) \/
  (exists o b, over_of d = JInt o /\ ball_of d = JInt b).

(** The Delivery row the reducer writes for a normalized delivery: the
    event is a mapping, over and ball are copied, the three player names
    are the event's fields, and without a wicket the wicket columns are
    null. *)
Definition row_of_delivery (d : json * json * json) (r : delivery_row) : Prop :=
  exists ev,
    event_of d = JObj ev /\
    dr_overs r = over_of d /\
    dr_ball r = ball_of d /\
    dr_batter r = field "batter" ev /\
    dr_bowler r = field "bowler" ev /\
    dr_non_striker r = field "non_striker" ev /\
    (bears_wicket (event_of d) = false ->
     dr_wicket_kind r = JNull /\ dr_player_out r = JNull).

(** The Innings row and the Delivery rows the reducer writes for one
    normalized inning. *)
Definition inning_block (match_id team1 team2 : json) (inn : norm_inning)
  (p : innings_row * list delivery_row) : Prop :=
  inning_row_of match_id team1 team2 inn (fst p) /\
  Forall (row_of_inning match_id inn (team inn)
            (if py_eq (team inn) team1 then team2 else team1)) (snd p) /\
  Forall2 row_of_delivery (deliveries inn) (snd p) /\
  ir_runs (fst p) = JInt (sum_Z (map runs_total_int (snd p))).

(** The Delivery rows of inning [n]. *)
Definition rows_of_inning (n : Z) (rows : list delivery_row)
  : list delivery_row :=
  filter (fun r => dr_inning_number r =? n) rows.

(** A Delivery row with a wicket kind. *)
Definition has_wicket_kind (r : delivery_row) : bool :=
  negb (is_none (dr_wicket_kind r)).

(** A string made of dots only (the empty string too). *)
Fixpoint all_dots (s : string) : bool :=
  match s with
  | EmptyString => true
  | String c s' => Ascii.eqb c dot && all_dots s'
  end.

(** A field of an event, null when the field is absent or the event is no
    mapping. *)
Definition event_field (k : string) (ev : json) : json :=
  match ev with
  | JObj d => field k d
  | _ => JNull
  end.

(** ** Paths of the sample files *)

Definition starts_with_slash (s : string) : bool :=
  match s with
  | String c _ => Ascii.eqb c "/"%char
  | EmptyString => false
  end.

Fixpoint ends_with_slash (s : string) : bool :=
  match s with
  | EmptyString => false
  | String c EmptyString => Ascii.eqb c "/"%char
  | String _ s' => ends_with_slash s'
  end.

(** [os.path.join(a, b)] on a POSIX system *)
Definition path_join (a b : string) : string :=
  if starts_with_slash b then b
  else if String.eqb a "" || ends_with_slash a then a ++ b
  else a ++ "/" ++ b.

(** [os.path.join(args.out, os.path.basename(name))] *)
Definition out_json_path (out name : string) : string :=
  path_join out (basename name).

(** What [parse_match_json] takes for a record without a match id. *)
Definition path_stem (match_path : string) : string :=
  splitext_root (basename match_path).

(** A record without a match id, and one with a match id. *)
Definition doc_without_id : json :=
  JObj [("info", JObj [("teams", JList [JStr "A"; JStr "B"])]);
        ("innings", JList [v2_good_inning])].

Definition null_match_row (match_id : json) : match_row :=
  {| mr_match_id := match_id; mr_match_type := JNull; mr_match_date := JNull;
     mr_venue := JNull; mr_city := JNull; mr_country := JNull;
     mr_team1 := JNull; mr_team2 := JNull;
     mr_toss_winner := JNull; mr_toss_decision := JNull;
     mr_winner := JNull; mr_result := JNull; mr_margin := JNull |}.

(** ** Selection of the sample files *)

(** [c.lower()] for a character below 256: the letters A to Z, and the
    accented capitals 192 to 222 but for the multiplication sign. *)
Definition lower_char (c : ascii) : ascii :=
  let n := nat_of_ascii c in
  if ((65 <=? n) && (n <=? 90)
      || (192 <=? n) && (n <=? 222) && negb (n =? 215))%nat
  then ascii_of_nat (n + 32)
  else c.

(** [s.lower()] *)
Fixpoint lower (s : string) : string :=
  match s with
  | EmptyString => EmptyString
  | String c s' => String (lower_char c) (lower s')
  end.

(** [s.endswith(suffix)] *)
Fixpoint endswith (suffix s : string) : bool :=
  String.eqb s suffix ||
  match s with
  | EmptyString => false
  | String _ s' => endswith suffix s'
  end.

(** The test [n.lower().endswith(".json")] *)
Definition is_json_name (n : string) : bool := endswith ".json" (lower n).

Fixpoint insert_sorted (x : string) (l : list string) : list string :=
  match l with
  | [] => [x]
  | y :: l' => if String.leb x y then x :: l else y :: insert_sorted x l'
  end.

(** [sorted(l)] for a list of strings: ascending by code points.  Strings
    that compare equal are the same string, so the stable sort of the
    interpreter and insertion give one result. *)
Fixpoint py_sorted (l : list string) : list string :=
  match l with
  | [] => []
  | x :: l' => insert_sorted x (py_sorted l')
  end.

(** The order of [sorted] on strings. *)
Definition le_string (a b : string) : Prop := String.leb a b = true.

(** [l[:n]] for an integer [n]: a negative [n] counts from the end. *)
Definition py_slice_to {A : Type} (n : Z) (l : list A) : list A :=
  if 0 <=? n then firstn (Z.to_nat n) l
  else firstn (List.length l - Z.to_nat (- n)) l.

Section Archive.

(** The archive as [zipfile.ZipFile] presents it: [zf.namelist()] and
    [zf.read(name)], which may raise. *)
Variable bytes : Type.
Variable namelist : list string.
Variable read : string -> result bytes.

(** Body of the loop that reads the selected entries. *)
Definition collect_entry (out : list (string * bytes)) (name : string)
  : result (list (string * bytes)) :=
  content <- read name ;;
  Ok (out ++ [(name, content)])%list.

Definition collect_sample_files (sample_n : Z)
  : result (list (string * bytes)) :=
  let names := py_sorted (filter is_json_name namelist) in
  for_each collect_entry [] (py_slice_to sample_n names).

End Archive.

(** ** Loading one sample into the database *)

(** The statements the script sends to the database: [INSERT IGNORE INTO
    teams], [REPLACE INTO matches], and the two [executemany] inserts. *)
Inductive db_call : Type :=
| InsertIgnoreTeam (team_name : json)
| ReplaceMatch (row : match_row)
| InsertInnings (rows : list innings_row)
| InsertDeliveries (rows : list delivery_row).

(** What the script prints for a sample. *)
Inductive report : Type :=
| Loaded (match_id : json) (innings deliveries : nat)
| Failed (e : exn).

Section Loading.

Variable fromisoformat : string -> option date.

(** [json.loads(fbytes.decode("utf-8"))] *)
Variable bytes : Type.
Variable loads : bytes -> result json.

(** The database behind the connection: a statement with its [commit]
    leaves a new state, and may raise. *)
Variable db : Type.
Variable execute : db_call -> db -> db * option exn.

Definition call (c : db_call) (con : db) : db * result unit :=
  let (con', e) := execute c con in
  (con', match e with None => Ok tt | Some x => Raise x end).

(** Sequencing of two actions on the connection: the second does not run
    when the first raises. *)
Definition and_then (a b : db -> db * result unit) (con : db)
  : db * result unit :=
  match a con with
  | (con', Ok _) => b con'
  | (con', Raise e) => (con', Raise e)
  end.

Definition upsert_team (team_name : json) (con : db) : db * result unit :=
  if negb (truthy team_name) then (con, Ok tt)
  else call (InsertIgnoreTeam team_name) con.

Definition insert_match (row : match_row) (con : db) : db * result unit :=
  call (ReplaceMatch row) con.

Definition insert_innings (rows : list innings_row) (con : db)
  : db * result unit :=
  match rows with
  | [] => (con, Ok tt)
  | _ :: _ => call (InsertInnings rows) con
  end.

Definition insert_deliveries (rows : list delivery_row) (con : db)
  : db * result unit :=
  match rows with
  | [] => (con, Ok tt)
  | _ :: _ => call (InsertDeliveries rows) con
  end.

(** The [try] statement of the loop over the samples. *)
Definition load_sample (fbytes : bytes) (out_json_path : string) (con : db)
  : db * report :=
  match (j <- loads fbytes ;; parse_match_json fromisoformat j out_json_path) with
  | Raise e => (con, Failed e)
  | Ok (match_row, innings_rows, deliveries_rows) =>
      match
        and_then (upsert_team (mr_team1 match_row))
          (and_then (upsert_team (mr_team2 match_row))
             (and_then (upsert_team (mr_toss_winner match_row))
                (and_then (upsert_team (mr_winner match_row))
                   (and_then (insert_match match_row)
                      (and_then (insert_innings innings_rows)
                         (insert_deliveries deliveries_rows)))))) con
      with
      | (con', Ok _) =>
          (con', Loaded (mr_match_id match_row) (List.length innings_rows)
                   (List.length deliveries_rows))
      | (con', Raise e) => (con', Failed e)
      end
  end.

(** The statements in the order of the program, run until one raises. *)
Fixpoint run_calls (calls : list db_call) (con : db) : db * result unit :=
  match calls with
  | [] => (con, Ok tt)
  | c :: calls' =>
      match call c con with
      | (con', Ok _) => run_calls calls' con'
      | (con', Raise e) => (con', Raise e)
      end
  end.

End Loading.

(** The statements a parsed sample leads to: the team names that are truthy
    among the four the Match row gives, the Match row, the Innings rows and
    the Delivery rows unless there are none. *)
Definition team_calls (row : match_row) : list db_call :=
  map InsertIgnoreTeam
    (filter truthy
       [mr_team1 row; mr_team2 row; mr_toss_winner row; mr_winner row]).

Definition row_calls (innings_rows : list innings_row)
  (deliveries_rows : list delivery_row) : list db_call :=
  (match innings_rows with [] => [] | _ :: _ => [InsertInnings innings_rows] end
   ++ match deliveries_rows with
      | [] => []
      | _ :: _ => [InsertDeliveries deliveries_rows]
      end)%list.

Definition sample_calls
  (out : match_row * list innings_row * list delivery_row) : list db_call :=
  let '(match_row, innings_rows, deliveries_rows) := out in
  (team_calls match_row ++ [ReplaceMatch match_row]
   ++ row_calls innings_rows deliveries_rows)%list.

(** ** Dialect independence, whatever the labels *)














(** * Documents compared and measured *)

(** Every item of [dx] is in [dy] under its key with an equal value: what
    [py_eq] asks of two dicts of one length. *)
Fixpoint items_in (dx dy : list (string * json)) : bool :=
  match dx with
  | [] => true
  | (k, v) :: dx' =>
      match lookup k dy with
      | Some w => py_eq v w && items_in dx' dy
      | None => false
      end
  end.

(** Nesting depth of a document. *)
Fixpoint json_depth (j : json) : nat :=
  match j with
  | JList l => S (fold_right (fun x n => Nat.max (json_depth x) n) O l)
  | JObj d => S (fold_right (fun kv n => Nat.max (json_depth (snd kv)) n) O d)
  | _ => O
  end.

(** The teams of the normalized innings are nested at most [n] deep. *)
Definition teams_within (n : nat) (norm : list norm_inning) : Prop :=
  Forall (fun inn => (json_depth (team inn) <= n)%nat) norm.

(** * The transform over a store of objects

    The model above takes a document as a value.  The interpreter holds it
    as objects in memory: a [list] and a [dict] can be changed in place, and
    two names can denote one object.  This second model keeps the objects
    in a store and runs the statements of the script against it, appends
    included, so that what a run changes in memory, and what a second run
    then finds, can be stated.

    A value is [None], a [bool], an [int], a [str], a [float], a [tuple], or
    a reference to a [list] or a [dict] of the store.  The keys of a [dict]
    are strings, as in a document and in the rows of the script. *)

Module Store.

Definition addr : Type := nat.

Inductive pyval : Type :=
| PNone
| PBool (b : bool)
| PInt (z : Z)
| PStr (s : string)
| PFloat (f : float)
| PTuple (items : list pyval)
| PRef (a : addr).

Arguments PRef a%_nat.

Inductive pyobj : Type :=
| OList (items : list pyval)
| ODict (items : list (string * pyval)).

Definition store : Type := list pyobj.

(** What a statement ends in: a value, an exception of the first model, or
    the [RecursionError] of a comparison that descends too deep. *)
Inductive outcome (A : Type) : Type :=
| Val (a : A)
| Exc (e : exn)
| RecursionError.

Arguments Val {A} a.
Arguments Exc {A} e.
Arguments RecursionError {A}.

(** A statement: from the store before it to its outcome and the store
    after it. *)
Definition M (A : Type) : Type := store -> outcome A * store.

Definition ret {A : Type} (a : A) : M A := fun s => (Val a, s).

Definition raise {A : Type} (e : exn) : M A := fun s => (Exc e, s).

Definition bind {A B : Type} (c : M A) (k : A -> M B) : M B :=
  fun s =>
    match c s with
    | (Val a, s') => k a s'
    | (Exc e, s') => (Exc e, s')
    | (RecursionError, s') => (RecursionError, s')
    end.

Notation "x <~ c1 ;; c2" := (bind c1 (fun x => c2))
  (at level 61, c1 at next level, right associativity).
Notation "' pat <~ c1 ;; c2" :=
  (bind c1 (fun x => match x with pat => c2 end))
  (at level 61, pat pattern, c1 at next level, right associativity).

(** A result of the first model, for the helpers that touch no object. *)
Definition lift {A : Type} (r : result A) : M A :=
  match r with
  | Ok a => ret a
  | Raise e => raise e
  end.

(** An expression that only reads the store. *)
Definition read {A : Type} (f : store -> A) : M A := fun s => (Val (f s), s).

(** ** Objects *)

(** The object a value refers to.  References come from [alloc] only, so
    one that points outside the store does not arise; the operations treat
    it like a value that is no object. *)
Definition deref (s : store) (v : pyval) : option pyobj :=
  match v with
  | PRef a => nth_error s a
  | _ => None
  end.

(** A new object: [[]], [{}], a list or dict display, a slice, a sum. *)
Definition alloc (o : pyobj) : M pyval :=
  fun s => (Val (PRef (List.length s)), (s ++ [o])%list).

Fixpoint replace {A : Type} (n : nat) (x : A) (l : list A) : list A :=
  match l, n with
  | [], _ => []
  | _ :: l', O => x :: l'
  | y :: l', S n' => y :: replace n' x l'
  end.

(** [l.append(v)]: the one statement of the script that changes an object. *)
Definition append (l v : pyval) : M unit :=
  fun s =>
    match l with
    | PRef a =>
        match nth_error s a with
        | Some (OList items) => (Val tt, replace a (OList (items ++ [v])%list) s)
        | _ => (Exc AttributeError, s)
        end
    | _ => (Exc AttributeError, s)
    end.

(** ** Expressions *)

Definition nonempty {A : Type} (l : list A) : bool :=
  match l with
  | [] => false
  | _ :: _ => true
  end.

Definition truthy (s : store) (v : pyval) : bool :=
  match v with
  | PNone => false
  | PBool b => b
  | PInt z => negb (z =? 0)
  | PStr x => negb (String.eqb x "")
  | PFloat f => negb (PrimFloat.eqb f 0)
  | PTuple l => nonempty l
  | PRef a =>
      match nth_error s a with
      | Some (OList l) => nonempty l
      | Some (ODict d) => nonempty d
      | None => false
      end
  end.

Definition is_none (v : pyval) : bool :=
  match v with PNone => true | _ => false end.

Definition isinstance_dict (s : store) (v : pyval) : bool :=
  match deref s v with Some (ODict _) => true | _ => false end.

Definition isinstance_list (s : store) (v : pyval) : bool :=
  match deref s v with Some (OList _) => true | _ => false end.

(** [a or b]: [b] is evaluated when [a] is falsy only. *)
Definition or_else (a : pyval) (b : M pyval) : M pyval :=
  t <~ read (fun s => truthy s a) ;;
  if t then ret a else b.

Fixpoint lookup (k : string) (d : list (string * pyval)) : option pyval :=
  match d with
  | [] => None
  | (k', v) :: d' => if String.eqb k k' then Some v else lookup k d'
  end.

Definition items_of (s : store) (v : pyval) : list (string * pyval) :=
  match deref s v with
  | Some (ODict d) => d
  | _ => []
  end.

(** [v.get(k, dflt)]: the method is looked up first, the default is
    evaluated next, the call comes last. *)
Definition get (v : pyval) (k : string) (dflt : M pyval) : M pyval :=
  is_dict <~ read (fun s => isinstance_dict s v) ;;
  if is_dict then
    d <~ dflt ;;
    read (fun s => match lookup k (items_of s v) with
                   | Some x => x
                   | None => d
                   end)
  else raise AttributeError.

(** [k in v] for a dict [v]. *)
Definition has_key (s : store) (v : pyval) (k : string) : bool :=
  match lookup k (items_of s v) with
  | Some _ => true
  | None => false
  end.

(** [list(v.keys())] *)
Definition keys (v : pyval) : M pyval :=
  is_dict <~ read (fun s => isinstance_dict s v) ;;
  if is_dict then
    ks <~ read (fun s => map (fun kv => PStr (fst kv)) (items_of s v)) ;;
    alloc (OList ks)
  else raise AttributeError.

Fixpoint chars (x : string) : list pyval :=
  match x with
  | EmptyString => []
  | String c x' => PStr (String c EmptyString) :: chars x'
  end.

(** [l[i]] for a sequence [l] and an integer [i]: a negative [i] counts from
    the end. *)
Definition index {A : Type} (l : list A) (i : Z) : outcome A :=
  let n := Z.of_nat (List.length l) in
  let i' := if i <? 0 then i + n else i in
  if (0 <=? i') && (i' <? n) then
    match nth_error l (Z.to_nat i') with
    | Some x => Val x
    | None => Exc IndexError
    end
  else Exc IndexError.

(** A value that can be a key: no list, no dict, no tuple that holds one. *)
Fixpoint hashable (v : pyval) : bool :=
  match v with
  | PRef _ => false
  | PTuple l => forallb hashable l
  | _ => true
  end.

(** The integer an index stands for. *)
Definition as_index (key : pyval) : option Z :=
  match key with
  | PInt z => Some z
  | PBool b => Some (Z.b2z b)
  | _ => None
  end.

(** [v[key]] *)
Definition getitem (v key : pyval) : M pyval :=
  fun s =>
    (match v with
     | PStr x =>
         match as_index key with
         | Some i => index (chars x) i
         | None => Exc TypeError
         end
     | PTuple l =>
         match as_index key with
         | Some i => index l i
         | None => Exc TypeError
         end
     | PRef a =>
         match nth_error s a with
         | Some (OList l) =>
             match as_index key with
             | Some i => index l i
             | None => Exc TypeError
             end
         | Some (ODict d) =>
             match key with
             | PStr k =>
                 match lookup k d with
                 | Some x => Val x
                 | None => Exc KeyError
                 end
             | _ => if hashable key then Exc KeyError else Exc TypeError
             end
         | None => Exc TypeError
         end
     | _ => Exc TypeError
     end, s).

(** The items a [for] loop or an unpacking draws from a value.  They are
    taken when the loop starts: no loop of the script appends to the list it
    runs over, its appends go to lists the function has just made. *)
Definition iter (v : pyval) : M (list pyval) :=
  fun s =>
    (match v with
     | PStr x => Val (chars x)
     | PTuple l => Val l
     | PRef a =>
         match nth_error s a with
         | Some (OList l) => Val l
         | Some (ODict d) => Val (map (fun kv => PStr (fst kv)) d)
         | None => Exc TypeError
         end
     | _ => Exc TypeError
     end, s).

(** [a, b = v] and [for a, b, c in ...] *)
Definition unpack2 (v : pyval) : M (pyval * pyval) :=
  l <~ iter v ;;
  match l with
  | [a; b] => ret (a, b)
  | _ => raise ValueError
  end.

Definition unpack3 (v : pyval) : M (pyval * pyval * pyval) :=
  l <~ iter v ;;
  match l with
  | [a; b; c] => ret (a, b, c)
  | _ => raise ValueError
  end.

(** [v[:2]] *)
Definition slice2 (v : pyval) : M pyval :=
  fun s =>
    match v with
    | PStr x => (Val (PStr (prefix 2 x)), s)
    | PTuple l => (Val (PTuple (firstn 2 l)), s)
    | PRef a =>
        match nth_error s a with
        | Some (OList l) => alloc (OList (firstn 2 l)) s
        | _ => (Exc TypeError, s)
        end
    | _ => (Exc TypeError, s)
    end.

(** ** Numbers *)

Definition as_num (v : pyval) : option (Z + float) :=
  match v with
  | PInt z => Some (inl z)
  | PBool b => Some (inl (Z.b2z b))
  | PFloat f => Some (inr f)
  | _ => None
  end.

Definition float_of_num (n : Z + float) : result float :=
  match n with
  | inl z => float_of_int z
  | inr f => Ok f
  end.

(** [a + b] for two numbers: an [int] when both are, a [float] otherwise. *)
Definition num_add (a b : pyval) : M pyval :=
  match as_num a, as_num b with
  | Some (inl x), Some (inl y) => ret (PInt (x + y))
  | Some x, Some y =>
      fx <~ lift (float_of_num x) ;;
      fy <~ lift (float_of_num y) ;;
      ret (PFloat (PrimFloat.add fx fy))
  | _, _ => raise TypeError
  end.

(** [a + b] *)
Definition add (a b : pyval) : M pyval :=
  match a, b with
  | PStr x, PStr y => ret (PStr (x ++ y))
  | PTuple x, PTuple y => ret (PTuple (x ++ y)%list)
  | PRef _, PRef _ =>
      fun s =>
        match deref s a, deref s b with
        | Some (OList x), Some (OList y) => alloc (OList (x ++ y)%list) s
        | _, _ => (Exc TypeError, s)
        end
  | _, _ => num_add a b
  end.

(** [l.extend(items)] *)
Fixpoint extend (l : pyval) (items : list pyval) : M unit :=
  match items with
  | [] => ret tt
  | x :: items' => _ <~ append l x ;; extend l items'
  end.

(** [a += b]: a list is extended in place, anything else is [a = a + b]. *)
Definition iadd (a b : pyval) : M pyval :=
  is_list <~ read (fun s => isinstance_list s a) ;;
  if is_list then
    items <~ iter b ;;
    _ <~ extend a items ;;
    ret a
  else add a b.

(** [a / d] for a float [d] that is not zero *)
Definition truediv (a : pyval) (d : float) : M pyval :=
  match as_num a with
  | Some n => x <~ lift (float_of_num n) ;; ret (PFloat (PrimFloat.div x d))
  | None => raise TypeError
  end.

(** ** Comparison *)

(** [f == z] for a float and an integer: the two are compared as numbers,
    without rounding the integer. *)
Definition float_eq_int (f : float) (z : Z) : bool :=
  match Prim2SF f with
  | S754_zero _ => z =? 0
  | S754_finite sign m e =>
      let v := if sign then - Z.pos m else Z.pos m in
      if 0 <=? e then z =? v * 2 ^ e
      else (v mod 2 ^ (- e) =? 0) && (z =? v / 2 ^ (- e))
  | _ => false
  end.

Fixpoint all2 (f : pyval -> pyval -> outcome bool) (xs ys : list pyval)
  : outcome bool :=
  match xs, ys with
  | [], [] => Val true
  | x :: xs', y :: ys' =>
      match f x y with
      | Val true => all2 f xs' ys'
      | r => r
      end
  | _, _ => Val false
  end.

Fixpoint sub_items (f : pyval -> pyval -> outcome bool)
  (dx dy : list (string * pyval)) : outcome bool :=
  match dx with
  | [] => Val true
  | (k, v) :: dx' =>
      match lookup k dy with
      | Some w =>
          match f v w with
          | Val true => sub_items f dx' dy
          | r => r
          end
      | None => Val false
      end
  end.

(** [a == b].  Numbers compare by value, sequences item by item and dicts
    key by key, after their lengths.  Each comparison the interpreter
    enters counts against its recursion limit: [depth] is what is left of
    it, and the comparison raises [RecursionError] when it runs out. *)
Fixpoint eq (depth : nat) (s : store) (a b : pyval) {struct depth}
  : outcome bool :=
  match depth with
  | O => RecursionError
  | S depth' =>
      match a, b with
      | PNone, PNone => Val true
      | PBool x, PBool y => Val (Bool.eqb x y)
      | PBool x, PInt y => Val (Z.b2z x =? y)
      | PInt x, PBool y => Val (x =? Z.b2z y)
      | PInt x, PInt y => Val (x =? y)
      | PStr x, PStr y => Val (String.eqb x y)
      | PFloat x, PFloat y => Val (PrimFloat.eqb x y)
      | PFloat x, PInt y => Val (float_eq_int x y)
      | PInt x, PFloat y => Val (float_eq_int y x)
      | PFloat x, PBool y => Val (float_eq_int x (Z.b2z y))
      | PBool x, PFloat y => Val (float_eq_int y (Z.b2z x))
      | PTuple xs, PTuple ys =>
          if (List.length xs =? List.length ys)%nat
          then all2 (eq depth' s) xs ys
          else Val false
      | PRef x, PRef y =>
          match nth_error s x, nth_error s y with
          | Some (OList xs), Some (OList ys) =>
              if (List.length xs =? List.length ys)%nat
              then all2 (eq depth' s) xs ys
              else Val false
          | Some (ODict dx), Some (ODict dy) =>
              if (List.length dx =? List.length dy)%nat
              then sub_items (eq depth' s) dx dy
              else Val false
          | _, _ => Val false
          end
      | _, _ => Val false
      end
  end.

(** ** Loops *)

(** A [for] loop over the items taken at its start; [st] holds the names
    the body assigns. *)
Fixpoint for_each {S A : Type} (body : S -> A -> M S) (st : S) (l : list A)
  : M S :=
  match l with
  | [] => ret st
  | x :: l' => st' <~ body st x ;; for_each body st' l'
  end.

(** ** Helpers of the script *)

Definition of_option_int (o : option Z) : pyval :=
  match o with
  | Some z => PInt z
  | None => PNone
  end.

(** [split_over_ball]: its [try] catches every exception, so a label that
    is no string gives [(None, None)] too. *)
Definition split_over_ball (ball_str : pyval) : pyval * pyval :=
  match ball_str with
  | PStr x =>
      let '(o, b) := split_over_ball x in
      (of_option_int o, of_option_int b)
  | _ => (PNone, PNone)
  end.

Section Transform.

Variable fromisoformat : string -> option date.

(** What the recursion limit leaves for a comparison. *)
Variable depth : nat.

Definition normalize_date (date_obj : pyval) : M pyval :=
  if is_none date_obj then ret PNone
  else
    is_list <~ read (fun s => isinstance_list s date_obj) ;;
    date_obj <~ (if is_list then
                   t <~ read (fun s => truthy s date_obj) ;;
                   if t then getitem date_obj (PInt 0) else ret PNone
                 else ret date_obj) ;;
    match date_obj with
    | PStr x =>
        match fromisoformat x with
        | Some dt => ret (PStr (isoformat dt))
        | None => ret (PStr (prefix 10 x))
        end
    | _ => ret PNone
    end.

(** *** The inning normalizers *)

(** Body of the inner loop of [parse_v1_innings]. *)
Definition parse_v1_entry (deliveries : pyval) (_ : unit) (entry : pyval)
  : M unit :=
  is_dict <~ read (fun s => isinstance_dict s entry) ;;
  t <~ read (fun s => truthy s entry) ;;
  if negb is_dict || negb t then ret tt
  else
    ks <~ keys entry ;;
    ball_key <~ getitem ks (PInt 0) ;;
    ev <~ getitem entry ball_key ;;
    let '(over_num, ball_num) := split_over_ball ball_key in
    append deliveries (PTuple [over_num; ball_num; ev]).

(** Body of the outer loop of [parse_v1_innings]. *)
Definition parse_v1_inning (norm_innings : pyval) (_ : unit) (p : Z * pyval)
  : M unit :=
  let '(idx, inn) := p in
  is_dict <~ read (fun s => isinstance_dict s inn) ;;
  t <~ read (fun s => truthy s inn) ;;
  if negb is_dict || negb t then ret tt
  else
    ks <~ keys inn ;;
    name <~ getitem ks (PInt 0) ;;
    data <~ getitem inn name ;;
    team <~ get data "team" (ret PNone) ;;
    deliveries <~ alloc (OList []) ;;
    entries <~ get data "deliveries" (alloc (OList [])) ;;
    entries <~ iter entries ;;
    _ <~ for_each (parse_v1_entry deliveries) tt entries ;;
    d <~ alloc (ODict [("inning_number", PInt idx); ("team", team);
                       ("deliveries", deliveries)]) ;;
    append norm_innings d.

Definition parse_v1_innings (innings_list : pyval) : M pyval :=
  norm_innings <~ alloc (OList []) ;;
  items <~ iter innings_list ;;
  _ <~ for_each (parse_v1_inning norm_innings) tt (enumerate 1 items) ;;
  ret norm_innings.

(** Body of the innermost loop of [parse_v2_innings]. *)
Definition parse_v2_delivery (deliveries over_num : pyval) (_ : unit)
  (p : Z * pyval) : M unit :=
  let '(i, ev) := p in
  append deliveries (PTuple [over_num; PInt i; ev]).

(** Body of the loop over the over blocks. *)
Definition parse_v2_over (deliveries : pyval) (_ : unit) (over_blk : pyval)
  : M unit :=
  over_num <~ get over_blk "over" (ret PNone) ;;
  evs <~ get over_blk "deliveries" (alloc (OList [])) ;;
  evs <~ iter evs ;;
  for_each (parse_v2_delivery deliveries over_num) tt (enumerate 1 evs).

(** Body of the outer loop of [parse_v2_innings]. *)
Definition parse_v2_inning (norm_innings : pyval) (_ : unit) (p : Z * pyval)
  : M unit :=
  let '(idx, inn) := p in
  team <~ get inn "team" (ret PNone) ;;
  deliveries <~ alloc (OList []) ;;
  overs <~ get inn "overs" (alloc (OList [])) ;;
  overs <~ iter overs ;;
  _ <~ for_each (parse_v2_over deliveries) tt overs ;;
  d <~ alloc (ODict [("inning_number", PInt idx); ("team", team);
                     ("deliveries", deliveries)]) ;;
  append norm_innings d.

Definition parse_v2_innings (innings_list : pyval) : M pyval :=
  norm_innings <~ alloc (OList []) ;;
  items <~ iter innings_list ;;
  _ <~ for_each (parse_v2_inning norm_innings) tt (enumerate 1 items) ;;
  ret norm_innings.

(** [isinstance(first, dict) and "team" in first and "overs" in first] *)
Definition is_v2 (s : store) (first : pyval) : bool :=
  isinstance_dict s first && (has_key s first "team" && has_key s first "overs").

Definition detect_and_parse_innings (innings_list : pyval) : M pyval :=
  t <~ read (fun s => truthy s innings_list) ;;
  if negb t then alloc (OList [])
  else
    first <~ getitem innings_list (PInt 0) ;;
    v2 <~ read (fun s => is_v2 s first) ;;
    if v2 then parse_v2_innings innings_list
    else parse_v1_innings innings_list.

Definition extract_country_from_venue (info : pyval) : M pyval :=
  country <~ get info "country" (ret PNone) ;;
  or_else country (ret PNone).

(** *** The event reducer *)

(** The names the loop over the deliveries of an inning assigns. *)
Record locals : Type := {
  total_runs : pyval;
  total_wkts : Z;
  last_over : pyval;
  last_ball : pyval
}.

(** [next(iter(extras_obj.keys()), None) if extras_obj else None] *)
Definition extras_type_of (extras_obj : pyval) : M pyval :=
  t <~ read (fun s => truthy s extras_obj) ;;
  if t then
    is_dict <~ read (fun s => isinstance_dict s extras_obj) ;;
    if is_dict then
      read (fun s => match items_of s extras_obj with
                     | (k, _) :: _ => PStr k
                     | [] => PNone
                     end)
    else raise AttributeError
  else ret PNone.

(** The [if isinstance(wickets, list) and wickets:] block. *)
Definition wicket_of (wickets : pyval) : M (Z * pyval * pyval) :=
  is_list <~ read (fun s => isinstance_list s wickets) ;;
  t <~ read (fun s => truthy s wickets) ;;
  if is_list && t then
    wk <~ getitem wickets (PInt 0) ;;
    wicket_kind <~ get wk "kind" (ret PNone) ;;
    player_out <~ get wk "player_out" (ret PNone) ;;
    ret (1, wicket_kind, player_out)
  else ret (0, PNone, PNone).

(** Body of the loop over the deliveries of an inning. *)
Definition reduce_delivery (deliveries_rows match_id inn : pyval)
  (batting_team bowling_team : pyval) (st : locals) (d : pyval) : M locals :=
  '(over_num, ball_num, ev) <~ unpack3 d ;;
  let last_over := if negb (is_none over_num) then over_num else last_over st in
  let last_ball := if negb (is_none ball_num) then ball_num else last_ball st in
  runs <~ get ev "runs" (ret PNone) ;;
  runs <~ or_else runs (alloc (ODict [])) ;;
  rb <~ get runs "batter" (ret (PInt 0)) ;;
  rext <~ get runs "extras" (ret (PInt 0)) ;;
  rtot <~ get runs "total" (add rb rext) ;;
  extras_obj <~ get ev "extras" (ret PNone) ;;
  extras_obj <~ or_else extras_obj (alloc (ODict [])) ;;
  extras_type <~ extras_type_of extras_obj ;;
  wickets <~ get ev "wickets" (ret PNone) ;;
  wickets <~ or_else wickets (get ev "wicket" (ret PNone)) ;;
  '(wicket_flag, wicket_kind, player_out) <~ wicket_of wickets ;;
  inning_number <~ getitem inn (PStr "inning_number") ;;
  batter <~ get ev "batter" (ret PNone) ;;
  bowler <~ get ev "bowler" (ret PNone) ;;
  non_striker <~ get ev "non_striker" (ret PNone) ;;
  row <~ alloc (ODict [("match_id", match_id);
                       ("inning_number", inning_number);
                       ("overs", over_num);
                       ("ball", ball_num);
                       ("batting_team", batting_team);
                       ("bowling_team", bowling_team);
                       ("batter", batter);
                       ("bowler", bowler);
                       ("non_striker", non_striker);
                       ("runs_batter", rb);
                       ("runs_extras", rext);
                       ("runs_total", rtot);
                       ("extras_type", extras_type);
                       ("wicket_kind", wicket_kind);
                       ("player_out", player_out)]) ;;
  _ <~ append deliveries_rows row ;;
  total_runs <~ iadd (total_runs st) rtot ;;
  ret {| total_runs := total_runs;
         total_wkts := total_wkts st + wicket_flag;
         last_over := last_over;
         last_ball := last_ball |}.

(** The three statements that follow the loop:
    [(last_over or 0) + (last_ball or 0) / 6.0] unless one is [None]. *)
Definition overs_float_of (last_over last_ball : pyval) : M pyval :=
  if negb (is_none last_over) && negb (is_none last_ball) then
    lo <~ or_else last_over (ret (PInt 0)) ;;
    lb <~ or_else last_ball (ret (PInt 0)) ;;
    q <~ truediv lb 6%float ;;
    add lo q
  else ret PNone.

(** Body of the loop over the normalized innings. *)
Definition reduce_inning (innings_rows deliveries_rows : pyval)
  (match_id team1 team2 : pyval) (_ : unit) (inn : pyval) : M unit :=
  batting_team <~ get inn "team" (ret PNone) ;;
  same <~ (fun s => (eq depth s batting_team team1, s)) ;;
  let bowling_team := if same then team2 else team1 in
  ds <~ getitem inn (PStr "deliveries") ;;
  ds <~ iter ds ;;
  st <~ for_each
          (reduce_delivery deliveries_rows match_id inn batting_team bowling_team)
          {| total_runs := PInt 0; total_wkts := 0;
             last_over := PInt 0; last_ball := PInt 0 |} ds ;;
  overs_float <~ overs_float_of (last_over st) (last_ball st) ;;
  inning_number <~ getitem inn (PStr "inning_number") ;;
  row <~ alloc (ODict [("match_id", match_id);
                       ("inning_number", inning_number);
                       ("batting_team", batting_team);
                       ("bowling_team", bowling_team);
                       ("runs", total_runs st);
                       ("wickets", PInt (total_wkts st));
                       ("overs", overs_float)]) ;;
  append innings_rows row.

Definition parse_match_json (j : pyval) (match_path : string) : M pyval :=
  info <~ get j "info" (alloc (ODict [])) ;;
  match_type <~ get info "match_type" (ret PNone) ;;
  match_id <~ get info "match_id" (ret PNone) ;;
  match_id <~ or_else match_id
                (ret (PStr (splitext_root (basename match_path)))) ;;
  teams <~ get info "teams" (alloc (OList [])) ;;
  nones <~ alloc (OList [PNone; PNone]) ;;
  padded <~ add teams nones ;;
  padded <~ slice2 padded ;;
  '(team1, team2) <~ unpack2 padded ;;
  dates <~ get info "dates" (ret PNone) ;;
  match_date <~ normalize_date dates ;;
  venue <~ get info "venue" (ret PNone) ;;
  city <~ get info "city" (ret PNone) ;;
  country <~ extract_country_from_venue info ;;
  toss <~ get info "toss" (alloc (ODict [])) ;;
  toss <~ or_else toss (alloc (ODict [])) ;;
  toss_winner <~ get toss "winner" (ret PNone) ;;
  toss <~ get info "toss" (alloc (ODict [])) ;;
  toss <~ or_else toss (alloc (ODict [])) ;;
  toss_decision <~ get toss "decision" (ret PNone) ;;
  outcome <~ get info "outcome" (alloc (ODict [])) ;;
  outcome <~ or_else outcome (alloc (ODict [])) ;;
  winner <~ get outcome "winner" (ret PNone) ;;
  outcome <~ get info "outcome" (alloc (ODict [])) ;;
  outcome <~ or_else outcome (alloc (ODict [])) ;;
  result_ <~ get outcome "result" (ret PNone) ;;
  match_row <~ alloc (ODict [("match_id", match_id);
                             ("match_type", match_type);
                             ("match_date", match_date);
                             ("venue", venue);
                             ("city", city);
                             ("country", country);
                             ("team1", team1);
                             ("team2", team2);
                             ("toss_winner", toss_winner);
                             ("toss_decision", toss_decision);
                             ("winner", winner);
                             ("result", result_);
                             ("margin", PNone)]) ;;
  innings_src <~ get j "innings" (alloc (OList [])) ;;
  norm_innings <~ detect_and_parse_innings innings_src ;;
  innings_rows <~ alloc (OList []) ;;
  deliveries_rows <~ alloc (OList []) ;;
  norm_innings <~ iter norm_innings ;;
  _ <~ for_each
         (reduce_inning innings_rows deliveries_rows match_id team1 team2)
         tt norm_innings ;;
  ret (PTuple [match_row; innings_rows; deliveries_rows]).

End Transform.

(** ** A document in the store *)

(** The value [v] is the document [J] in the store [s]: scalars are
    themselves, a list and a dict are references to objects whose items are
    the items of [J], in order.  [P] bounds the addresses the document may
    occupy. *)
Inductive denotes (P : addr -> Prop) (s : store) : pyval -> json -> Prop :=
| denotes_none : denotes P s PNone JNull
| denotes_bool b : denotes P s (PBool b) (JBool b)
| denotes_int z : denotes P s (PInt z) (JInt z)
| denotes_str x : denotes P s (PStr x) (JStr x)
| denotes_list a vs js :
    P a -> nth_error s a = Some (OList vs) ->
    Forall2 (denotes P s) vs js ->
    denotes P s (PRef a) (JList js)
| denotes_dict a items d :
    P a -> nth_error s a = Some (ODict items) ->
    Forall2 (fun kv kj => fst kv = fst kj /\ denotes P s (snd kv) (snd kj))
      items d ->
    denotes P s (PRef a) (JObj d).

(** The addresses below [n] that are not among [W]. *)
Definition fp (W : list addr) (n : nat) (x : addr) : Prop :=
  (x < n)%nat /\ ~ In x W.

(** [v] is the document [J] in [s], and none of its objects is among [W],
    the lists the running loops append to. *)
Definition den (W : list addr) (s : store) (v : pyval) (J : json) : Prop :=
  denotes (fp W (List.length s)) s v J.

(** From [s] to [s']: objects were added, and of the objects of [s] only
    those among [W] were changed. *)
Definition eff (W : list addr) (s s' : store) : Prop :=
  (List.length s <= List.length s')%nat /\
  forall x, (x < List.length s)%nat -> ~ In x W ->
            nth_error s' x = nth_error s x.

(** The statement [c], run in [s], does what the expression [r] of the
    first model does: it raises the same exception, or it returns a value
    that [R] relates to the value of [r]; it changes no object of [s] but
    those among [E].  [W] are the lists the running loops append to, all
    objects of [s]. *)
Definition refines {A B : Type} (E W : list addr) (s : store) (c : M A)
  (r : result B) (R : store -> A -> B -> Prop) : Prop :=
  (forall w, In w W -> (w < List.length s)%nat) ->
  exists o s',
    c s = (o, s') /\ eff E s s' /\
    match r with
    | Ok b => exists a, o = Val a /\ R s' a b
    | Raise e => o = Exc e
    end.

(** ** What the script builds, in the store *)

(** A tuple [(over_num, ball_num, ev)] of a normalized inning. *)
Definition is_delivery (W : list addr) (s : store) (v : pyval)
  (d : json * json * json) : Prop :=
  exists vo vb ve,
    v = PTuple [vo; vb; ve] /\
    den W s vo (over_of d) /\ den W s vb (ball_of d) /\ den W s ve (event_of d).

(** The list at [b] holds the tuples [ds]. *)
Definition deliveries_at (W : list addr) (s : store) (b : addr)
  (ds : list (json * json * json)) : Prop :=
  exists vs,
    nth_error s b = Some (OList vs) /\ Forall2 (is_delivery W s) vs ds.

(** The dict a normalizer appends for an inning. *)
Definition is_norm_inning (W : list addr) (s : store) (v : pyval)
  (inn : norm_inning) : Prop :=
  exists c b vt,
    v = PRef c /\ fp W (List.length s) c /\ fp W (List.length s) b /\
    nth_error s c =
      Some (ODict [("inning_number", PInt (inning_number inn));
                   ("team", vt); ("deliveries", PRef b)]) /\
    den W s vt (team inn) /\
    deliveries_at W s b (deliveries inn).

(** The list at [a] holds the normalized innings [norm]. *)
Definition innings_at (W : list addr) (s : store) (a : addr)
  (norm : list norm_inning) : Prop :=
  exists vs,
    nth_error s a = Some (OList vs) /\ Forall2 (is_norm_inning W s) vs norm.

(** The rows as documents: a Match row and a Delivery row hold values of a
    document only. *)
Definition match_row_json (r : match_row) : json :=
  JObj [("match_id", mr_match_id r); ("match_type", mr_match_type r);
        ("match_date", mr_match_date r); ("venue", mr_venue r);
        ("city", mr_city r); ("country", mr_country r);
        ("team1", mr_team1 r); ("team2", mr_team2 r);
        ("toss_winner", mr_toss_winner r);
        ("toss_decision", mr_toss_decision r);
        ("winner", mr_winner r); ("result", mr_result r);
        ("margin", mr_margin r)].

Definition delivery_row_json (r : delivery_row) : json :=
  JObj [("match_id", dr_match_id r);
        ("inning_number", JInt (dr_inning_number r));
        ("overs", dr_overs r); ("ball", dr_ball r);
        ("batting_team", dr_batting_team r);
        ("bowling_team", dr_bowling_team r);
        ("batter", dr_batter r); ("bowler", dr_bowler r);
        ("non_striker", dr_non_striker r);
        ("runs_batter", dr_runs_batter r);
        ("runs_extras", dr_runs_extras r);
        ("runs_total", dr_runs_total r);
        ("extras_type", dr_extras_type r);
        ("wicket_kind", dr_wicket_kind r);
        ("player_out", dr_player_out r)].

(** The [overs] of an Innings row: a float, or [None]. *)
Definition overs_value (o : option float) : pyval :=
  match o with
  | Some f => PFloat f
  | None => PNone
  end.

(** The dict the reducer appends for an inning. *)
Definition is_innings_row (W : list addr) (s : store) (v : pyval)
  (r : innings_row) : Prop :=
  exists c vm vbat vbowl vruns,
    v = PRef c /\ fp W (List.length s) c /\
    nth_error s c =
      Some (ODict [("match_id", vm);
                   ("inning_number", PInt (ir_inning_number r));
                   ("batting_team", vbat); ("bowling_team", vbowl);
                   ("runs", vruns); ("wickets", PInt (ir_wickets r));
                   ("overs", overs_value (ir_overs r))]) /\
    den W s vm (ir_match_id r) /\ den W s vbat (ir_batting_team r) /\
    den W s vbowl (ir_bowling_team r) /\ den W s vruns (ir_runs r).

(** The list at [q] holds the Delivery rows [rows]. *)
Definition deliveries_rows_at (W : list addr) (s : store) (q : addr)
  (rows : list delivery_row) : Prop :=
  exists vd,
    nth_error s q = Some (OList vd) /\
    Forall2 (fun v r => den W s v (delivery_row_json r)) vd rows.

(** The list at [p] holds the Innings rows [rows]. *)
Definition innings_rows_at (W : list addr) (s : store) (p : addr)
  (rows : list innings_row) : Prop :=
  exists vi,
    nth_error s p = Some (OList vi) /\ Forall2 (is_innings_row W s) vi rows.

(** The lists at [p] and [q] hold the Innings rows and the Delivery rows. *)
Definition rows_at (W : list addr) (s : store) (p q : addr)
  (rows : list innings_row * list delivery_row) : Prop :=
  innings_rows_at W s p (fst rows) /\ deliveries_rows_at W s q (snd rows).

(** The tuple the transform returns holds the rows [out] of the first
    model. *)
Definition is_output (s : store) (v : pyval)
  (out : match_row * list innings_row * list delivery_row) : Prop :=
  exists vm p q,
    v = PTuple [vm; PRef p; PRef q] /\
    den [] s vm (match_row_json (fst (fst out))) /\
    rows_at [] s p q (snd (fst out), snd out).

(** From [s] to [s']: what a document held clear of [W] occupies is still
    there, clear of [W']. *)
Definition moves (W : list addr) (s : store) (W' : list addr) (s' : store)
  : Prop :=
  forall x, fp W (List.length s) x ->
            fp W' (List.length s') x /\ nth_error s' x = nth_error s x.

(** ** A record in a store *)

(** A record of one inning, one over and one delivery, as [json.load]
    leaves it: every list and dict is an object of its own. *)
Definition sample_document : json :=
  JObj [("info", JObj [("teams", JList [JStr "A"; JStr "B"]);
                       ("dates", JList [JStr "2020-01-02"])]);
        ("innings",
         JList [JObj [("team", JStr "A");
                      ("overs",
                       JList [JObj [("over", JInt 0);
                                    ("deliveries",
                                     JList [JObj [("batter", JStr "x");
                                                  ("runs",
                                                   JObj [("batter", JInt 4);
                                                         ("extras", JInt 0);
                                                         ("total", JInt 4)])]])]])]])].

Definition sample_store : store :=
  [OList [PStr "A"; PStr "B"];
   OList [PStr "2020-01-02"];
   ODict [("teams", PRef 0); ("dates", PRef 1)];
   ODict [("batter", PInt 4); ("extras", PInt 0); ("total", PInt 4)];
   ODict [("batter", PStr "x"); ("runs", PRef 3)];
   OList [PRef 4];
   ODict [("over", PInt 0); ("deliveries", PRef 5)];
   OList [PRef 6];
   ODict [("team", PStr "A"); ("overs", PRef 7)];
   OList [PRef 8];
   ODict [("info", PRef 2); ("innings", PRef 9)]].

Definition sample_record : pyval := PRef 10.

(** The same record in a store that holds other objects too, laid out in
    another order. *)
Definition other_store : store :=
  [OList [PInt 7];
   ODict [("info", PRef 3); ("innings", PRef 2)];
   OList [PRef 4];
   ODict [("teams", PRef 5); ("dates", PRef 6)];
   ODict [("team", PStr "A"); ("overs", PRef 7)];
   OList [PStr "A"; PStr "B"];
   OList [PStr "2020-01-02"];
   OList [PRef 8];
   ODict [("over", PInt 0); ("deliveries", PRef 9)];
   OList [PRef 10];
   ODict [("batter", PStr "x"); ("runs", PRef 11)];
   ODict [("batter", PInt 4); ("extras", PInt 0); ("total", PInt 4)]].

Definition other_record : pyval := PRef 1.

End Store.

(** The names of the loop over the deliveries hold what the state of the
    first model holds; the running total is an integer. *)
Definition reducer_rel (W : list Store.addr) (s : Store.store) (q : Store.addr)
  (st : Store.locals) (ST : reducer) : Prop :=
  (exists t, Store.total_runs st = Store.PInt t /\ total_runs ST = JInt t) /\
  Store.total_wkts st = total_wkts ST /\
  Store.den W s (Store.last_over st) (last_over ST) /\
  Store.den W s (Store.last_ball st) (last_ball ST) /\
  Store.deliveries_rows_at W s q (deliveries_rows ST).

(** * Properties *)

(** ** The object model on samples *)

Example py_int_accepts :
  py_int " 5 " = Ok 5 /\ py_int "+5" = Ok 5 /\ py_int "-5" = Ok (-5) /\
  py_int "1_0" = Ok 10 /\ py_int "007" = Ok 7.
Proof. repeat split. Qed.

Example py_int_rejects :
  py_int "" = Raise ValueError /\ py_int "_1" = Raise ValueError /\
  py_int "1__0" = Raise ValueError /\ py_int "1_" = Raise ValueError /\
  py_int "- 5" = Raise ValueError /\ py_int "1 2" = Raise ValueError /\
  py_int "0.1" = Raise ValueError.
Proof. repeat split. Qed.

Example split_dot_samples :
  split_dot "0.1" = ["0"; "1"] /\ split_dot "5" = ["5"] /\
  split_dot "1.2.3" = ["1"; "2"; "3"] /\ split_dot "" = [""] /\
  split_dot "5." = ["5"; ""].
Proof. repeat split. Qed.

Example match_id_from_path :
  splitext_root (basename "data/tests/1234.json") = "1234" /\
  splitext_root (basename "a.b.json") = "a.b" /\
  splitext_root (basename "dir.x/file") = "file" /\
  splitext_root (basename ".hidden") = ".hidden".
Proof. repeat split. Qed.

(** The largest integer a float holds, and the first one it does not. *)
Example float_of_int_range :
  float_of_int (2 ^ 1024 - 2 ^ 970 - 1) = Ok 0x1.fffffffffffffp+1023%float /\
  float_of_int (2 ^ 1024 - 2 ^ 970) = Raise OverflowError /\
  float_of_int (2 ^ 53 + 1) = Ok 9007199254740992%float.
Proof. repeat split; vm_compute; reflexivity. Qed.

Example overs_expr_samples :
  overs_expr (JInt 19) (JInt 6) = Ok 20%float /\
  overs_expr (JInt 1) (JInt 3) = Ok 1.5%float /\
  overs_expr (JStr "") (JInt 0) = Ok 0%float /\
  overs_expr (JStr "3") (JInt 1) = Raise TypeError /\
  overs_expr (JInt (10 ^ 400)) (JInt 1) = Raise OverflowError.
Proof. repeat split; vm_compute; reflexivity. Qed.

Example py_eq_samples :
  py_eq (JStr "A") (JStr "A") = true /\ py_eq (JStr "A") (JStr "B") = false /\
  py_eq JNull JNull = true /\ py_eq (JStr "A") JNull = false /\
  py_eq (JBool true) (JInt 1) = true.
Proof. repeat split. Qed.

(** ** Strings and the ball label *)

Lemma dot_not_space c : Ascii.eqb c dot = true -> is_space c = false.
Proof. intros H. apply Ascii.eqb_eq in H. subst c. reflexivity. Qed.

Lemma dot_not_digit c : Ascii.eqb c dot = true -> digit_of c = None.
Proof. intros H. apply Ascii.eqb_eq in H. subst c. reflexivity. Qed.

Lemma dot_not_underscore c :
  Ascii.eqb c dot = true -> Ascii.eqb c "_"%char = false.
Proof. intros H. apply Ascii.eqb_eq in H. subst c. reflexivity. Qed.

Lemma dot_not_sign c :
  Ascii.eqb c dot = true ->
  Ascii.eqb c "+"%char = false /\ Ascii.eqb c "-"%char = false.
Proof. intros H. apply Ascii.eqb_eq in H. subst c. split; reflexivity. Qed.

Lemma all_space_no_dot s : all_space s = true -> contains_dot s = false.
Proof.
  induction s as [|c s IH]; simpl; intros H; [reflexivity|].
  apply andb_true_iff in H. destruct H as [Hc Hs].
  destruct (Ascii.eqb c dot) eqn:E.
  - rewrite (dot_not_space _ E) in Hc. discriminate.
  - simpl. auto.
Qed.

Lemma lstrip_no_dot s : contains_dot (lstrip s) = false -> contains_dot s = false.
Proof.
  induction s as [|c s IH]; simpl; intros H; [reflexivity|].
  destruct (is_space c) eqn:Hc.
  - destruct (Ascii.eqb c dot) eqn:E.
    + rewrite (dot_not_space _ E) in Hc. discriminate.
    + simpl. auto.
  - exact H.
Qed.

Lemma int_digits_no_dot n :
  forall s acc v rest,
    (String.length s <= n)%nat ->
    int_digits acc s = Some (v, rest) ->
    contains_dot rest = false -> contains_dot s = false.
Proof.
  induction n as [|n IH]; intros s acc v rest Hlen Hd Hrest.
  - destruct s; simpl in Hlen; [reflexivity | lia].
  - destruct s as [|c s]; [reflexivity|].
    simpl in Hlen. simpl in Hd. destruct (Ascii.eqb c dot) eqn:E.
    + rewrite (dot_not_digit _ E), (dot_not_underscore _ E) in Hd.
      inversion Hd; subst. simpl in Hrest. rewrite E in Hrest. discriminate.
    + simpl. rewrite E. simpl.
      destruct (digit_of c) as [d|].
      * eapply IH; [| exact Hd | exact Hrest]; lia.
      * destruct (Ascii.eqb c "_"%char).
        -- destruct s as [|c' s']; [discriminate|].
           destruct (Ascii.eqb c' dot) eqn:E'.
           ++ rewrite (dot_not_digit _ E') in Hd. discriminate.
           ++ simpl. rewrite E'. simpl.
              destruct (digit_of c') as [d|]; [|discriminate].
              eapply IH; [| exact Hd | exact Hrest]; simpl in Hlen; lia.
        -- inversion Hd; subst. simpl in Hrest. rewrite E in Hrest.
           exact Hrest.
Qed.

Lemma int_unsigned_no_dot s v : int_unsigned s = Some v -> contains_dot s = false.
Proof.
  destruct s as [|c s]; simpl; [discriminate|].
  destruct (Ascii.eqb c dot) eqn:E.
  - rewrite (dot_not_digit _ E). discriminate.
  - destruct (digit_of c) as [d|]; [|discriminate].
    destruct (int_digits d s) as [[v' rest]|] eqn:Hd; [|discriminate].
    destruct (all_space rest) eqn:Hs; [|discriminate].
    intros _. simpl.
    apply (int_digits_no_dot (String.length s) s d v' rest);
      [lia | exact Hd | apply all_space_no_dot; exact Hs].
Qed.

(** A string [int] reads has no dot in it. *)
Lemma py_int_no_dot s n : py_int s = Ok n -> contains_dot s = false.
Proof.
  unfold py_int. intros H. apply lstrip_no_dot.
  destruct (lstrip s) as [|c s2]; [reflexivity|].
  destruct (Ascii.eqb c dot) eqn:E.
  - destruct (dot_not_sign _ E) as [E1 E2]. rewrite E1, E2 in H.
    simpl in H. rewrite (dot_not_digit _ E) in H. discriminate.
  - simpl. rewrite E. simpl.
    destruct (Ascii.eqb c "+"%char).
    + destruct (int_unsigned s2) eqn:Hu; [|discriminate].
      eapply int_unsigned_no_dot; eassumption.
    + destruct (Ascii.eqb c "-"%char).
      * destruct (int_unsigned s2) eqn:Hu; [|discriminate].
        eapply int_unsigned_no_dot; eassumption.
      * destruct (int_unsigned (String c s2)) eqn:Hu; [|discriminate].
        apply int_unsigned_no_dot in Hu. simpl in Hu. rewrite E in Hu.
        exact Hu.
Qed.

Lemma split_dot_no_dot s : contains_dot s = false -> split_dot s = [s].
Proof.
  induction s as [|c s IH]; simpl; intros H; [reflexivity|].
  apply orb_false_iff in H. destruct H as [Hc Hs].
  rewrite Hc, (IH Hs). reflexivity.
Qed.

Lemma split_dot_app a b :
  contains_dot a = false ->
  split_dot (a ++ String dot b) = a :: split_dot b.
Proof.
  induction a as [|c a IH]; simpl; intros H; [reflexivity|].
  apply orb_false_iff in H. destruct H as [Hc Ha].
  rewrite Hc, (IH Ha). reflexivity.
Qed.

Lemma contains_dot_app a b : contains_dot (a ++ String dot b) = true.
Proof.
  induction a as [|c a IH]; simpl; [reflexivity|].
  rewrite IH. apply orb_true_r.
Qed.

Lemma split_dot_nonempty s : split_dot s <> [].
Proof.
  destruct s as [|c s]; simpl; [discriminate|].
  destruct (Ascii.eqb c dot); [discriminate|].
  destruct (split_dot s); discriminate.
Qed.

(** Two pieces come from a string with exactly one dot, between them. *)
Lemma split_dot_two s : forall a b,
  split_dot s = [a; b] -> s = a ++ String dot b.
Proof.
  induction s as [|c s IH]; simpl; intros a b H; [discriminate|].
  destruct (Ascii.eqb c dot) eqn:E.
  - inversion H as [[Ha Hb]]. apply Ascii.eqb_eq in E. subst c. simpl.
    f_equal. destruct (contains_dot s) eqn:Hd.
    + clear IH H. revert b Hb. induction s as [|c' s' IH']; simpl; intros b Hb.
      * discriminate.
      * simpl in Hd. destruct (Ascii.eqb c' dot).
        -- exfalso. inversion Hb as [[H1 H2]]. symmetry in H2.
           revert H2. pose proof (split_dot_nonempty s') as Hne.
           destruct (split_dot s'); [contradiction | discriminate].
        -- simpl in Hd. destruct (split_dot s') as [|p ps] eqn:Hs.
           ++ exfalso. eapply split_dot_nonempty; eassumption.
           ++ inversion Hb; subst. f_equal. apply (IH' Hd). reflexivity.
    + rewrite (split_dot_no_dot _ Hd) in Hb. inversion Hb. reflexivity.
  - destruct (split_dot s) as [|p ps] eqn:Hs.
    + exfalso. eapply split_dot_nonempty; eassumption.
    + inversion H; subst. simpl. f_equal. apply IH. reflexivity.
Qed.

(** C3. The ball-label splitter: a label made of two halves around one dot,
    both read by [int], gives the pair of their values; a label without a
    dot that [int] reads as [n] gives [(n, 0)]; every other label gives
    [(null, null)].  ["0.1"] gives (0, 1), ["5"] gives (5, 0) and ["x.y"]
    gives (null, null). *)
Theorem split_over_ball_spec :
  (forall a b x y,
      py_int a = Ok x -> py_int b = Ok y ->
      split_over_ball (a ++ "." ++ b) = (Some x, Some y)) /\
  (forall s n,
      contains_dot s = false -> py_int s = Ok n ->
      split_over_ball s = (Some n, Some 0)) /\
  (forall s,
      ~ (exists a b x y,
            s = a ++ "." ++ b /\ py_int a = Ok x /\ py_int b = Ok y) ->
      ~ (contains_dot s = false /\ exists n, py_int s = Ok n) ->
      split_over_ball s = (None, None)) /\
  split_over_ball "0.1" = (Some 0, Some 1) /\
  split_over_ball "5" = (Some 5, Some 0) /\
  split_over_ball "x.y" = (None, None).
Proof.
  repeat split; try reflexivity.
  - intros a b x y Ha Hb. unfold split_over_ball.
    change (a ++ "." ++ b) with (a ++ String dot b).
    rewrite contains_dot_app.
    rewrite (split_dot_app a b (py_int_no_dot _ _ Ha)).
    rewrite (split_dot_no_dot b (py_int_no_dot _ _ Hb)).
    simpl. rewrite Ha, Hb. reflexivity.
  - intros s n Hd Hs. unfold split_over_ball. rewrite Hd, Hs. reflexivity.
  - intros s Htwo Hone. unfold split_over_ball.
    destruct (contains_dot s) eqn:Hd.
    + destruct (split_dot s) as [|a [|b [|c r]]] eqn:Hs; try reflexivity.
      apply split_dot_two in Hs. simpl.
      destruct (py_int a) as [x|] eqn:Ha; [|reflexivity].
      destruct (py_int b) as [y|] eqn:Hb; [|reflexivity].
      exfalso. apply Htwo. exists a, b, x, y. auto.
    + destruct (py_int s) as [n|] eqn:Hs; [|reflexivity].
      exfalso. apply Hone. split; [reflexivity | exists n; reflexivity].
Qed.

Lemma split_over_ball_spec_witness :
  split_over_ball ("12" ++ "." ++ "3") = (Some 12, Some 3) /\
  split_over_ball " 7" = (Some 7, Some 0).
Proof.
  split.
  - apply (proj1 split_over_ball_spec "12" "3" 12 3); reflexivity.
  - apply (proj1 (proj2 split_over_ball_spec) " 7" 7); reflexivity.
Defined.

(** Labels the splitter rejects: more than one dot, an empty half, a sign
    without digits. *)
Example split_over_ball_rejects :
  split_over_ball "1.2.3" = (None, None) /\
  split_over_ball ".5" = (None, None) /\
  split_over_ball "5." = (None, None) /\
  split_over_ball "-" = (None, None) /\
  split_over_ball "" = (None, None).
Proof. repeat split; reflexivity. Qed.

(** ** The schema detector *)

Lemma has_key_In k d : has_key k d = true <-> In k (map fst d).
Proof.
  unfold has_key. induction d as [|[k' v] d IH]; simpl.
  - split; [discriminate | contradiction].
  - destruct (String.eqb k k') eqn:E.
    + apply String.eqb_eq in E. subst k'. split; auto.
    + apply String.eqb_neq in E. rewrite IH. split.
      * auto.
      * intros [H|H]; [congruence | exact H].
Qed.

(** C2. The detector classifies an inning list as Dialect B exactly when its
    first entry is a mapping with a [team] key and an [overs] key, and as
    Dialect A otherwise; the empty list gives no normalized inning; the
    whole list goes to the one normalizer the first entry selects, whatever
    the later entries look like. *)
Theorem detect_and_parse_innings_spec (innings_list : list json) :
  (classify innings_list = DialectB <->
   exists d rest,
     innings_list = JObj d :: rest /\
     In "team" (map fst d) /\ In "overs" (map fst d)) /\
  (classify innings_list = DialectA \/ classify innings_list = DialectB) /\
  detect_and_parse_innings (JList innings_list) =
    match innings_list with
    | [] => Ok []
    | _ :: _ =>
        match classify innings_list with
        | DialectB => parse_v2_innings (JList innings_list)
        | DialectA => parse_v1_innings (JList innings_list)
        end
    end /\
  detect_and_parse_innings (JList []) = Ok [] /\
  (forall first rest rest',
      innings_list = first :: rest ->
      classify (first :: rest') = classify innings_list).
Proof.
  split; [|split; [|split; [|split]]].
  - split.
    + destruct innings_list as [|first rest]; simpl; [discriminate|].
      destruct first as [| | | | |d]; try discriminate.
      destruct (has_key "team" d) eqn:Ht; [|discriminate].
      destruct (has_key "overs" d) eqn:Ho; [|discriminate].
      intros _. exists d, rest. repeat split; apply has_key_In; assumption.
    + intros (d & rest & -> & Ht & Ho). simpl.
      apply has_key_In in Ht. apply has_key_In in Ho. rewrite Ht, Ho.
      reflexivity.
  - destruct (classify innings_list); auto.
  - destruct innings_list as [|first rest]; [reflexivity|].
    unfold detect_and_parse_innings. simpl.
    destruct first as [| | | | |d]; try reflexivity.
    simpl. destruct (has_key "team" d && has_key "overs" d); reflexivity.
  - reflexivity.
  - intros first rest rest' ->. reflexivity.
Qed.

Lemma detect_and_parse_innings_spec_witness :
  classify [JObj [("team", JStr "A"); ("overs", JList [])]; JInt 5] = DialectB /\
  classify [JObj [("team", JStr "A"); ("overs", JList [])]] =
  classify [JObj [("team", JStr "A"); ("overs", JList [])]; JInt 5].
Proof.
  pose proof (detect_and_parse_innings_spec
                [JObj [("team", JStr "A"); ("overs", JList [])]; JInt 5])
    as (Hiff & _ & _ & _ & Hfirst).
  split.
  - apply Hiff. eexists. eexists. split; [reflexivity|].
    simpl. split; auto.
  - apply (Hfirst _ [JInt 5] []). reflexivity.
Defined.

(** An inning list in Dialect B whose second entry has the shape of
    Dialect A: the second entry is read by the Dialect B rule too, and
    yields an inning without a team and without deliveries. *)
Example one_decision_for_the_list :
  detect_and_parse_innings
    (JList [JObj [("team", JStr "A"); ("overs", JList [])];
            JObj [("2nd innings",
                   JObj [("team", JStr "B");
                         ("deliveries", JList [JObj [("0.1", ev_runs 1 0 1)]])])]]) =
  Ok [ {| inning_number := 1; team := JStr "A"; deliveries := [] |};
       {| inning_number := 2; team := JNull; deliveries := [] |} ].
Proof. reflexivity. Qed.

(** ** Date normalization *)

Lemma prefix_spec n : forall s,
  (exists rest, s = prefix n s ++ rest) /\
  String.length (prefix n s) = Nat.min n (String.length s).
Proof.
  unfold prefix. induction n as [|n IH]; intros s.
  - destruct s; simpl; split; eauto.
  - destruct s as [|c s]; simpl.
    + split; [exists EmptyString; reflexivity | reflexivity].
    + destruct (IH s) as [[rest Hr] Hl]. split.
      * exists rest. simpl. f_equal. exact Hr.
      * simpl. f_equal. exact Hl.
Qed.

(** C7, as the code has it.  A string the ISO parser reads normalizes to the
    ISO text of its date; a string it rejects normalizes to its first ten
    characters (the whole string when it is shorter); a list stands for its
    first element, the empty list for nothing; an absent date normalizes to
    null.  The list of 2022-01-03 and 2022-01-04 gives ["2022-01-03"], and
    ["2022/01/03XYZ"] gives its ten-character prefix ["2022/01/03"]. *)
Theorem normalize_date_spec (fromisoformat : string -> option date) :
  (forall s dt,
      fromisoformat s = Some dt ->
      normalize_date fromisoformat (JStr s) = JStr (isoformat dt)) /\
  (forall s,
      fromisoformat s = None ->
      normalize_date fromisoformat (JStr s) = JStr (prefix 10 s) /\
      (exists rest, s = prefix 10 s ++ rest) /\
      String.length (prefix 10 s) = Nat.min 10 (String.length s)) /\
  (forall s rest,
      normalize_date fromisoformat (JList (JStr s :: rest)) =
      normalize_date fromisoformat (JStr s)) /\
  normalize_date fromisoformat (JList []) = JNull /\
  normalize_date fromisoformat JNull = JNull /\
  (forall info,
      lookup "dates" info = None ->
      result_map (normalize_date fromisoformat)
        (py_get (JObj info) "dates" JNull) = Ok JNull) /\
  (fromisoformat "2022-01-03" = Some {| year := 2022; month := 1; day := 3 |} ->
   normalize_date fromisoformat
     (JList [JStr "2022-01-03"; JStr "2022-01-04"]) = JStr "2022-01-03") /\
  (fromisoformat "2022/01/03XYZ" = None ->
   normalize_date fromisoformat (JStr "2022/01/03XYZ") = JStr "2022/01/03").
Proof.
  repeat match goal with |- _ /\ _ => split end.
  - intros s dt H. unfold normalize_date. simpl. rewrite H. reflexivity.
  - intros s H. unfold normalize_date. simpl. rewrite H.
    split; [reflexivity | apply prefix_spec].
  - reflexivity.
  - reflexivity.
  - reflexivity.
  - intros info H. simpl. rewrite H. reflexivity.
  - intros H. unfold normalize_date. simpl. rewrite H. reflexivity.
  - intros H. unfold normalize_date. simpl. rewrite H. reflexivity.
Qed.

Lemma normalize_date_spec_witness :
  normalize_date fromisoformat_ymd (JStr "2024-02-29") = JStr "2024-02-29" /\
  normalize_date fromisoformat_ymd (JStr "2023-02-29T10:00") = JStr "2023-02-29" /\
  normalize_date fromisoformat_ymd
    (JList [JStr "2022-01-03"; JStr "2022-01-04"]) = JStr "2022-01-03" /\
  normalize_date fromisoformat_ymd (JStr "2022/01/03XYZ") = JStr "2022/01/03".
Proof.
  pose proof (normalize_date_spec fromisoformat_ymd)
    as (Hiso & Hraw & _ & _ & _ & _ & Hex1 & Hex2).
  repeat match goal with |- _ /\ _ => split end.
  - apply (Hiso "2024-02-29" {| year := 2024; month := 2; day := 29 |}).
    reflexivity.
  - apply (proj1 (Hraw "2023-02-29T10:00" eq_refl)).
  - apply Hex1. reflexivity.
  - apply Hex2. reflexivity.
Defined.

(** The second example of C7 as the specification has it fails: the fallback keeps ten characters, and
    ["2022/01/03X"] has eleven. *)
Lemma normalize_date_prefix_counterexample :
  normalize_date fromisoformat_ymd (JStr "2022/01/03XYZ") = JStr "2022/01/03" /\
  normalize_date fromisoformat_ymd (JStr "2022/01/03XYZ") <> JStr "2022/01/03X" /\
  ~ (forall f : string -> option date,
        f "2022/01/03XYZ" = None ->
        normalize_date f (JStr "2022/01/03XYZ") = JStr "2022/01/03X").
Proof.
  split; [reflexivity | split].
  - discriminate.
  - intros H. specialize (H (fun _ => None) eq_refl). discriminate.
Qed.

(** ** The result monad *)

Lemma bind_ok {A B : Type} (c : result A) (k : A -> result B) (b : B) :
  bind c k = Ok b -> exists a, c = Ok a /\ k a = Ok b.
Proof. destruct c as [a|e]; simpl; intros H; [eauto | discriminate]. Qed.

(** Splits a successful sequence [x <- c ;; k] into its two steps. *)
Tactic Notation "bind_inv" hyp(H) "as" ident(x) ident(Hx) :=
  apply bind_ok in H; destruct H as (x & Hx & H).

Lemma py_get_obj d k dflt :
  py_get (JObj d) k dflt = Ok (match lookup k d with Some x => x | None => dflt end).
Proof. reflexivity. Qed.

Lemma py_get_ok v k dflt x :
  py_get v k dflt = Ok x ->
  exists d, v = JObj d /\ x = match lookup k d with Some y => y | None => dflt end.
Proof.
  destruct v; simpl; intros H; try discriminate.
  inversion H. eauto.
Qed.

(** ** The event reducer, one delivery *)

(** C4, as the code has it.  For a delivery the reducer turns into a row:
    the batter runs and the extra runs default to 0; the total is the
    explicit total when there is one and their sum otherwise; the extras
    type is the first key of a non-empty [extras] object and null
    otherwise; the reducer consults [wickets], and [wicket] when [wickets]
    is absent or falsy, and records a wicket exactly when the field it
    consults is a non-empty list: the first entry alone gives the kind and
    the dismissed player, and the wicket count grows by exactly 1. *)
Theorem reduce_delivery_fields match_id inn batting_team bowling_team st
  over_num ball_num ev st' :
  reduce_delivery match_id inn batting_team bowling_team st
    (over_num, ball_num, ev) = Ok st' ->
  exists d rd row,
    ev = JObj d /\
    py_or (field "runs" d) (JObj []) = JObj rd /\
    deliveries_rows st' = (deliveries_rows st ++ [row])%list /\
    dr_runs_batter row =
      match lookup "batter" rd with Some x => x | None => JInt 0 end /\
    dr_runs_extras row =
      match lookup "extras" rd with Some x => x | None => JInt 0 end /\
    match lookup "total" rd with
    | Some t => dr_runs_total row = t
    | None =>
        py_add (dr_runs_batter row) (dr_runs_extras row) = Ok (dr_runs_total row)
    end /\
    dr_extras_type row =
      match field "extras" d with
      | JObj ((k, _) :: _) => JStr k
      | _ => JNull
      end /\
    total_wkts st' =
      total_wkts st + (if is_nonempty_list (chosen_wickets d) then 1 else 0) /\
    match chosen_wickets d with
    | JList (wk :: _) =>
        exists wd, wk = JObj wd /\
                   dr_wicket_kind row = field "kind" wd /\
                   dr_player_out row = field "player_out" wd
    | _ => dr_wicket_kind row = JNull /\ dr_player_out row = JNull
    end.
Proof.
  unfold reduce_delivery. intros H.
  bind_inv H as runs Hruns. apply py_get_ok in Hruns.
  destruct Hruns as (d & -> & ->).
  bind_inv H as rb Hrb. apply py_get_ok in Hrb. destruct Hrb as (rd & Hrd & ->).
  rewrite Hrd in H. simpl in H.
  bind_inv H as rsum Hsum.
  bind_inv H as extras_type Hextras.
  bind_inv H as wickets Hwickets.
  assert (Hw : wickets = chosen_wickets d).
  { unfold chosen_wickets, py_or, field.
    destruct (truthy _); inversion Hwickets; reflexivity. }
  subst wickets. clear Hwickets.
  bind_inv H as w Hwk. destruct w as [[wicket_flag wicket_kind] player_out].
  bind_inv H as total Htotal. inversion H; subst st'; clear H. simpl.
  exists d, rd. eexists. repeat match goal with |- _ /\ _ => split end;
    try reflexivity.
  - exact Hrd.
  - simpl. destruct (lookup "total" rd); [reflexivity | exact Hsum].
  - simpl. unfold extras_type_of, py_or in Hextras. unfold field.
    destruct (match lookup "extras" d with Some x => x | None => JNull end)
      as [| | | | |[|[k v] r]]; simpl in Hextras;
      repeat match type of Hextras with
             | context [if ?b then _ else _] => destruct b; simpl in Hextras
             end;
      try discriminate; inversion Hextras; reflexivity.
  - unfold wicket_of in Hwk.
    destruct (chosen_wickets d) as [| | | |[|wk r]|]; simpl;
      try (inversion Hwk; reflexivity).
    bind_inv Hwk as k Hk. bind_inv Hwk as po Hpo. inversion Hwk; reflexivity.
  - simpl. unfold wicket_of in Hwk.
    destruct (chosen_wickets d) as [| | | |[|wk r]|];
      try (inversion Hwk; subst; split; reflexivity).
    bind_inv Hwk as k Hk. bind_inv Hwk as po Hpo. inversion Hwk; subst.
    apply py_get_ok in Hk. destruct Hk as (wd & -> & ->).
    simpl in Hpo. inversion Hpo; subst.
    exists wd. repeat split.
Qed.

Lemma reduce_delivery_fields_witness :
  exists st',
    reduce_delivery (JStr "m") six_balls (JStr "A") (JStr "B")
      (reducer_init []) (JInt 1, JInt 1, ev_wicket) = Ok st' /\
    total_wkts st' = 1 /\
    exists row,
      deliveries_rows st' = [row] /\
      dr_wicket_kind row = JStr "bowled" /\ dr_player_out row = JStr "X".
Proof.
  eexists. split; [vm_compute; reflexivity|].
  destruct (reduce_delivery_fields (JStr "m") six_balls (JStr "A") (JStr "B")
              (reducer_init []) (JInt 1) (JInt 1) ev_wicket _ eq_refl)
    as (d & rd & row & Hev & _ & Hrows & _ & _ & _ & _ & Hcount & Hwk).
  unfold ev_wicket in Hev. injection Hev as <-.
  split; [exact Hcount|].
  exists row. split; [exact Hrows|].
  simpl in Hwk. destruct Hwk as (wd & Hwd & Hkind & Hout).
  injection Hwd as <-. split; assumption.
Defined.

(** The wicket rule of the specification fails where a truthy [wickets]
    field that is no list hides a [wicket] field that is a non-empty list:
    a field is present as a non-empty list, and no wicket is recorded. *)
Lemma wicket_field_counterexample :
  wicket_field_present ev_wicket_shadowed = true /\
  exists st',
    reduce_delivery (JStr "m") six_balls (JStr "A") (JStr "B")
      (reducer_init []) (JInt 0, JInt 1, JObj ev_wicket_shadowed) = Ok st' /\
    total_wkts st' = 0 /\
    exists row,
      deliveries_rows st' = [row] /\
      dr_wicket_kind row = JNull /\ dr_player_out row = JNull.
Proof.
  split; [reflexivity|].
  eexists. split; [vm_compute; reflexivity|].
  split; [reflexivity|].
  eexists. vm_compute. repeat split.
Qed.

(** A delivery with defaults: no [runs], no [extras], no wicket field. *)
Example reduce_delivery_defaults :
  exists st',
    reduce_delivery (JStr "m") six_balls (JStr "A") (JStr "B")
      (reducer_init []) (JNull, JNull, JObj [("batter", JStr "P")]) = Ok st' /\
    exists row,
      deliveries_rows st' = [row] /\
      dr_runs_batter row = JInt 0 /\ dr_runs_extras row = JInt 0 /\
      dr_runs_total row = JInt 0 /\ dr_extras_type row = JNull /\
      dr_wicket_kind row = JNull /\ total_wkts st' = 0.
Proof. eexists. split; [vm_compute; reflexivity|]. eexists. vm_compute. repeat split. Qed.

(** The sum is computed before the total is looked up: an event with an
    explicit total and a null batter score raises. *)
Example reduce_delivery_eager_sum :
  reduce_delivery (JStr "m") six_balls (JStr "A") (JStr "B") (reducer_init [])
    (JNull, JNull,
     JObj [("runs", JObj [("batter", JNull); ("total", JInt 4)])]) =
  Raise TypeError.
Proof. reflexivity. Qed.

(** ** The event reducer, one inning *)

Lemma py_add_int t v r :
  py_add (JInt t) v = Ok r ->
  exists z, as_int v = Some z /\ r = JInt (t + z).
Proof.
  unfold py_add. destruct v; simpl; intros H; try discriminate;
    inversion H; eauto.
Qed.

(** What one turn of the loop does to the running values. *)
Lemma reduce_delivery_step match_id inn batting_team bowling_team st
  over_num ball_num ev st' :
  reduce_delivery match_id inn batting_team bowling_team st
    (over_num, ball_num, ev) = Ok st' ->
  exists row,
    deliveries_rows st' = (deliveries_rows st ++ [row])%list /\
    dr_match_id row = match_id /\
    dr_inning_number row = inning_number inn /\
    dr_batting_team row = batting_team /\
    dr_bowling_team row = bowling_team /\
    dr_overs row = over_num /\ dr_ball row = ball_num /\
    (forall t, total_runs st = JInt t ->
               is_int (dr_runs_total row) = true /\
               total_runs st' = JInt (t + runs_total_int row)) /\
    total_wkts st' = total_wkts st + (if bears_wicket ev then 1 else 0) /\
    last_over st' = (if is_none over_num then last_over st else over_num) /\
    last_ball st' = (if is_none ball_num then last_ball st else ball_num).
Proof.
  unfold reduce_delivery. intros H.
  bind_inv H as runs Hruns. apply py_get_ok in Hruns.
  destruct Hruns as (d & -> & ->).
  bind_inv H as rb Hrb. apply py_get_ok in Hrb. destruct Hrb as (rd & Hrd & ->).
  rewrite Hrd in H. simpl in H.
  bind_inv H as rsum Hsum.
  bind_inv H as extras_type Hextras.
  bind_inv H as wickets Hwickets.
  assert (Hw : wickets = chosen_wickets d).
  { unfold chosen_wickets, py_or, field.
    destruct (truthy _); inversion Hwickets; reflexivity. }
  subst wickets. clear Hwickets.
  bind_inv H as w Hwk. destruct w as [[wicket_flag wicket_kind] player_out].
  bind_inv H as total Htotal. inversion H; subst st'; clear H. simpl.
  eexists. repeat match goal with |- _ /\ _ => split end; try reflexivity.
  - intros t Ht. rewrite Ht in Htotal. apply py_add_int in Htotal.
    destruct Htotal as (z & Hz & ->). unfold runs_total_int, is_int. simpl.
    rewrite Hz. split; reflexivity.
  - f_equal. unfold wicket_of in Hwk.
    destruct (chosen_wickets d) as [| | | |[|wk r]|]; simpl;
      try (inversion Hwk; reflexivity).
    bind_inv Hwk as k Hk. bind_inv Hwk as po Hpo. inversion Hwk; reflexivity.
  - destruct over_num; reflexivity.
  - destruct ball_num; reflexivity.
Qed.

Lemma fold_left_add_shift l : forall a, fold_left Z.add l a = a + fold_left Z.add l 0.
Proof.
  induction l as [|z l IH]; simpl; intros a; [lia|].
  rewrite (IH (a + z)), (IH z). lia.
Qed.

Lemma sum_Z_cons z l : sum_Z (z :: l) = z + sum_Z l.
Proof. unfold sum_Z. simpl. apply fold_left_add_shift. Qed.

Lemma count_wickets_cons ev evs :
  count_wickets (ev :: evs) = (if bears_wicket ev then 1 else 0) + count_wickets evs.
Proof.
  unfold count_wickets. simpl. destruct (bears_wicket ev); simpl List.length; lia.
Qed.

(** The loop over the deliveries of an inning is the left fold of the
    deliveries: one row each, the totals summed, the last non-null over and
    ball kept. *)
Lemma reduce_loop match_id inn batting_team bowling_team :
  forall ds st st' t,
    for_each (reduce_delivery match_id inn batting_team bowling_team) st ds
      = Ok st' ->
    total_runs st = JInt t ->
    exists new,
      deliveries_rows st' = (deliveries_rows st ++ new)%list /\
      List.length new = List.length ds /\
      Forall (row_of_inning match_id inn batting_team bowling_team) new /\
      map dr_overs new = map over_of ds /\
      map dr_ball new = map ball_of ds /\
      total_runs st' = JInt (t + sum_Z (map runs_total_int new)) /\
      total_wkts st' = total_wkts st + count_wickets (map event_of ds) /\
      last_over st' = last_non_null (last_over st) (map over_of ds) /\
      last_ball st' = last_non_null (last_ball st) (map ball_of ds).
Proof.
  induction ds as [|[[o b] ev] ds IH]; simpl; intros st st' t H Ht.
  - inversion H; subst st'. exists []. rewrite app_nil_r.
    repeat match goal with |- _ /\ _ => split end; auto.
    + rewrite Ht. f_equal. unfold sum_Z. simpl. lia.
    + unfold count_wickets. simpl. lia.
  - bind_inv H as s1 Hs1.
    apply reduce_delivery_step in Hs1.
    destruct Hs1 as (row & Hrows & Hid & Hnum & Hbat & Hbowl & Ho & Hb & Hruns
                     & Hwk & Hlo & Hlb).
    destruct (Hruns t Ht) as [Hint Hruns1].
    destruct (IH s1 st' _ H Hruns1)
      as (new & Hrows' & Hlen & Hall & Hos & Hbs & Hruns' & Hwk' & Hlo' & Hlb').
    exists (row :: new).
    repeat match goal with |- _ /\ _ => split end.
    + rewrite Hrows', Hrows, <- app_assoc. reflexivity.
    + simpl. f_equal. exact Hlen.
    + constructor; [repeat split; assumption | exact Hall].
    + simpl. rewrite Ho, Hos. reflexivity.
    + simpl. rewrite Hb, Hbs. reflexivity.
    + rewrite Hruns'. simpl map. rewrite sum_Z_cons. f_equal. lia.
    + rewrite Hwk', Hwk, count_wickets_cons. lia.
    + rewrite Hlo', Hlo. unfold last_non_null, over_of. simpl. reflexivity.
    + rewrite Hlb', Hlb. unfold last_non_null, ball_of. simpl. reflexivity.
Qed.

Lemma last_non_null_not_none l : forall dflt,
  is_none dflt = false -> is_none (last_non_null dflt l) = false.
Proof.
  unfold last_non_null. induction l as [|v l IH]; simpl; intros dflt H.
  - exact H.
  - apply IH. destruct (is_none v) eqn:E; [exact H | exact E].
Qed.

(** The Innings row of an inning and the Delivery rows written with it. *)
Lemma reduce_inning_ok match_id team1 team2 innings_rows drows inn
  innings_rows' drows' :
  reduce_inning match_id team1 team2 (innings_rows, drows) inn
    = Ok (innings_rows', drows') ->
  let batting_team := team inn in
  let bowling_team := if py_eq batting_team team1 then team2 else team1 in
  exists new f,
    drows' = (drows ++ new)%list /\
    List.length new = List.length (deliveries inn) /\
    Forall (row_of_inning match_id inn batting_team bowling_team) new /\
    map dr_overs new = map over_of (deliveries inn) /\
    map dr_ball new = map ball_of (deliveries inn) /\
    overs_expr (last_non_null (JInt 0) (map over_of (deliveries inn)))
               (last_non_null (JInt 0) (map ball_of (deliveries inn))) = Ok f /\
    innings_rows' =
      (innings_rows ++
       [{| ir_match_id := match_id;
           ir_inning_number := inning_number inn;
           ir_batting_team := batting_team;
           ir_bowling_team := bowling_team;
           ir_runs := JInt (sum_Z (map runs_total_int new));
           ir_wickets := count_wickets (map event_of (deliveries inn));
           ir_overs := Some f |}])%list.
Proof.
  unfold reduce_inning. simpl. intros H.
  bind_inv H as st Hst.
  apply reduce_loop with (t := 0) in Hst; [|reflexivity].
  destruct Hst as (new & Hrows & Hlen & Hall & Hos & Hbs & Hruns & Hwk & Hlo & Hlb).
  simpl in Hrows, Hwk, Hlo, Hlb.
  bind_inv H as overs_float Hov.
  unfold overs_float_of in Hov. rewrite Hlo, Hlb in Hov.
  rewrite !last_non_null_not_none in Hov by reflexivity. simpl in Hov.
  bind_inv Hov as f Hf. inversion Hov; subst overs_float.
  inversion H; subst. exists new, f.
  repeat match goal with |- _ /\ _ => split end; auto.
  rewrite Hruns, Hwk. reflexivity.
Qed.

(** ** The reducer returns *)

Lemma py_add_ints a b :
  is_int a = true -> is_int b = true ->
  exists x y, as_int a = Some x /\ as_int b = Some y /\
              py_add a b = Ok (JInt (x + y)).
Proof.
  unfold is_int. destruct (as_int a) as [x|] eqn:Ha; [|discriminate].
  destruct (as_int b) as [y|] eqn:Hb; [|discriminate].
  intros _ _. exists x, y. repeat split.
  unfold py_add. rewrite Ha, Hb.
  destruct a; try discriminate; destruct b; try discriminate; reflexivity.
Qed.

Lemma extras_type_of_returns v :
  extras_ok v = true ->
  exists r, extras_type_of (py_or v (JObj [])) = Ok r.
Proof.
  unfold extras_type_of, py_or, extras_ok.
  destruct v as [| | | | |[|[k x] d]]; simpl; intros H;
    try (rewrite negb_true_iff in H; rewrite H; simpl); eauto;
    discriminate.
Qed.

Lemma wicket_of_returns w :
  wickets_ok w = true ->
  exists r, wicket_of w = Ok r.
Proof.
  unfold wicket_of, wickets_ok. destruct w as [| | | |[|wk l]|]; eauto.
  destruct wk; simpl; intros H; try discriminate. eauto.
Qed.

(** On an event of the accepted shape the loop body returns. *)
Lemma reduce_delivery_returns match_id inn batting_team bowling_team st
  over_num ball_num ev t :
  event_ok ev = true ->
  total_runs st = JInt t ->
  exists st',
    reduce_delivery match_id inn batting_team bowling_team st
      (over_num, ball_num, ev) = Ok st'.
Proof.
  intros Hev Ht. destruct ev as [| | | | |d]; try discriminate.
  unfold event_ok in Hev.
  apply andb_true_iff in Hev. destruct Hev as [Hev Hwk].
  apply andb_true_iff in Hev. destruct Hev as [Hruns Hextras].
  unfold reduce_delivery. rewrite !py_get_obj. cbn [bind].
  fold (field "runs" d). fold (field "extras" d).
  destruct (py_or (field "runs" d) (JObj [])) as [| | | | |rd]; try discriminate.
  rewrite !py_get_obj. cbn [bind].
  apply andb_true_iff in Hruns. destruct Hruns as [Hruns Htot].
  apply andb_true_iff in Hruns. destruct Hruns as [Hb He].
  destruct (py_add_ints _ _ Hb He) as (x & y & _ & _ & Hsum).
  rewrite Hsum. cbn [bind].
  destruct (extras_type_of_returns _ Hextras) as (et & Het).
  rewrite Het. cbn [bind].
  assert (Hch : (if truthy (field "wickets" d) then Ok (field "wickets" d)
                 else Ok (field "wicket" d)) = Ok (chosen_wickets d)).
  { unfold chosen_wickets, py_or. destruct (truthy _); reflexivity. }
  fold (field "wickets" d). fold (field "wicket" d).
  rewrite Hch. cbn [bind].
  destruct (wicket_of_returns _ Hwk) as ([[flag kind] po] & Hw).
  rewrite Hw. cbn [bind]. rewrite Ht.
  assert (Hrt : is_int (match lookup "total" rd with
                        | Some x0 => x0 | None => JInt (x + y) end) = true).
  { destruct (lookup "total" rd); [exact Htot | reflexivity]. }
  destruct (py_add_ints (JInt t) _ eq_refl Hrt) as (a & b & _ & _ & Hadd).
  rewrite py_get_obj. cbn [bind]. rewrite Hadd. cbn [bind]. eauto.
Qed.

Lemma reduce_loop_returns match_id inn batting_team bowling_team :
  forall ds st t,
    forallb delivery_ok ds = true ->
    total_runs st = JInt t ->
    exists st',
      for_each (reduce_delivery match_id inn batting_team bowling_team) st ds
        = Ok st'.
Proof.
  induction ds as [|[[o b] ev] ds IH]; intros st t Hok Ht;
    simpl in Hok; cbn [for_each].
  - eauto.
  - apply andb_true_iff in Hok. destruct Hok as [Hd Hds].
    unfold delivery_ok in Hd. apply andb_true_iff in Hd.
    destruct Hd as [_ Hev]. simpl in Hev.
    destruct (reduce_delivery_returns match_id inn batting_team bowling_team
                st o b ev t Hev Ht) as (s1 & Hs1).
    rewrite Hs1. cbn [bind].
    apply reduce_delivery_step in Hs1.
    destruct Hs1 as (row & _ & _ & _ & _ & _ & _ & _ & Hruns & _).
    eapply IH; [exact Hds | apply (Hruns t Ht)].
Qed.

Lemma last_non_null_floatable l : forall dflt,
  floatable dflt = true ->
  forallb floatable l = true ->
  floatable (last_non_null dflt l) = true.
Proof.
  unfold last_non_null. induction l as [|v l IH]; simpl; intros dflt Hd Hl.
  - exact Hd.
  - apply andb_true_iff in Hl. destruct Hl as [Hv Hl].
    apply IH; [|exact Hl]. destruct (is_none v); assumption.
Qed.

Lemma floatable_int v :
  floatable v = true -> is_none v = false ->
  exists z f, v = JInt z /\ float_of_int z = Ok f.
Proof.
  destruct v; simpl; try discriminate.
  destruct (float_of_int z) as [f|] eqn:E; [|discriminate]. eauto.
Qed.

(** The overs value of an inning that ended on ball [b] of over [o]. *)
Lemma overs_expr_int o b fo fb :
  float_of_int o = Ok fo -> float_of_int b = Ok fb ->
  overs_expr (JInt o) (JInt b) = Ok (fo + fb / 6)%float.
Proof.
  intros Ho Hb. unfold overs_expr, py_or, truthy.
  assert (Hor : forall z, (if negb (z =? 0) then JInt z else JInt 0) = JInt z).
  { intros z. destruct (z =? 0) eqn:E; [|reflexivity].
    apply Z.eqb_eq in E. subst z. reflexivity. }
  rewrite !Hor. unfold py_truediv, py_add_float, to_float. simpl.
  rewrite Hb. cbn [bind]. rewrite Ho. reflexivity.
Qed.

(** On an inning whose deliveries have the accepted shape the reducer
    returns. *)
Lemma reduce_inning_returns match_id team1 team2 rows inn :
  forallb delivery_ok (deliveries inn) = true ->
  exists out, reduce_inning match_id team1 team2 rows inn = Ok out.
Proof.
  intros Hok. unfold reduce_inning.
  destruct (reduce_loop_returns match_id inn (team inn)
              (if py_eq (team inn) team1 then team2 else team1)
              (deliveries inn) (reducer_init (snd rows)) 0 Hok eq_refl)
    as (st & Hst).
  rewrite Hst. cbn [bind].
  apply reduce_loop with (t := 0) in Hst; [|reflexivity].
  destruct Hst as (new & _ & _ & _ & _ & _ & _ & _ & Hlo & Hlb).
  simpl in Hlo, Hlb.
  assert (Hfo : forallb floatable (map over_of (deliveries inn)) = true
                /\ forallb floatable (map ball_of (deliveries inn)) = true).
  { clear - Hok. induction (deliveries inn) as [|d ds IH]; simpl; [auto|].
    simpl in Hok. apply andb_true_iff in Hok. destruct Hok as [Hd Hds].
    unfold delivery_ok in Hd. apply andb_true_iff in Hd. destruct Hd as [Hd _].
    apply andb_true_iff in Hd. destruct Hd as [Ho Hb].
    destruct (IH Hds) as [IHo IHb]. rewrite Ho, Hb, IHo, IHb. auto. }
  destruct Hfo as [Hfo Hfb].
  destruct (floatable_int (last_over st)) as (o & fo & Ho & Hfo').
  { rewrite Hlo. apply last_non_null_floatable; [reflexivity | exact Hfo]. }
  { rewrite Hlo. apply last_non_null_not_none. reflexivity. }
  destruct (floatable_int (last_ball st)) as (b & fb & Hb & Hfb').
  { rewrite Hlb. apply last_non_null_floatable; [reflexivity | exact Hfb]. }
  { rewrite Hlb. apply last_non_null_not_none. reflexivity. }
  unfold overs_float_of. rewrite Ho, Hb. simpl.
  rewrite (overs_expr_int o b fo fb Hfo' Hfb'). cbn [bind]. eauto.
Qed.

(** ** The event reducer, all innings *)

(** The loop over the normalized innings writes one Innings row per inning,
    in order. *)
Lemma reduce_innings_loop match_id team1 team2 :
  forall norm irows0 drows0 irows drows,
    for_each (reduce_inning match_id team1 team2) (irows0, drows0) norm
      = Ok (irows, drows) ->
    exists new,
      irows = (irows0 ++ new)%list /\
      Forall2 (inning_row_of match_id team1 team2) norm new.
Proof.
  induction norm as [|inn norm IH]; simpl; intros irows0 drows0 irows drows H.
  - inversion H; subst. exists []. rewrite app_nil_r. split; constructor.
  - bind_inv H as s1 Hs1. destruct s1 as [irows1 drows1].
    apply reduce_inning_ok in Hs1. simpl in Hs1.
    destruct Hs1 as (newd & f & _ & _ & _ & _ & _ & Hf & Hir).
    destruct (IH _ _ _ _ H) as (new & Hnew & Hall).
    eexists (_ :: new). split.
    + rewrite Hnew, Hir, <- app_assoc. reflexivity.
    + constructor; [|exact Hall].
      unfold inning_row_of. simpl.
      repeat match goal with |- _ /\ _ => split end; eauto.
Qed.

(** The steps of [parse_match_json] that end well. *)
Lemma parse_match_json_ok fromisoformat j match_path mr irows drows :
  parse_match_json fromisoformat j match_path = Ok (mr, irows, drows) ->
  exists info teams innings_src norm,
    py_get j "info" (JObj []) = Ok (JObj info) /\
    match lookup "teams" info with Some x => x | None => JList [] end
      = JList teams /\
    mr_team1 mr = nth 0 teams JNull /\
    mr_team2 mr = nth 1 teams JNull /\
    mr_match_date mr = normalize_date fromisoformat (field "dates" info) /\
    py_get j "innings" (JList []) = Ok innings_src /\
    detect_and_parse_innings innings_src = Ok norm /\
    for_each (reduce_inning (mr_match_id mr) (mr_team1 mr) (mr_team2 mr))
      ([], []) norm = Ok (irows, drows).
Proof.
  unfold parse_match_json. intros H.
  bind_inv H as info Hinfo.
  bind_inv H as match_type Htype. apply py_get_ok in Htype.
  destruct Htype as (d & -> & ->).
  rewrite !py_get_obj in H. cbn [bind] in H.
  bind_inv H as padded Hpad.
  bind_inv H as sliced Hslice.
  bind_inv H as tt Hunpack. destruct tt as [team1 team2].
  unfold extract_country_from_venue in H. rewrite !py_get_obj in H.
  cbn [bind] in H.
  bind_inv H as toss_winner Htw. bind_inv H as toss_decision Htd.
  bind_inv H as winner Hwin. bind_inv H as res Hres.
  bind_inv H as innings_src Hsrc. bind_inv H as norm Hnorm.
  bind_inv H as rows Hrows. destruct rows as [irows' drows'].
  inversion H; subst mr irows' drows'; clear H. simpl.
  assert (Hteams : exists teams,
             match lookup "teams" d with Some x => x | None => JList [] end
               = JList teams /\
             team1 = nth 0 teams JNull /\ team2 = nth 1 teams JNull).
  { unfold py_add in Hpad.
    destruct (match lookup "teams" d with Some x => x | None => JList [] end)
      as [| | | |ts|]; simpl in Hpad; try discriminate.
    inversion Hpad; subst padded. simpl in Hslice.
    inversion Hslice; subst sliced. exists ts. split; [reflexivity|].
    destruct ts as [|a [|b r]]; simpl in Hunpack; inversion Hunpack; auto. }
  destruct Hteams as (teams & Hteams & -> & ->).
  exists d, teams, innings_src, norm.
  repeat match goal with |- _ /\ _ => split end; auto.
Qed.

(** ** The Innings aggregate *)

(** C5. The Innings row of a normalized inning is the left fold of its
    deliveries in encounter order: the runs are the sum of the totals of its
    Delivery rows, the wickets the number of wicket-bearing deliveries, and
    the overs value is [final_over + final_ball / 6] for the last non-null
    over and ball numbers (0 before the first).  The reducer returns on
    every inning whose deliveries have the accepted shape.  Six deliveries
    with batter runs 0, 4, 1, 6, 0, 2 and no extras give 13 runs and no
    wicket. *)
Theorem innings_row_is_fold :
  (forall match_id team1 team2 rows inn,
      forallb delivery_ok (deliveries inn) = true ->
      exists out, reduce_inning match_id team1 team2 rows inn = Ok out) /\
  (forall match_id team1 team2 irows drows inn irows' drows',
      reduce_inning match_id team1 team2 (irows, drows) inn
        = Ok (irows', drows') ->
      let final_over := last_non_null (JInt 0) (map over_of (deliveries inn)) in
      let final_ball := last_non_null (JInt 0) (map ball_of (deliveries inn)) in
      exists row new f,
        irows' = (irows ++ [row])%list /\
        drows' = (drows ++ new)%list /\
        List.length new = List.length (deliveries inn) /\
        Forall (fun r => is_int (dr_runs_total r) = true) new /\
        ir_runs row = JInt (fold_left Z.add (map runs_total_int new) 0) /\
        ir_wickets row = count_wickets (map event_of (deliveries inn)) /\
        ir_overs row = Some f /\
        overs_expr final_over final_ball = Ok f /\
        (forall o b fo fb,
            final_over = JInt o -> final_ball = JInt b ->
            float_of_int o = Ok fo -> float_of_int b = Ok fb ->
            f = (fo + fb / 6)%float)) /\
  (exists row drows,
      reduce_inning (JStr "m") (JStr "A") (JStr "B") ([], []) six_balls
        = Ok ([row], drows) /\
      map dr_runs_batter drows = map JInt [0; 4; 1; 6; 0; 2] /\
      map dr_runs_extras drows = map JInt [0; 0; 0; 0; 0; 0] /\
      ir_runs row = JInt 13 /\ ir_wickets row = 0 /\
      ir_overs row = Some 1%float).
Proof.
  split; [|split].
  - intros. apply reduce_inning_returns. assumption.
  - intros match_id team1 team2 irows drows inn irows' drows' H.
    apply reduce_inning_ok in H. simpl in H.
    destruct H as (new & f & Hd & Hlen & Hall & _ & _ & Hf & Hir).
    simpl. eexists. exists new, f.
    split; [exact Hir|]. simpl.
    repeat match goal with |- _ /\ _ => split end; auto.
    { eapply Forall_impl; [|exact Hall]. intros r Hr. apply Hr. }
    intros o b fo fb Ho Hb Hfo Hfb. rewrite Ho, Hb in Hf.
    rewrite (overs_expr_int o b fo fb Hfo Hfb) in Hf. congruence.
  - eexists. eexists. split; [vm_compute; reflexivity|]. vm_compute. repeat split.
Qed.

Lemma innings_row_is_fold_witness :
  exists irows new,
    reduce_inning (JStr "m") (JStr "A") (JStr "B") ([], []) six_balls
      = Ok (irows, new) /\
    List.length new = 6%nat /\
    exists row f,
      irows = [row] /\
      ir_runs row = JInt (fold_left Z.add (map runs_total_int new) 0) /\
      ir_wickets row = 0 /\
      ir_overs row = Some f /\ f = 1%float.
Proof.
  destruct (reduce_inning (JStr "m") (JStr "A") (JStr "B") ([], []) six_balls)
    as [[irows new]|e] eqn:E; [|vm_compute in E; discriminate].
  exists irows, new. split; [reflexivity|].
  destruct (proj1 (proj2 innings_row_is_fold) _ _ _ _ _ _ _ _ E)
    as (row & new' & f & Hir & Hdr & Hlen & _ & Hruns & Hwk & Hov & _ & Hint).
  simpl in Hir, Hdr. subst new'. split; [exact Hlen|].
  exists row, f. repeat match goal with |- _ /\ _ => split end.
  - exact Hir.
  - exact Hruns.
  - exact Hwk.
  - exact Hov.
  - apply (Hint 0 6 0%float 6%float); vm_compute; reflexivity.
Defined.

(** Null over and ball numbers carry the previous values forward. *)
Example overs_carry_forward :
  exists row drows,
    reduce_inning (JStr "m") (JStr "A") (JStr "B") ([], [])
      {| inning_number := 1; team := JStr "A";
         deliveries := [(JInt 2, JInt 3, ev_runs 1 0 1);
                        (JNull, JNull, ev_runs 2 0 2)] |}
      = Ok ([row], drows) /\
    ir_runs row = JInt 3 /\ ir_overs row = Some 2.5%float.
Proof. eexists. eexists. split; [vm_compute; reflexivity|]. split; vm_compute; reflexivity. Qed.

(** ** The overs value *)

(** C10. The overs value of an Innings row is never null: after the loop
    over the deliveries neither [last_over] nor [last_ball] is null, so the
    test that guards the computation always passes; an inning without
    deliveries gets the overs value 0.0. *)
Theorem overs_never_null :
  (forall fromisoformat j match_path mr irows drows,
      parse_match_json fromisoformat j match_path = Ok (mr, irows, drows) ->
      Forall (fun r => ir_overs r <> None) irows) /\
  (forall match_id inn batting_team bowling_team drows st,
      for_each (reduce_delivery match_id inn batting_team bowling_team)
        (reducer_init drows) (deliveries inn) = Ok st ->
      is_none (last_over st) = false /\ is_none (last_ball st) = false) /\
  (forall match_id team1 team2 irows drows n tm,
      reduce_inning match_id team1 team2 (irows, drows) (empty_inning n tm) =
      Ok ((irows ++
           [{| ir_match_id := match_id;
               ir_inning_number := n;
               ir_batting_team := tm;
               ir_bowling_team := if py_eq tm team1 then team2 else team1;
               ir_runs := JInt 0;
               ir_wickets := 0;
               ir_overs := Some 0%float |}])%list, drows)).
Proof.
  split; [|split].
  - intros fromisoformat j match_path mr irows drows H.
    apply parse_match_json_ok in H.
    destruct H as (info & teams & src & norm & _ & _ & _ & _ & _ & _ & _ & H).
    apply reduce_innings_loop in H. destruct H as (new & -> & Hall).
    simpl. clear - Hall. induction Hall as [|inn r norm new Hr _ IH].
    + constructor.
    + constructor; [|exact IH].
      destruct Hr as (_ & _ & _ & _ & _ & _ & f & Hf & _). congruence.
  - intros match_id inn batting_team bowling_team drows st H.
    apply reduce_loop with (t := 0) in H; [|reflexivity].
    destruct H as (new & _ & _ & _ & _ & _ & _ & _ & Hlo & Hlb).
    rewrite Hlo, Hlb. split; apply last_non_null_not_none; reflexivity.
  - intros. reflexivity.
Qed.

Lemma overs_never_null_witness :
  exists mr irows drows,
    parse_match_json fromisoformat_ymd (encode_v2 sample_match) "x.json"
      = Ok (mr, irows, drows) /\
    List.length irows = 2%nat /\
    Forall (fun r => ir_overs r <> None) irows.
Proof.
  destruct (parse_match_json fromisoformat_ymd (encode_v2 sample_match) "x.json")
    as [[[mr irows] drows]|e] eqn:E; [|vm_compute in E; discriminate].
  exists mr, irows, drows. split; [reflexivity|]. split.
  - assert (E' := E). vm_compute in E'. injection E' as _ <- _. reflexivity.
  - exact (proj1 overs_never_null _ _ _ _ _ _ E).
Defined.

(** ** Team pairing *)

(** C8, as the code has it.  The Match row takes [team1] and [team2] from
    the first two entries of the team list, null standing in for a missing
    entry, so a list with one entry gives [team2 = null].  The bowling team
    of an inning is [team2] when the batting team equals [team1], and
    [team1] in every other case: an inning whose batting team matches
    neither name gets [team1].  The inference raises nothing: the reducer
    returns on every inning whose deliveries have the accepted shape,
    whatever the team names. *)
Theorem team_pairing :
  (forall fromisoformat j match_path mr irows drows,
      parse_match_json fromisoformat j match_path = Ok (mr, irows, drows) ->
      exists info teams,
        py_get j "info" (JObj []) = Ok (JObj info) /\
        match lookup "teams" info with Some x => x | None => JList [] end
          = JList teams /\
        mr_team1 mr = nth 0 teams JNull /\
        mr_team2 mr = nth 1 teams JNull /\
        (List.length teams = 1%nat -> mr_team2 mr = JNull) /\
        Forall (fun r =>
                  ir_bowling_team r =
                  if py_eq (ir_batting_team r) (mr_team1 mr)
                  then mr_team2 mr else mr_team1 mr) irows /\
        Forall (fun r =>
                  py_eq (ir_batting_team r) (mr_team1 mr) = false ->
                  ir_bowling_team r = mr_team1 mr) irows) /\
  (forall match_id team1 team2 rows inn,
      forallb delivery_ok (deliveries inn) = true ->
      exists out, reduce_inning match_id team1 team2 rows inn = Ok out).
Proof.
  split.
  - intros fromisoformat j match_path mr irows drows H.
    apply parse_match_json_ok in H.
    destruct H as (info & teams & src & norm & Hinfo & Hteams & Ht1 & Ht2 & _
                   & _ & _ & H).
    apply reduce_innings_loop in H. destruct H as (new & -> & Hall).
    exists info, teams.
    repeat match goal with |- _ /\ _ => split end; auto.
    + intros Hlen. rewrite Ht2.
      destruct teams as [|a [|b r]]; simpl in Hlen; try discriminate.
      reflexivity.
    + simpl. clear - Hall. induction Hall as [|inn r norm new Hr _ IH].
      * constructor.
      * constructor; [|exact IH].
        destruct Hr as (_ & _ & Hbat & Hbowl & _). rewrite Hbowl, Hbat.
        reflexivity.
    + simpl. clear - Hall. induction Hall as [|inn r norm new Hr _ IH].
      * constructor.
      * constructor; [|exact IH].
        destruct Hr as (_ & _ & Hbat & Hbowl & _). rewrite Hbowl, Hbat.
        intros ->. reflexivity.
  - intros. apply reduce_inning_returns. assumption.
Qed.

Lemma team_pairing_witness :
  exists mr irows drows,
    parse_match_json fromisoformat_ymd doc_one_team "m2.json"
      = Ok (mr, irows, drows) /\
    mr_team1 mr = JStr "A" /\ mr_team2 mr = JNull /\
    map ir_batting_team irows = [JStr "A"; JStr "Z"] /\
    Forall (fun r =>
              ir_bowling_team r =
              if py_eq (ir_batting_team r) (mr_team1 mr)
              then mr_team2 mr else mr_team1 mr) irows.
Proof.
  destruct (parse_match_json fromisoformat_ymd doc_one_team "m2.json")
    as [[[mr irows] drows]|e] eqn:E; [|vm_compute in E; discriminate].
  exists mr, irows, drows. split; [reflexivity|].
  destruct (proj1 team_pairing _ _ _ _ _ _ E)
    as (info & teams & Hinfo & Hteams & Ht1 & Ht2 & Hone & Hbowl & _).
  vm_compute in Hinfo. injection Hinfo as <-.
  vm_compute in Hteams. injection Hteams as <-.
  repeat match goal with |- _ /\ _ => split end.
  - exact Ht1.
  - apply Hone. reflexivity.
  - assert (E' := E). vm_compute in E'. injection E' as _ <- _. reflexivity.
  - exact Hbowl.
Defined.

(** The bowling-team rule of the specification fails: in a match between A
    and B an inning batted by C, which matches neither name, gets the
    bowling team A, not null. *)
Lemma bowling_team_counterexample :
  exists mr row drows,
    parse_match_json fromisoformat_ymd doc_third_team "m1.json"
      = Ok (mr, [row], drows) /\
    mr_team1 mr = JStr "A" /\ mr_team2 mr = JStr "B" /\
    ir_batting_team row = JStr "C" /\
    py_eq (ir_batting_team row) (mr_team1 mr) = false /\
    py_eq (ir_batting_team row) (mr_team2 mr) = false /\
    ir_bowling_team row = JStr "A" /\
    ir_bowling_team row <> JNull.
Proof.
  eexists. eexists. eexists. split; [vm_compute; reflexivity|].
  vm_compute. repeat split. discriminate.
Qed.

(** With one team in the list, the inning of the other side gets that team
    as bowling team, and the inning of the listed team gets null. *)
Example one_team_bowling :
  result_map (fun out => map (fun r => (ir_batting_team r, ir_bowling_team r))
                           (snd (fst out)))
    (parse_match_json fromisoformat_ymd doc_one_team "m2.json") =
  Ok [(JStr "A", JNull); (JStr "Z", JStr "A")].
Proof. vm_compute. reflexivity. Qed.

(** ** The two dialects *)














(** *** The normalizers on the two encodings, whatever the labels *)











(** *** The reducer does not read the over and ball numbers for its totals *)



















(** ** Malformed inning entries *)

(** The Dialect A normalizer skips an entry that is no mapping or an empty
    mapping. *)
Lemma parse_v1_inning_skips norm_innings idx inn :
  isinstance_dict inn = false \/ inn = JObj [] ->
  parse_v1_inning norm_innings (idx, inn) = Ok norm_innings.
Proof.
  intros [H| ->]; [|reflexivity].
  unfold parse_v1_inning. rewrite H. reflexivity.
Qed.

(** C6.  The Dialect B normalizer has no such test.  After a well-formed
    first inning an empty mapping is not skipped: it yields an Innings row,
    with inning number 2 and no batting team; and a number in the list
    raises, so that no row of the match is produced.  The same two entries
    in a Dialect A list are skipped, and the inning after them is
    processed. *)
Theorem v2_malformed_entry_not_skipped :
  result_map rows_view
    (parse_match_json fromisoformat_ymd
       (doc_of_innings [v2_good_inning; JObj []]) "m3.json") =
  Ok ([(1, JStr "A"); (2, JNull)], 1%nat) /\
  parse_match_json fromisoformat_ymd
    (doc_of_innings [v2_good_inning; JInt 5; v2_good_inning]) "m3.json" =
  Raise AttributeError /\
  result_map rows_view
    (parse_match_json fromisoformat_ymd
       (doc_of_innings [v1_good_inning; JObj []; JInt 5; v1_good_inning])
       "m3.json") =
  Ok ([(1, JStr "A"); (4, JStr "A")], 2%nat).
Proof. repeat split; vm_compute; reflexivity. Qed.

(** * The transform over the store *)

(** ** Documents *)

Lemma json_ind' (Q : json -> Prop) :
  Q JNull -> (forall b, Q (JBool b)) -> (forall z, Q (JInt z)) ->
  (forall x, Q (JStr x)) ->
  (forall l, Forall Q l -> Q (JList l)) ->
  (forall d, Forall (fun kv => Q (snd kv)) d -> Q (JObj d)) ->
  forall j, Q j.
Proof.
  intros Hn Hb Hi Hs Hl Hd. fix IH 1. intros [ | b | z | x | l | d].
  - exact Hn.
  - apply Hb.
  - apply Hi.
  - apply Hs.
  - apply Hl. induction l as [|j l IHl]; constructor; [apply IH | exact IHl].
  - apply Hd. induction d as [|[k j] d IHd]; constructor; [apply IH | exact IHd].
Qed.

Lemma Forall2_Forall_r {A B : Type} (R R' : A -> B -> Prop) (Q : B -> Prop) :
  forall l l',
    Forall Q l' -> Forall2 R l l' ->
    (forall a b, Q b -> R a b -> R' a b) -> Forall2 R' l l'.
Proof.
  intros l l' HQ HR Himp. induction HR as [|a b l l' Hab _ IH]; [constructor|].
  inversion HQ; subst. constructor; [apply Himp; assumption | apply IH; assumption].
Qed.

Lemma denotes_weaken (P Q : Store.addr -> Prop) s :
  (forall x, P x -> Q x) ->
  forall J v, Store.denotes P s v J -> Store.denotes Q s v J.
Proof.
  intros HPQ. induction J as [ | b | z | x | l IH | d IH] using json_ind';
    intros v H; inversion H; subst; try constructor; auto.
  - econstructor; eauto.
    eapply Forall2_Forall_r; [exact IH | eassumption |].
    intros v0 j0 Hb Hab. apply Hb. exact Hab.
  - econstructor; eauto.
    eapply (Forall2_Forall_r _ _ (fun kv => forall v,
              Store.denotes P s v (snd kv) -> Store.denotes Q s v (snd kv)));
      [exact IH | eassumption |].
    intros v0 j0 Hb [Hk Hab]. split; [exact Hk | apply Hb; exact Hab].
Qed.

Lemma denotes_transport (P : Store.addr -> Prop) s s' :
  (forall x, P x -> nth_error s' x = nth_error s x) ->
  forall J v, Store.denotes P s v J -> Store.denotes P s' v J.
Proof.
  intros Hsame. induction J as [ | b | z | x | l IH | d IH] using json_ind';
    intros v H; inversion H; subst; try constructor; auto.
  - econstructor; eauto.
    + rewrite Hsame; eassumption.
    + eapply Forall2_Forall_r; [exact IH | eassumption |].
      intros v0 j0 Hb Hab. apply Hb. exact Hab.
  - econstructor; eauto.
    + rewrite Hsame; eassumption.
    + eapply (Forall2_Forall_r _ _ (fun kv => forall v,
                Store.denotes P s v (snd kv) -> Store.denotes P s' v (snd kv)));
        [exact IH | eassumption |].
      intros v0 j0 Hb [Hk Hab]. split; [exact Hk | apply Hb; exact Hab].
Qed.

(** ** Effects *)

Lemma eff_refl W s : Store.eff W s s.
Proof. split; [lia | auto]. Qed.

Lemma eff_trans W s1 s2 s3 :
  Store.eff W s1 s2 -> Store.eff W s2 s3 -> Store.eff W s1 s3.
Proof.
  intros [L1 H1] [L2 H2]. split; [lia|].
  intros x Hx HW. rewrite H2; [apply H1; assumption | lia | exact HW].
Qed.

Lemma eff_incl W W' s s' :
  incl W W' -> Store.eff W s s' -> Store.eff W' s s'.
Proof.
  intros Hi [L H]. split; [exact L|].
  intros x Hx HW. apply H; [exact Hx|]. intros Hin. apply HW, Hi, Hin.
Qed.

Lemma eff_alloc W s o : Store.eff W s (s ++ [o])%list.
Proof.
  split; [rewrite length_app; simpl; lia|].
  intros x Hx _. apply nth_error_app1. exact Hx.
Qed.

(** What was done to a list made in the meantime is no change to the
    objects there were before. *)
Lemma eff_scope W b s0 s1 s2 :
  Store.eff W s0 s1 -> (List.length s0 <= b)%nat ->
  Store.eff (b :: W) s1 s2 -> Store.eff W s0 s2.
Proof.
  intros [L1 H1] Hb [L2 H2]. split; [lia|].
  intros x Hx HW. rewrite H2; [apply H1; assumption | lia |].
  intros [Hxb | Hin]; [lia | contradiction].
Qed.

Lemma nth_error_replace {A : Type} (x : A) : forall l a y,
  nth_error (Store.replace a x l) y =
  if (y =? a)%nat then match nth_error l a with Some _ => Some x | None => None end
  else nth_error l y.
Proof.
  induction l as [|z l IH]; intros a y.
  - simpl. destruct (y =? a)%nat; destruct a, y; reflexivity.
  - destruct a as [|a], y as [|y]; simpl; try reflexivity. apply IH.
Qed.

Lemma length_replace {A : Type} (x : A) : forall l a,
  List.length (Store.replace a x l) = List.length l.
Proof.
  induction l as [|z l IH]; intros [|a]; simpl; try reflexivity.
  rewrite IH. reflexivity.
Qed.

Lemma eff_replace W a o s : In a W -> Store.eff W s (Store.replace a o s).
Proof.
  intros Hin. split; [rewrite length_replace; lia|].
  intros x Hx HW. rewrite nth_error_replace.
  destruct (Nat.eqb_spec x a) as [->|Hne]; [contradiction | reflexivity].
Qed.

(** ** Documents and effects *)

Lemma den_step E W s s' v J :
  Store.den W s v J -> Store.eff E s s' -> incl E W -> Store.den W s' v J.
Proof.
  unfold Store.den. intros H [L HE] Hi.
  apply (denotes_weaken (Store.fp W (List.length s))).
  - intros x [Hx HW]. split; [lia | exact HW].
  - apply (denotes_transport _ s); [|exact H].
    intros x [Hx HW]. apply HE; [exact Hx|]. intros Hin. apply HW, Hi, Hin.
Qed.

Lemma den_step0 W s s' v J :
  Store.den W s v J -> Store.eff [] s s' -> Store.den W s' v J.
Proof. intros H HE. apply (den_step [] W s s' v J H HE). apply incl_nil_l. Qed.

(** A list made after a document does not belong to it. *)
Lemma den_fresh W s o v J :
  Store.den W s v J -> Store.den (List.length s :: W) (s ++ [o])%list v J.
Proof.
  unfold Store.den. intros H.
  apply (denotes_weaken (Store.fp W (List.length s))).
  - intros x [Hx HW]. split; [rewrite length_app; simpl; lia|].
    intros [Hxb | Hin]; [lia | contradiction].
  - apply (denotes_transport _ s); [|exact H].
    intros x [Hx HW]. apply nth_error_app1. exact Hx.
Qed.

Lemma den_drop W W' s v J :
  incl W' W -> Store.den W s v J -> Store.den W' s v J.
Proof.
  unfold Store.den. intros Hi. apply denotes_weaken.
  intros x [Hx HW]. split; [exact Hx|]. intros Hin. apply HW, Hi, Hin.
Qed.

(** ** Statements *)

Lemma wf_eff E W s s' :
  (forall w, In w W -> (w < List.length s)%nat) -> Store.eff E s s' ->
  forall w, In w W -> (w < List.length s')%nat.
Proof. intros H [L _] w Hw. specialize (H w Hw). lia. Qed.

Lemma refines_ret {A B : Type} E W s (a : A) (b : B) R :
  R s a b -> Store.refines E W s (Store.ret a) (Ok b) R.
Proof.
  intros H _. exists (Store.Val a), s. split; [reflexivity|].
  split; [apply eff_refl|]. eauto.
Qed.

Lemma refines_raise {A B : Type} E W s e (R : Store.store -> A -> B -> Prop) :
  Store.refines E W s (Store.raise e) (Raise e) R.
Proof.
  intros _. exists (Store.Exc e), s. split; [reflexivity|].
  split; [apply eff_refl|]. reflexivity.
Qed.

Lemma refines_read {A B : Type} E W s (f : Store.store -> A) (b : B) R :
  R s (f s) b -> Store.refines E W s (Store.read f) (Ok b) R.
Proof.
  intros H _. exists (Store.Val (f s)), s. split; [reflexivity|].
  split; [apply eff_refl|]. eauto.
Qed.

Lemma refines_alloc {B : Type} E W s o (b : B) R :
  ((forall w, In w W -> (w < List.length s)%nat) ->
   R (s ++ [o])%list (Store.PRef (List.length s)) b) ->
  Store.refines E W s (Store.alloc o) (Ok b) R.
Proof.
  intros H Hw. exists (Store.Val (Store.PRef (List.length s))), (s ++ [o])%list.
  split; [reflexivity|]. split; [apply eff_alloc|]. eauto.
Qed.

Lemma refines_append {B : Type} E W s a v items (b : B) R :
  In a E -> nth_error s a = Some (Store.OList items) ->
  R (Store.replace a (Store.OList (items ++ [v])%list) s) tt b ->
  Store.refines E W s (Store.append (Store.PRef a) v) (Ok b) R.
Proof.
  intros Hin Ha H _. unfold Store.append. rewrite Ha.
  eexists. eexists. split; [reflexivity|]. split; [apply eff_replace; exact Hin|].
  eauto.
Qed.

(** A statement after another; the first one changes the lists of [E1]
    only. *)
Lemma refines_bind {A B A' B' : Type} E1 E W s (c : Store.M A) (r : result B)
  (k : A -> Store.M A') (K : B -> result B') R1 R2 :
  incl E1 E ->
  Store.refines E1 W s c r R1 ->
  (forall s' a b, Store.eff E1 s s' -> R1 s' a b ->
                  Store.refines E W s' (k a) (K b) R2) ->
  Store.refines E W s (Store.bind c k) (bind r K) R2.
Proof.
  intros Hi Hc Hk Hw. destruct (Hc Hw) as (o & s1 & Ec & E1' & Ho).
  unfold Store.bind. rewrite Ec. destruct r as [b|e].
  - destruct Ho as (a & -> & HR).
    destruct (Hk s1 a b E1' HR (wf_eff _ _ _ _ Hw E1')) as (o2 & s2 & Ek & E2 & Ho2).
    exists o2, s2. split; [exact Ek|].
    split; [eapply eff_trans; [eapply eff_incl; eassumption | exact E2]|].
    exact Ho2.
  - subst o. exists (Store.Exc e), s1. split; [reflexivity|].
    split; [eapply eff_incl; eassumption | reflexivity].
Qed.

(** A statement of the script for which the first model has a value at
    hand. *)
Lemma refines_bind_let {A B A' B' : Type} E1 E W s (c : Store.M A) (b : B)
  (k : A -> Store.M A') (r : result B') R1 R2 :
  incl E1 E ->
  Store.refines E1 W s c (Ok b) R1 ->
  (forall s' a, Store.eff E1 s s' -> R1 s' a b ->
                Store.refines E W s' (k a) r R2) ->
  Store.refines E W s (Store.bind c k) r R2.
Proof.
  intros Hi Hc Hk Hw. destruct (Hc Hw) as (o & s1 & Ec & E1' & (a & -> & HR)).
  destruct (Hk s1 a E1' HR (wf_eff _ _ _ _ Hw E1')) as (o2 & s2 & Ek & E2 & Ho2).
  exists o2, s2. unfold Store.bind. rewrite Ec. split; [exact Ek|].
  split; [eapply eff_trans; [eapply eff_incl; eassumption | exact E2] | exact Ho2].
Qed.

(** A statement followed by [return]. *)
Lemma refines_then_ret {A B A' : Type} E1 E W s (c : Store.M A) (r : result B)
  (f : A -> A') (R1 : Store.store -> A -> B -> Prop)
  (R2 : Store.store -> A' -> B -> Prop) :
  incl E1 E ->
  Store.refines E1 W s c r R1 ->
  (forall s' a b, Store.eff E1 s s' -> R1 s' a b -> R2 s' (f a) b) ->
  Store.refines E W s (Store.bind c (fun a => Store.ret (f a))) r R2.
Proof.
  intros Hi Hc HR Hw. destruct (Hc Hw) as (o & s1 & Ec & E1' & Ho).
  unfold Store.bind. rewrite Ec. destruct r as [b|e].
  - destruct Ho as (a & -> & H). exists (Store.Val (f a)), s1.
    split; [reflexivity|]. split; [eapply eff_incl; eassumption|]. eauto.
  - subst o. exists (Store.Exc e), s1. split; [reflexivity|].
    split; [eapply eff_incl; eassumption | reflexivity].
Qed.

Lemma refines_conseq {A B : Type} E W s (c : Store.M A) (r : result B)
  (R R' : Store.store -> A -> B -> Prop) :
  Store.refines E W s c r R ->
  (forall s' a b, Store.eff E s s' -> R s' a b -> R' s' a b) ->
  Store.refines E W s c r R'.
Proof.
  intros Hc HR Hw. destruct (Hc Hw) as (o & s1 & Ec & E1 & Ho).
  exists o, s1. split; [exact Ec|]. split; [exact E1|].
  destruct r as [b|e]; [|exact Ho].
  destruct Ho as (a & -> & H). exists a. split; [reflexivity|]. eauto.
Qed.

Lemma refines_eff_incl {A B : Type} E E' W s (c : Store.M A) (r : result B) R :
  incl E E' -> Store.refines E W s c r R -> Store.refines E' W s c r R.
Proof.
  intros Hi Hc Hw. destruct (Hc Hw) as (o & s1 & Ec & E1 & Ho).
  exists o, s1. split; [exact Ec|]. split; [eapply eff_incl; eassumption | exact Ho].
Qed.

(** Statements of the second model run one by one. *)
Lemma refines_bind_read {A A' B : Type} E W s (f : Store.store -> A)
  (k : A -> Store.M A') (r : result B) R :
  Store.refines E W s (k (f s)) r R ->
  Store.refines E W s (Store.bind (Store.read f) k) r R.
Proof. intros H. exact H. Qed.

Lemma refines_bind_ret {A A' B : Type} E W s (a : A)
  (k : A -> Store.M A') (r : result B) R :
  Store.refines E W s (k a) r R ->
  Store.refines E W s (Store.bind (Store.ret a) k) r R.
Proof. intros H. exact H. Qed.

Lemma refines_bind_alloc {A' B : Type} E W s o
  (k : Store.pyval -> Store.M A') (r : result B) R :
  Store.refines E W (s ++ [o])%list (k (Store.PRef (List.length s))) r R ->
  Store.refines E W s (Store.bind (Store.alloc o) k) r R.
Proof.
  intros H Hw.
  destruct (H (wf_eff E _ _ _ Hw (eff_alloc E s o))) as (o2 & s2 & Ek & E2 & Ho2).
  exists o2, s2. split; [exact Ek|].
  split; [eapply eff_trans; [apply eff_alloc | exact E2] | exact Ho2].
Qed.

Lemma refines_assoc {A A' A'' B : Type} E W s (c : Store.M A)
  (k1 : A -> Store.M A') (k2 : A' -> Store.M A'') (r : result B) R :
  Store.refines E W s (Store.bind c (fun x => Store.bind (k1 x) k2)) r R ->
  Store.refines E W s (Store.bind (Store.bind c k1) k2) r R.
Proof.
  intros H Hw. destruct (H Hw) as (o & s' & Ec & He & Ho).
  exists o, s'. split; [|split; assumption].
  rewrite <- Ec. unfold Store.bind. destruct (c s) as [[a| |] s1]; reflexivity.
Qed.

(** ** Expressions on documents *)

Lemma truthy_den W s v J :
  Store.den W s v J -> Store.truthy s v = truthy J.
Proof.
  intros H. inversion H; subst; simpl; try reflexivity.
  - rewrite H1. inversion H2; reflexivity.
  - rewrite H1. inversion H2; reflexivity.
Qed.

Lemma is_none_den W s v J :
  Store.den W s v J -> Store.is_none v = is_none J.
Proof. intros H. inversion H; reflexivity. Qed.

Lemma isinstance_dict_den W s v J :
  Store.den W s v J -> Store.isinstance_dict s v = isinstance_dict J.
Proof.
  intros H. inversion H; subst; unfold Store.isinstance_dict; simpl;
    try reflexivity; rewrite H1; reflexivity.
Qed.

Lemma isinstance_list_den W s v J :
  Store.den W s v J ->
  Store.isinstance_list s v = match J with JList _ => true | _ => false end.
Proof.
  intros H. inversion H; subst; unfold Store.isinstance_list; simpl;
    try reflexivity; rewrite H1; reflexivity.
Qed.

Lemma lookup_den (P : Store.addr -> Prop) s k : forall items d,
  Forall2 (fun kv kj => fst kv = fst kj /\ Store.denotes P s (snd kv) (snd kj))
    items d ->
  match lookup k d with
  | Some X => exists x, Store.lookup k items = Some x /\ Store.denotes P s x X
  | None => Store.lookup k items = None
  end.
Proof.
  induction 1 as [|[k1 v1] [k2 j2] items d [Hk Hv] _ IH]; [reflexivity|].
  simpl in Hk, Hv. subst k2. simpl.
  destruct (String.eqb k k1); [eauto | exact IH].
Qed.

Lemma items_of_den s a items :
  nth_error s a = Some (Store.ODict items) ->
  Store.items_of s (Store.PRef a) = items.
Proof. intros H. unfold Store.items_of. simpl. rewrite H. reflexivity. Qed.

Lemma den_obj_inv W s v d :
  Store.den W s v (JObj d) ->
  exists a items,
    v = Store.PRef a /\ Store.fp W (List.length s) a /\
    nth_error s a = Some (Store.ODict items) /\
    Forall2 (fun kv kj => fst kv = fst kj /\ Store.den W s (snd kv) (snd kj))
      items d.
Proof. intros H. inversion H; subst. eauto 6. Qed.

Lemma den_list_inv W s v l :
  Store.den W s v (JList l) ->
  exists a vs,
    v = Store.PRef a /\ Store.fp W (List.length s) a /\
    nth_error s a = Some (Store.OList vs) /\
    Forall2 (Store.den W s) vs l.
Proof. intros H. inversion H; subst. eauto 6. Qed.

(** [v.get(k, dflt)] *)
Lemma get_refines W s v J k dflt (Rd : result json) :
  Store.den W s v J ->
  Store.refines [] W s dflt Rd (Store.den W) ->
  Store.refines [] W s (Store.get v k dflt)
    (match J with
     | JObj _ => D <- Rd ;; py_get J k D
     | _ => Raise AttributeError
     end) (Store.den W).
Proof.
  intros Hv Hd. unfold Store.get. apply refines_bind_read.
  rewrite (isinstance_dict_den _ _ _ _ Hv).
  destruct J; cbn [isinstance_dict]; try apply refines_raise.
  eapply (refines_bind []); [apply incl_refl | exact Hd |].
  intros s1 x D E1 HD. cbn [py_get]. apply refines_read.
  apply (den_step0 _ _ _ _ _ Hv) in E1.
  destruct (den_obj_inv _ _ _ _ E1) as (a & its & -> & _ & Ha & Hits).
  rewrite (items_of_den _ _ _ Ha).
  pose proof (lookup_den _ s1 k _ _ Hits) as Hl.
  destruct (lookup k items) as [X|].
  - destruct Hl as (x0 & -> & Hx). exact Hx.
  - rewrite Hl. exact HD.
Qed.

Lemma get_none_refines W s v J k :
  Store.den W s v J ->
  Store.refines [] W s (Store.get v k (Store.ret Store.PNone)) (py_get J k JNull)
    (Store.den W).
Proof.
  intros Hv.
  assert (E : py_get J k JNull =
              match J with
              | JObj _ => D <- Ok JNull ;; py_get J k D
              | _ => Raise AttributeError
              end) by (destruct J; reflexivity).
  rewrite E. apply get_refines; [exact Hv|].
  apply refines_ret. constructor.
Qed.

Lemma den_empty_dict W s :
  (forall w, In w W -> (w < List.length s)%nat) ->
  Store.den W (s ++ [Store.ODict []])%list (Store.PRef (List.length s)) (JObj []).
Proof.
  intros Hw. econstructor.
  - split; [rewrite length_app; simpl; lia|]. intros Hin. specialize (Hw _ Hin). lia.
  - rewrite nth_error_app2, Nat.sub_diag; [reflexivity | lia].
  - constructor.
Qed.

Lemma den_empty_list W s :
  (forall w, In w W -> (w < List.length s)%nat) ->
  Store.den W (s ++ [Store.OList []])%list (Store.PRef (List.length s)) (JList []).
Proof.
  intros Hw. econstructor.
  - split; [rewrite length_app; simpl; lia|]. intros Hin. specialize (Hw _ Hin). lia.
  - rewrite nth_error_app2, Nat.sub_diag; [reflexivity | lia].
  - constructor.
Qed.

Lemma get_dict_refines W s v J k :
  Store.den W s v J ->
  Store.refines [] W s (Store.get v k (Store.alloc (Store.ODict [])))
    (py_get J k (JObj [])) (Store.den W).
Proof.
  intros Hv.
  assert (E : py_get J k (JObj []) =
              match J with
              | JObj _ => D <- Ok (JObj []) ;; py_get J k D
              | _ => Raise AttributeError
              end) by (destruct J; reflexivity).
  rewrite E. apply get_refines; [exact Hv|].
  apply refines_alloc. apply den_empty_dict.
Qed.

Lemma get_list_refines W s v J k :
  Store.den W s v J ->
  Store.refines [] W s (Store.get v k (Store.alloc (Store.OList [])))
    (py_get J k (JList [])) (Store.den W).
Proof.
  intros Hv.
  assert (E : py_get J k (JList []) =
              match J with
              | JObj _ => D <- Ok (JList []) ;; py_get J k D
              | _ => Raise AttributeError
              end) by (destruct J; reflexivity).
  rewrite E. apply get_refines; [exact Hv|].
  apply refines_alloc. apply den_empty_list.
Qed.

(** [a or b] *)
Lemma or_else_refines W s a A b (rb : result json) :
  Store.den W s a A ->
  Store.refines [] W s b rb (Store.den W) ->
  Store.refines [] W s (Store.or_else a b) (if truthy A then Ok A else rb)
    (Store.den W).
Proof.
  intros Ha Hb. unfold Store.or_else. apply refines_bind_read.
  rewrite (truthy_den _ _ _ _ Ha). destruct (truthy A).
  - apply refines_ret. exact Ha.
  - exact Hb.
Qed.

Lemma or_dict_refines W s a A :
  Store.den W s a A ->
  Store.refines [] W s (Store.or_else a (Store.alloc (Store.ODict [])))
    (Ok (py_or A (JObj []))) (Store.den W).
Proof.
  intros Ha.
  assert (E : Ok (py_or A (JObj [])) = if truthy A then Ok A else Ok (JObj []))
    by (unfold py_or; destruct (truthy A); reflexivity).
  rewrite E. apply or_else_refines; [exact Ha|].
  apply refines_alloc. apply den_empty_dict.
Qed.

Lemma or_ret_refines W s a A d D :
  Store.den W s a A -> Store.den W s d D ->
  Store.refines [] W s (Store.or_else a (Store.ret d))
    (Ok (py_or A D)) (Store.den W).
Proof.
  intros Ha Hd.
  assert (E : Ok (py_or A D) = if truthy A then Ok A else Ok D)
    by (unfold py_or; destruct (truthy A); reflexivity).
  rewrite E. apply or_else_refines; [exact Ha|].
  apply refines_ret. exact Hd.
Qed.

(** An expression that reads the store and leaves it as it is. *)
Lemma refines_pure {A B : Type} E W s (c : Store.M A) (r : result B) o R :
  c s = (o, s) ->
  match r with
  | Ok b => exists a, o = Store.Val a /\ R s a b
  | Raise e => o = Store.Exc e
  end ->
  Store.refines E W s c r R.
Proof.
  intros Ec Ho _. exists o, s. split; [exact Ec|]. split; [apply eff_refl | exact Ho].
Qed.

Lemma chars_den W s x : Forall2 (Store.den W s) (Store.chars x) (chars x).
Proof.
  induction x as [|c x IH]; simpl; constructor; [constructor | exact IH].
Qed.

Lemma keys_den W s : forall items d,
  Forall2 (fun kv kj => fst kv = fst kj /\ Store.den W s (snd kv) (snd kj))
    items d ->
  Forall2 (Store.den W s) (map (fun kv => Store.PStr (fst kv)) items)
    (map (fun kv => JStr (fst kv)) d).
Proof.
  induction 1 as [|[k1 v1] [k2 j2] items d [Hk _] _ IH]; simpl; [constructor|].
  simpl in Hk. subst. constructor; [constructor | exact IH].
Qed.

(** The items a loop draws *)
Lemma iter_refines W s v J :
  Store.den W s v J ->
  Store.refines [] W s (Store.iter v) (py_iter J)
    (fun s' l L => Forall2 (Store.den W s') l L).
Proof.
  intros Hv. destruct J.
  1-4: inversion Hv; subst; eapply refines_pure; [reflexivity|]; simpl;
    try reflexivity.
  - eexists. split; [reflexivity|]. apply chars_den.
  - destruct (den_list_inv _ _ _ _ Hv) as (a & vs & -> & _ & Ha & Hvs).
    eapply refines_pure; [unfold Store.iter; rewrite Ha; reflexivity|].
    simpl. eauto.
  - destruct (den_obj_inv _ _ _ _ Hv) as (a & its & -> & _ & Ha & Hits).
    eapply refines_pure; [unfold Store.iter; rewrite Ha; reflexivity|].
    simpl. eexists. split; [reflexivity|]. apply keys_den. exact Hits.
Qed.

Lemma index_0_cons {A : Type} (x : A) l : Store.index (x :: l) 0 = Store.Val x.
Proof.
  unfold Store.index. cbn [List.length Z.ltb Z.compare].
  assert (H : (0 <=? 0) && (0 <? Z.of_nat (S (List.length l))) = true).
  { apply andb_true_iff. split; [reflexivity|]. apply Z.ltb_lt. lia. }
  rewrite H. reflexivity.
Qed.

Lemma index_0_nil {A : Type} : Store.index (@nil A) 0 = Store.Exc IndexError.
Proof. reflexivity. Qed.

(** [v[0]] *)
Lemma getitem0_refines W s v J :
  Store.den W s v J ->
  Store.refines [] W s (Store.getitem v (Store.PInt 0)) (py_index0 J) (Store.den W).
Proof.
  intros Hv. destruct J.
  1-3: inversion Hv; subst; eapply refines_pure; reflexivity.
  - inversion Hv; subst. destruct s0 as [|c x].
    + eapply refines_pure; reflexivity.
    + eapply refines_pure; [unfold Store.getitem; cbn [Store.as_index Store.chars];
                            rewrite index_0_cons; reflexivity|].
      simpl. eexists. split; [reflexivity|]. constructor.
  - destruct (den_list_inv _ _ _ _ Hv) as (a & vs & -> & _ & Ha & Hvs).
    inversion Hvs; subst.
    + eapply refines_pure; [unfold Store.getitem; rewrite Ha; reflexivity|].
      reflexivity.
    + eapply refines_pure; [unfold Store.getitem; rewrite Ha;
                            cbn [Store.as_index]; rewrite index_0_cons;
                            reflexivity|].
      simpl. eauto.
  - destruct (den_obj_inv _ _ _ _ Hv) as (a & its & -> & _ & Ha & Hits).
    eapply refines_pure; [unfold Store.getitem; rewrite Ha; reflexivity|].
    reflexivity.
Qed.

(** [v[k]] for a string [k] *)
Lemma getitem_str_refines W s v J k :
  Store.den W s v J ->
  Store.refines [] W s (Store.getitem v (Store.PStr k)) (py_getitem J k)
    (Store.den W).
Proof.
  intros Hv. destruct J.
  1-4: inversion Hv; subst; eapply refines_pure; reflexivity.
  - destruct (den_list_inv _ _ _ _ Hv) as (a & vs & -> & _ & Ha & Hvs).
    eapply refines_pure; [unfold Store.getitem; rewrite Ha; reflexivity|].
    reflexivity.
  - destruct (den_obj_inv _ _ _ _ Hv) as (a & its & -> & _ & Ha & Hits).
    pose proof (lookup_den _ s k _ _ Hits) as Hl.
    eapply refines_pure; [unfold Store.getitem; rewrite Ha; reflexivity|].
    simpl. destruct (lookup k items) as [X|].
    + destruct Hl as (x & -> & Hx). eauto.
    + rewrite Hl. reflexivity.
Qed.

(** [list(v.keys())[0]] for a dict [v] *)
Lemma first_key_refines {A' B' : Type} E W s v d
  (k : Store.pyval -> Store.M A') (r : string -> result B') R :
  Store.den W s v (JObj d) ->
  (forall s' key, Store.eff [] s s' -> first_key (JObj d) = Ok key ->
                  Store.refines E W s' (k (Store.PStr key)) (r key) R) ->
  Store.refines E W s
    (Store.bind (Store.keys v)
       (fun ks => Store.bind (Store.getitem ks (Store.PInt 0)) k))
    (bind (first_key (JObj d)) r) R.
Proof.
  intros Hv Hk. unfold Store.keys. apply refines_assoc, refines_bind_read.
  rewrite (isinstance_dict_den _ _ _ _ Hv). cbn [isinstance_dict].
  apply refines_assoc, refines_bind_read.
  destruct (den_obj_inv _ _ _ _ Hv) as (a & its & -> & _ & Ha & Hits).
  rewrite (items_of_den _ _ _ Ha). apply refines_bind_alloc.
  intros Hw. inversion Hits as [|[k1 v1] [k2 j2] its' d' [Hk12 _] _]; subst.
  - exists (Store.Exc IndexError). eexists. split.
    + unfold Store.bind, Store.getitem.
      rewrite nth_error_app2, Nat.sub_diag by lia. reflexivity.
    + split; [apply eff_refl | reflexivity].
  - simpl in Hk12. subst k2.
    destruct (Hk _ k1 (eff_alloc [] s _) eq_refl Hw) as (o & s2 & Ek & E2 & Ho).
    exists o, s2. split; [|split; assumption].
    unfold Store.bind, Store.getitem.
    rewrite nth_error_app2, Nat.sub_diag by lia.
    cbn [nth_error map fst Store.as_index]. rewrite index_0_cons. exact Ek.
Qed.

Lemma den_new_list W s vs js :
  (forall w, In w W -> (w < List.length s)%nat) ->
  Forall2 (Store.den W s) vs js ->
  Store.den W (s ++ [Store.OList vs])%list (Store.PRef (List.length s)) (JList js).
Proof.
  intros Hw H. econstructor.
  - split; [rewrite length_app; simpl; lia|]. intros Hin. specialize (Hw _ Hin). lia.
  - rewrite nth_error_app2, Nat.sub_diag; [reflexivity | lia].
  - eapply Forall2_impl; [|exact H]. intros v j Hvj.
    apply (den_step0 _ _ _ _ _ Hvj). apply eff_alloc.
Qed.

(** [a + b] *)
Lemma add_refines W s a A b B :
  Store.den W s a A -> Store.den W s b B ->
  Store.refines [] W s (Store.add a b) (py_add A B) (Store.den W).
Proof.
  intros Ha Hb.
  destruct A; destruct B;
    try (inversion Ha; inversion Hb; subst;
         first [ apply refines_raise
               | apply refines_ret; constructor
               | match goal with
                 | H1 : nth_error s ?x = Some _, H2 : nth_error s ?y = Some _ |- _ =>
                     eapply refines_pure;
                     [unfold Store.add, Store.deref; rewrite H1, H2; reflexivity
                     | reflexivity]
                 end ]).
  destruct (den_list_inv _ _ _ _ Ha) as (x & xs & -> & _ & Hx & Hxs).
  destruct (den_list_inv _ _ _ _ Hb) as (y & ys & -> & _ & Hy & Hys).
  intros Hw. eexists. eexists. split.
  - unfold Store.add, Store.deref. rewrite Hx, Hy. reflexivity.
  - split; [apply eff_alloc|]. cbn [py_add]. eexists. split; [reflexivity|].
    apply den_new_list; [exact Hw|]. apply Forall2_app; assumption.
Qed.

Lemma Forall2_firstn {A B : Type} (R : A -> B -> Prop) n : forall l l',
  Forall2 R l l' -> Forall2 R (firstn n l) (firstn n l').
Proof.
  induction n as [|n IH]; intros l l' H; [constructor|].
  destruct H; simpl; constructor; auto.
Qed.

(** [a, b = v[:2]] *)
Lemma unpack2_items {A' B' : Type} E W s l L
  (k : Store.pyval * Store.pyval -> Store.M A') (K : json * json -> result B') R :
  Forall2 (Store.den W s) l L ->
  (forall t1 t2 T1 T2, Store.den W s t1 T1 -> Store.den W s t2 T2 ->
                       Store.refines E W s (k (t1, t2)) (K (T1, T2)) R) ->
  Store.refines E W s
    (Store.bind (match l with
                 | [a; b] => Store.ret (a, b)
                 | _ => Store.raise ValueError
                 end) k)
    (bind (unpack2 L) K) R.
Proof.
  intros Hl Hk.
  destruct Hl as [|v1 j1 l L H1 Hl]; [apply refines_raise|].
  destruct Hl as [|v2 j2 l L H2 Hl]; [apply refines_raise|].
  destruct Hl as [|v3 j3 l L H3 Hl]; [|apply refines_raise].
  apply refines_bind_ret. cbn [unpack2 bind]. apply Hk; assumption.
Qed.

Lemma slice_unpack_refines {A' B' : Type} E W s v J
  (k : Store.pyval * Store.pyval -> Store.M A') (K : json * json -> result B') R :
  Store.den W s v J ->
  (forall s' t1 t2 T1 T2,
      Store.eff [] s s' -> Store.den W s' t1 T1 -> Store.den W s' t2 T2 ->
      Store.refines E W s' (k (t1, t2)) (K (T1, T2)) R) ->
  Store.refines E W s
    (Store.bind (Store.slice2 v) (fun p => Store.bind (Store.unpack2 p) k))
    (bind (py_slice2 J) (fun p => bind (unpack2 p) K)) R.
Proof.
  intros Hv Hk. destruct J.
  1-3: inversion Hv; subst; eapply refines_pure; reflexivity.
  - inversion Hv; subst.
    change (Store.bind (Store.slice2 (Store.PStr s0))
              (fun p => Store.bind (Store.unpack2 p) k))
      with (Store.bind (Store.ret (Store.PStr (prefix 2 s0)))
              (fun p => Store.bind (Store.unpack2 p) k)).
    apply refines_bind_ret. unfold Store.unpack2. apply refines_assoc.
    change (Store.iter (Store.PStr (prefix 2 s0)))
      with (Store.ret (A := list Store.pyval) (Store.chars (prefix 2 s0))).
    apply refines_bind_ret. cbn [py_slice2 bind].
    apply unpack2_items; [apply chars_den|].
    intros t1 t2 T1 T2 H1 H2. apply (Hk s); [apply eff_refl | assumption..].
  - destruct (den_list_inv _ _ _ _ Hv) as (a & vs & -> & _ & Ha & Hvs).
    intros Hw.
    assert (Hf : Forall2 (Store.den W (s ++ [Store.OList (firstn 2 vs)])%list)
                   (firstn 2 vs) (firstn 2 l)).
    { eapply Forall2_impl; [|apply Forall2_firstn; exact Hvs].
      intros x X Hx. apply (den_step0 _ _ _ _ _ Hx). apply eff_alloc. }
    pose proof (unpack2_items E W _ _ _ k K R Hf
                  (fun t1 t2 T1 T2 H1 H2 =>
                     Hk _ t1 t2 T1 T2 (eff_alloc [] s _) H1 H2)
                  (wf_eff E _ _ _ Hw (eff_alloc E s _))) as (o & s2 & Ek & E2 & Ho).
    exists o, s2. split; [|split].
    + unfold Store.bind at 1. unfold Store.slice2. rewrite Ha.
      unfold Store.alloc. unfold Store.unpack2, Store.bind at 1.
      unfold Store.bind at 1. unfold Store.iter.
      rewrite nth_error_app2, Nat.sub_diag by lia. cbn [nth_error].
      exact Ek.
    + eapply eff_trans; [apply eff_alloc | exact E2].
    + exact Ho.
  - destruct (den_obj_inv _ _ _ _ Hv) as (a & its & -> & _ & Ha & Hits).
    eapply refines_pure;
      [unfold Store.bind, Store.slice2; rewrite Ha; reflexivity | reflexivity].
Qed.

(** ** Comparison *)

Lemma py_eq_list_cons x xs y ys :
  py_eq (JList (x :: xs)) (JList (y :: ys)) =
  py_eq x y && py_eq (JList xs) (JList ys).
Proof. reflexivity. Qed.

Lemma py_eq_list_length : forall xs ys,
  List.length xs <> List.length ys -> py_eq (JList xs) (JList ys) = false.
Proof.
  induction xs as [|x xs IH]; intros [|y ys] H; try reflexivity.
  - contradiction.
  - rewrite py_eq_list_cons, IH; [apply andb_false_r|]. simpl in H. lia.
Qed.

Lemma py_eq_obj dx dy :
  py_eq (JObj dx) (JObj dy) =
  (List.length dx =? List.length dy)%nat && items_in dx dy.
Proof.
  cbn [py_eq]. f_equal. induction dx as [|[k v] dx IH]; [reflexivity|].
  cbn [items_in]. destruct (lookup k dy); [|reflexivity].
  rewrite IH. reflexivity.
Qed.

Lemma json_depth_cons_list x l n :
  (json_depth (JList (x :: l)) < S n)%nat ->
  (json_depth x < n)%nat /\ (json_depth (JList l) < S n)%nat.
Proof. cbn [json_depth fold_right]. lia. Qed.

Lemma json_depth_cons_obj k x d n :
  (json_depth (JObj ((k, x) :: d)) < S n)%nat ->
  (json_depth x < n)%nat /\ (json_depth (JObj d) < S n)%nat.
Proof. cbn [json_depth fold_right snd]. lia. Qed.

Lemma all2_den W s n : forall vs l,
  Forall2 (Store.den W s) vs l ->
  Forall (fun A => forall depth a b B,
            Store.den W s a A -> Store.den W s b B ->
            (json_depth A < depth)%nat ->
            Store.eq depth s a b = Store.Val (py_eq A B)) l ->
  (json_depth (JList l) < S n)%nat ->
  forall ws l',
    Forall2 (Store.den W s) ws l' ->
    List.length vs = List.length ws ->
    Store.all2 (Store.eq n s) vs ws = Store.Val (py_eq (JList l) (JList l')).
Proof.
  induction 1 as [|v j vs l Hv Hvs IHl]; intros IH Hd ws l' Hws Hlen.
  - destruct Hws; [reflexivity | discriminate].
  - destruct Hws as [|w j' ws l' Hw Hws]; [discriminate|].
    inversion IH as [|? ? IHj IHrest]; subst.
    apply json_depth_cons_list in Hd. destruct Hd as [Hdj Hdl].
    cbn [Store.all2]. rewrite (IHj n v w j' Hv Hw Hdj), py_eq_list_cons.
    destruct (py_eq j j'); [|reflexivity].
    cbn [andb]. apply IHl; try assumption. simpl in Hlen. lia.
Qed.

Lemma sub_items_den W s n ws dy :
  Forall2 (fun kv kj => fst kv = fst kj /\ Store.den W s (snd kv) (snd kj))
    ws dy ->
  forall vs dx,
    Forall2 (fun kv kj => fst kv = fst kj /\ Store.den W s (snd kv) (snd kj))
      vs dx ->
    Forall (fun kv => forall depth a b B,
              Store.den W s a (snd kv) -> Store.den W s b B ->
              (json_depth (snd kv) < depth)%nat ->
              Store.eq depth s a b = Store.Val (py_eq (snd kv) B)) dx ->
    (json_depth (JObj dx) < S n)%nat ->
    Store.sub_items (Store.eq n s) vs ws = Store.Val (items_in dx dy).
Proof.
  intros Hws.
  induction 1 as [|[k v] [k' j] vs dx [Hk Hv] Hvs IHd]; intros IH Hd;
    [reflexivity|].
  simpl in Hk, Hv. subst k'.
  inversion IH as [|? ? IHj IHrest]; subst.
  apply json_depth_cons_obj in Hd. destruct Hd as [Hdj Hdd].
  cbn [Store.sub_items items_in].
  pose proof (lookup_den _ s k _ _ Hws) as Hl.
  destruct (lookup k dy) as [X|].
  - destruct Hl as (x & -> & Hx). simpl in IHj.
    rewrite (IHj n v x X Hv Hx Hdj).
    destruct (py_eq j X); [|reflexivity]. cbn [andb]. apply IHd; assumption.
  - rewrite Hl. reflexivity.
Qed.

Lemma Forall2_length_eq {A B : Type} (R : A -> B -> Prop) l l' :
  Forall2 R l l' -> List.length l = List.length l'.
Proof. induction 1; simpl; congruence. Qed.

(** [a == b] on two documents no deeper than the limit allows. *)
Lemma eq_den W s : forall A depth a b B,
  Store.den W s a A -> Store.den W s b B ->
  (json_depth A < depth)%nat ->
  Store.eq depth s a b = Store.Val (py_eq A B).
Proof.
  induction A as [ | x | x | x | l IH | d IH] using json_ind';
    intros [|n] a b B Ha Hb Hd; try lia.
  1-4: inversion Ha; subst; inversion Hb; subst; reflexivity.
  - destruct (den_list_inv _ _ _ _ Ha) as (x & xs & -> & _ & Hx & Hxs).
    destruct B;
      try (inversion Hb; subst; cbn [Store.eq]; try rewrite Hx;
           try match goal with H : nth_error s _ = Some _ |- _ => rewrite H end;
           reflexivity).
    destruct (den_list_inv _ _ _ _ Hb) as (y & ys & -> & _ & Hy & Hys).
    cbn [Store.eq]. rewrite Hx, Hy.
    destruct (Nat.eqb_spec (List.length xs) (List.length ys)) as [E|E].
    + apply (all2_den W s n xs l Hxs IH Hd ys l0 Hys E).
    + rewrite py_eq_list_length; [reflexivity|].
      rewrite <- (Forall2_length_eq _ _ _ Hxs), <- (Forall2_length_eq _ _ _ Hys).
      exact E.
  - destruct (den_obj_inv _ _ _ _ Ha) as (x & xs & -> & _ & Hx & Hxs).
    destruct B;
      try (inversion Hb; subst; cbn [Store.eq]; try rewrite Hx;
           try match goal with H : nth_error s _ = Some _ |- _ => rewrite H end;
           reflexivity).
    destruct (den_obj_inv _ _ _ _ Hb) as (y & ys & -> & _ & Hy & Hys).
    cbn [Store.eq]. rewrite Hx, Hy, py_eq_obj.
    rewrite <- (Forall2_length_eq _ _ _ Hxs), <- (Forall2_length_eq _ _ _ Hys).
    destruct (List.length xs =? List.length ys)%nat; [|reflexivity].
    cbn [andb]. apply (sub_items_den W s n ys items Hys xs d Hxs IH Hd).
Qed.

(** ** Helpers of the script *)

Section HelpersRefine.

Variable fromisoformat : string -> option date.

Lemma normalize_date_refines W s v J :
  Store.den W s v J ->
  Store.refines [] W s (Store.normalize_date fromisoformat v)
    (Ok (normalize_date fromisoformat J)) (Store.den W).
Proof.
  intros Hv. unfold Store.normalize_date.
  rewrite (is_none_den _ _ _ _ Hv).
  destruct J; cbn [is_none]; [apply refines_ret; constructor|..];
    apply refines_bind_read; rewrite (isinstance_list_den _ _ _ _ Hv).
  1-3: apply refines_bind_ret; inversion Hv; subst; cbn [normalize_date is_none];
    try (apply refines_ret; constructor);
    destruct (fromisoformat s0); apply refines_ret; constructor.
  - apply refines_assoc, refines_bind_read. rewrite (truthy_den _ _ _ _ Hv).
    destruct l as [|X l]; cbn [truthy].
    + apply refines_bind_ret. apply refines_ret. constructor.
    + eapply (refines_bind_let []); [apply incl_nil_l | apply (getitem0_refines _ _ _ _ Hv)|].
      intros s1 x E1 Hx. cbn [normalize_date is_none].
      destruct X; inversion Hx; subst; try (apply refines_ret; constructor).
      destruct (fromisoformat s0); apply refines_ret; constructor.
  - apply refines_bind_ret.
    destruct (den_obj_inv _ _ _ _ Hv) as (a & its & -> & _).
    apply refines_ret. constructor.
Qed.

End HelpersRefine.

Lemma extract_country_refines W s v J :
  Store.den W s v J ->
  Store.refines [] W s (Store.extract_country_from_venue v)
    (extract_country_from_venue J) (Store.den W).
Proof.
  intros Hv. unfold Store.extract_country_from_venue, extract_country_from_venue.
  eapply (refines_bind []); [apply incl_nil_l | apply get_none_refines; exact Hv|].
  intros s1 c C E1 Hc. apply or_ret_refines; [exact Hc | constructor].
Qed.

Lemma extras_type_of_refines W s v J :
  Store.den W s v J ->
  Store.refines [] W s (Store.extras_type_of v) (extras_type_of J) (Store.den W).
Proof.
  intros Hv. unfold Store.extras_type_of, extras_type_of.
  apply refines_bind_read. rewrite (truthy_den _ _ _ _ Hv).
  destruct (truthy J) eqn:Ht; [|apply refines_ret; constructor].
  apply refines_bind_read. rewrite (isinstance_dict_den _ _ _ _ Hv).
  destruct J; cbn [isinstance_dict]; try apply refines_raise.
  destruct (den_obj_inv _ _ _ _ Hv) as (a & its & -> & _ & Ha & Hits).
  destruct Hits as [|[k1 v1] [k2 j2] its d [Hk _] _];
    apply refines_read; rewrite (items_of_den _ _ _ Ha); [constructor|].
  simpl in Hk. subst. constructor.
Qed.

Lemma wicket_of_refines W s v J :
  Store.den W s v J ->
  Store.refines [] W s (Store.wicket_of v) (wicket_of J)
    (fun s' x X => fst (fst x) = fst (fst X) /\
                   Store.den W s' (snd (fst x)) (snd (fst X)) /\
                   Store.den W s' (snd x) (snd X)).
Proof.
  intros Hv. unfold Store.wicket_of, wicket_of.
  apply refines_bind_read. rewrite (isinstance_list_den _ _ _ _ Hv).
  apply refines_bind_read. rewrite (truthy_den _ _ _ _ Hv).
  destruct J; cbn [andb truthy];
    try (apply refines_ret; repeat split; constructor).
  destruct l as [|wk l]; [apply refines_ret; repeat split; constructor|].
  eapply (refines_bind_let []); [apply incl_nil_l | apply (getitem0_refines _ _ _ _ Hv)|].
  intros s1 x E1 Hx. cbv beta.
  eapply (refines_bind []); [apply incl_nil_l | apply get_none_refines; exact Hx|].
  intros s2 kd KD E2 Hkd.
  eapply (refines_bind []); [apply incl_nil_l | apply get_none_refines; exact (den_step0 _ _ _ _ _ Hx E2)|].
  intros s3 po PO E3 Hpo. apply refines_ret. cbn [fst snd].
  repeat split; [exact (den_step0 _ _ _ _ _ Hkd E3) | exact Hpo].
Qed.

Lemma truediv_refines W s v J d :
  Store.den W s v J ->
  Store.refines [] W s (Store.truediv v d) (py_truediv J d)
    (fun _ x f => x = Store.PFloat f).
Proof.
  intros Hv. unfold Store.truediv, py_truediv, to_float.
  destruct J; inversion Hv; subst; cbn [Store.as_num as_int];
    try apply refines_raise;
    cbn [Store.float_of_num];
    match goal with
    | |- context [float_of_int ?z] => destruct (float_of_int z) as [f|e]
    end; cbn [Store.lift bind];
    first [ apply refines_bind_ret; apply refines_ret; reflexivity
          | apply refines_raise
          | eapply refines_pure; reflexivity ].
Qed.

Lemma add_float_refines W s v J q :
  Store.den W s v J ->
  Store.refines [] W s (Store.add v (Store.PFloat q)) (py_add_float J q)
    (fun _ x f => x = Store.PFloat f).
Proof.
  intros Hv. unfold py_add_float, to_float.
  destruct J; inversion Hv; subst;
    cbn [Store.add Store.num_add Store.as_num as_int];
    try apply refines_raise;
    cbn [Store.float_of_num];
    match goal with
    | |- context [float_of_int ?z] => destruct (float_of_int z) as [f|e]
    end; cbn [Store.lift bind];
    first [ apply refines_bind_ret; apply refines_bind_ret;
            apply refines_ret; reflexivity
          | apply refines_raise
          | eapply refines_pure; reflexivity ].
Qed.

Lemma overs_float_of_refines W s lo LO lb LB :
  Store.den W s lo LO -> Store.den W s lb LB ->
  Store.refines [] W s (Store.overs_float_of lo lb) (overs_float_of LO LB)
    (fun _ x o => x = match o with
                      | Some f => Store.PFloat f
                      | None => Store.PNone
                      end).
Proof.
  intros Hlo Hlb. unfold Store.overs_float_of, overs_float_of.
  rewrite (is_none_den _ _ _ _ Hlo), (is_none_den _ _ _ _ Hlb).
  destruct (negb (is_none LO) && negb (is_none LB));
    [|apply refines_ret; reflexivity].
  unfold overs_expr.
  eapply (refines_bind_let []);
    [apply incl_nil_l | apply (or_ret_refines W s lo LO (Store.PInt 0) (JInt 0) Hlo); constructor|].
  intros s1 lo' E1 Hlo'. cbv beta.
  eapply (refines_bind_let []);
    [apply incl_nil_l | apply (or_ret_refines W s1 lb LB (Store.PInt 0) (JInt 0)
              (den_step0 _ _ _ _ _ Hlb E1)); constructor|].
  intros s2 lb' E2 Hlb'. cbv beta.
  change (f <- (q <- py_truediv (py_or LB (JInt 0)) 6 ;;
                py_add_float (py_or LO (JInt 0)) q) ;; Ok (Some f))
    with (bind (bind (py_truediv (py_or LB (JInt 0)) 6)
                  (fun q => py_add_float (py_or LO (JInt 0)) q))
            (fun f => Ok (Some f))).
  destruct (py_truediv (py_or LB (JInt 0)) 6) as [q|e] eqn:Eq.
  - eapply (refines_bind_let []); [apply incl_nil_l | |].
    { pose proof (truediv_refines W s2 lb' _ 6%float Hlb') as H.
      rewrite Eq in H. exact H. }
    intros s3 qv E3 ->. cbn [bind]. intros Hw.
    destruct (add_float_refines W s3 lo' _ q
                (den_step0 _ _ _ _ _ (den_step0 _ _ _ _ _ Hlo' E2) E3) Hw)
      as (o & s4 & Ea & E4 & Ho).
    exists o, s4. split; [exact Ea|]. split; [exact E4|].
    destruct (py_add_float (py_or LO (JInt 0)) q) as [f|e]; cbn [bind];
      [|exact Ho].
    destruct Ho as (a & -> & ->). eauto.
  - cbn [bind]. intros Hw.
    destruct (truediv_refines W s2 lb' _ 6%float Hlb' Hw) as (o & s3 & Et & E3 & Ho).
    rewrite Eq in Ho. subst o. exists (Store.Exc e), s3.
    split; [|split; [exact E3 | reflexivity]].
    unfold Store.bind. rewrite Et. reflexivity.
Qed.

(** ** What stays where it is *)

Lemma moves_step E W s s' :
  Store.eff E s s' -> incl E W -> Store.moves W s W s'.
Proof.
  intros [L HE] Hi x [Hx HW]. split; [split; [lia | exact HW]|].
  apply HE; [exact Hx|]. intros Hin. apply HW, Hi, Hin.
Qed.

Lemma moves_fresh W s o :
  Store.moves W s (List.length s :: W) (s ++ [o])%list.
Proof.
  intros x [Hx HW]. split.
  - split; [rewrite length_app; simpl; lia|].
    intros [Hb | Hin]; [lia | contradiction].
  - apply nth_error_app1. exact Hx.
Qed.

Lemma moves_drop W W' s :
  incl W' W -> Store.moves W s W' s.
Proof.
  intros Hi x [Hx HW]. split; [|reflexivity].
  split; [exact Hx|]. intros Hin. apply HW, Hi, Hin.
Qed.

Lemma moves_trans W1 s1 W2 s2 W3 s3 :
  Store.moves W1 s1 W2 s2 -> Store.moves W2 s2 W3 s3 -> Store.moves W1 s1 W3 s3.
Proof.
  intros H12 H23 x Hx. destruct (H12 x Hx) as [Hx2 E2].
  destruct (H23 x Hx2) as [Hx3 E3]. split; [exact Hx3 | congruence].
Qed.

Lemma den_move W s W' s' v J :
  Store.moves W s W' s' -> Store.den W s v J -> Store.den W' s' v J.
Proof.
  unfold Store.den. intros Hm H.
  apply (denotes_weaken (Store.fp W (List.length s))).
  - intros x Hx. apply (Hm x Hx).
  - apply (denotes_transport _ s); [|exact H].
    intros x Hx. apply (Hm x Hx).
Qed.

Lemma is_delivery_move W s W' s' v d :
  Store.moves W s W' s' -> Store.is_delivery W s v d ->
  Store.is_delivery W' s' v d.
Proof.
  intros Hm (vo & vb & ve & -> & Ho & Hb & He).
  exists vo, vb, ve. repeat split; eapply den_move; eassumption.
Qed.

Lemma deliveries_at_move W s W' s' b ds :
  Store.moves W s W' s' -> nth_error s' b = nth_error s b ->
  Store.deliveries_at W s b ds -> Store.deliveries_at W' s' b ds.
Proof.
  intros Hm Hb (vs & Hvs & Hall). exists vs. split; [congruence|].
  eapply Forall2_impl; [|exact Hall].
  intros v d. apply is_delivery_move. exact Hm.
Qed.

Lemma is_norm_inning_move W s W' s' v inn :
  Store.moves W s W' s' -> Store.is_norm_inning W s v inn ->
  Store.is_norm_inning W' s' v inn.
Proof.
  intros Hm (c & b & vt & -> & Hc & Hb & Hd & Ht & Hds).
  destruct (Hm c Hc) as [Hc' Ec]. destruct (Hm b Hb) as [Hb' Eb].
  exists c, b, vt. repeat split; try assumption.
  - apply Hc'.
  - apply Hc'.
  - apply Hb'.
  - apply Hb'.
  - congruence.
  - eapply den_move; eassumption.
  - eapply deliveries_at_move; eassumption.
Qed.

Lemma innings_at_move W s W' s' a norm :
  Store.moves W s W' s' -> nth_error s' a = nth_error s a ->
  Store.innings_at W s a norm -> Store.innings_at W' s' a norm.
Proof.
  intros Hm Ha (vs & Hvs & Hall). exists vs. split; [congruence|].
  eapply Forall2_impl; [|exact Hall].
  intros v d. apply is_norm_inning_move. exact Hm.
Qed.

(** An object that is not among [E] is not changed. *)
Lemma eff_same E s s' x o :
  Store.eff E s s' -> nth_error s x = Some o -> ~ In x E ->
  nth_error s' x = nth_error s x.
Proof.
  intros [_ HE] Hx Hin. apply HE; [|exact Hin].
  apply nth_error_Some. congruence.
Qed.

(** ** Loops *)

Lemma for_each_refines {S S' A A' : Type} E W
  (body : S -> A -> Store.M S) (Body : S' -> A' -> result S')
  (Inv : Store.store -> S -> S' -> Prop) (Rel : Store.store -> A -> A' -> Prop) :
  (forall s s' x X, Rel s x X -> Store.eff E s s' -> Rel s' x X) ->
  (forall s st St x X, Inv s st St -> Rel s x X ->
                       Store.refines E W s (body st x) (Body St X) Inv) ->
  forall l L s st St,
    Forall2 (Rel s) l L -> Inv s st St ->
    Store.refines E W s (Store.for_each body st l) (for_each Body St L) Inv.
Proof.
  intros Hstable Hbody. induction l as [|x l IH]; intros L s st St Hall HInv.
  - inversion Hall; subst. apply refines_ret. exact HInv.
  - inversion Hall as [|? X ? L' Hx Hall']; subst.
    cbn [Store.for_each for_each].
    eapply (refines_bind E); [apply incl_refl | apply Hbody; eassumption |].
    intros s1 st1 St1 E1 HInv1. apply IH; [|exact HInv1].
    eapply Forall2_impl; [|exact Hall'].
    intros y Y Hy. eapply Hstable; eassumption.
Qed.

Lemma enumerate_rel {A A' : Type} (R : A -> A' -> Prop) : forall l L k,
  Forall2 R l L ->
  Forall2 (fun p P => fst p = fst P /\ R (snd p) (snd P))
    (enumerate k l) (enumerate k L).
Proof.
  intros l L k H. revert k. induction H as [|x X l L Hx _ IH]; intros k.
  - constructor.
  - cbn [enumerate]. constructor; [split; [reflexivity | exact Hx] | apply IH].
Qed.

(** ** The inning normalizers *)

Lemma deliveries_at_append W s b acc t d :
  (b < List.length s)%nat -> In b W ->
  Store.deliveries_at W s b acc -> Store.is_delivery W s t d ->
  forall vs, nth_error s b = Some (Store.OList vs) ->
  Store.deliveries_at W (Store.replace b (Store.OList (vs ++ [t])%list) s) b
    (acc ++ [d])%list.
Proof.
  intros Hlt Hin (vs' & Hvs' & Hall) Ht vs Hvs.
  assert (vs' = vs) by congruence. subst vs'.
  assert (Hm : Store.moves W s W
                 (Store.replace b (Store.OList (vs ++ [t])%list) s)).
  { apply (moves_step [b]); [apply eff_replace; left; reflexivity|].
    intros x [<-|[]]. exact Hin. }
  exists (vs ++ [t])%list. split.
  - rewrite nth_error_replace, Nat.eqb_refl, Hvs. reflexivity.
  - apply Forall2_app.
    + eapply Forall2_impl; [|exact Hall]. intros v0 d0. apply is_delivery_move.
      exact Hm.
    + constructor; [|constructor]. eapply is_delivery_move; eassumption.
Qed.

Lemma parse_v2_delivery_refines W s b over_num O acc p P :
  In b W ->
  Store.deliveries_at W s b acc -> Store.den W s over_num O ->
  fst p = fst P -> Store.den W s (snd p) (snd P) ->
  Store.refines [b] W s
    (Store.parse_v2_delivery (Store.PRef b) over_num tt p)
    (parse_v2_delivery O acc P)
    (fun s' _ acc' => Store.deliveries_at W s' b acc').
Proof.
  intros Hin Hacc Ho Hfst Hev. destruct p as [i ev], P as [i' EV].
  simpl in Hfst, Hev. subst i'. cbn [Store.parse_v2_delivery parse_v2_delivery].
  destruct Hacc as (vs & Hvs & Hall).
  eapply refines_append; [left; reflexivity | exact Hvs |].
  apply deliveries_at_append; try assumption.
  - apply nth_error_Some. congruence.
  - exists vs. split; assumption.
  - exists over_num, (Store.PInt i), ev. repeat split; try assumption. constructor.
Qed.

Lemma parse_v2_over_refines W s b acc blk BLK :
  In b W ->
  Store.deliveries_at W s b acc -> Store.den W s blk BLK ->
  Store.refines [b] W s
    (Store.parse_v2_over (Store.PRef b) tt blk)
    (parse_v2_over acc BLK)
    (fun s' _ acc' => Store.deliveries_at W s' b acc').
Proof.
  intros Hin Hacc Hblk. unfold Store.parse_v2_over, parse_v2_over.
  eapply (refines_bind []); [apply incl_nil_l | apply get_none_refines; exact Hblk|].
  intros s1 o O E1 Ho.
  eapply (refines_bind []);
    [apply incl_nil_l
    | apply get_list_refines; exact (den_step0 _ _ _ _ _ Hblk E1)|].
  intros s2 evs EVS E2 Hevs.
  eapply (refines_bind []); [apply incl_nil_l | apply iter_refines; exact Hevs|].
  intros s3 l L E3 Hl.
  assert (E13 : Store.eff [] s s3)
    by (eapply eff_trans; [eapply eff_trans|]; eassumption).
  eapply refines_conseq.
  - apply (for_each_refines [b] W _ _
             (fun t (_ : unit) acc' =>
                Store.deliveries_at W t b acc' /\ Store.den W t o O)
             (fun t (p : Z * Store.pyval) (P : Z * json) =>
                fst p = fst P /\ Store.den W t (snd p) (snd P))).
    + intros t t' x X [Hf Hd] HE. split; [exact Hf|].
      apply (den_step [b] _ _ _ _ _ Hd HE). intros y [<-|[]]. exact Hin.
    + intros t [] St x X [Hacc' Ho'] [Hf Hd].
      eapply refines_conseq;
        [apply parse_v2_delivery_refines; eassumption|].
      intros t' [] acc2 HE Hacc2. split; [exact Hacc2|].
      apply (den_step [b] _ _ _ _ _ Ho' HE). intros y [<-|[]]. exact Hin.
    + apply enumerate_rel. exact Hl.
    + split.
      * destruct Hacc as (vs & Hvs & Hall).
        eapply deliveries_at_move;
          [apply (moves_step []); [exact E13 | apply incl_nil_l]
          | | exists vs; split; eassumption].
        eapply eff_same; [exact E13 | exact Hvs | intros []].
      * apply (den_step0 _ _ _ _ _ (den_step0 _ _ _ _ _ Ho E2) E3).
  - intros t [] acc' _ [H _]. exact H.
Qed.

Lemma refines_wf {A B : Type} E W s (c : Store.M A) (r : result B) R :
  ((forall w, In w W -> (w < List.length s)%nat) -> Store.refines E W s c r R) ->
  Store.refines E W s c r R.
Proof. intros H Hw. exact (H Hw Hw). Qed.

(** A list the function makes and appends to: seen from before, the appends
    change nothing. *)
Lemma refines_alloc_scope {A' B : Type} E W s o
  (k : Store.pyval -> Store.M A') (r : result B) R :
  Store.refines (List.length s :: E) (List.length s :: W) (s ++ [o])%list
    (k (Store.PRef (List.length s))) r R ->
  Store.refines E W s (Store.bind (Store.alloc o) k) r R.
Proof.
  intros H Hw.
  assert (Hw' : forall w, In w (List.length s :: W) ->
                          (w < List.length (s ++ [o]))%nat).
  { intros w [<-|Hin]; rewrite length_app; simpl; [lia|].
    specialize (Hw w Hin). lia. }
  destruct (H Hw') as (o2 & s2 & Ek & E2 & Ho2).
  exists o2, s2. split; [exact Ek|]. split; [|exact Ho2].
  eapply eff_scope; [apply eff_alloc | apply Nat.le_refl | exact E2].
Qed.

Lemma nth_error_last {A : Type} (l : list A) x :
  nth_error (l ++ [x]) (List.length l) = Some x.
Proof. rewrite nth_error_app2, Nat.sub_diag; [reflexivity | lia]. Qed.

(** The dict of an inning, appended to the list of the innings. *)
Lemma innings_at_append W s0 s a b norm idx vt T ds vs :
  (forall w, In w W -> (w < List.length s0)%nat) ->
  In a W ->
  Store.innings_at W s0 a norm ->
  Store.eff [] s0 s ->
  (List.length s0 <= b < List.length s)%nat ->
  nth_error s a = Some (Store.OList vs) ->
  Store.den W s vt T ->
  Store.deliveries_at (b :: W) s b ds ->
  let d := Store.ODict [("inning_number", Store.PInt idx); ("team", vt);
                        ("deliveries", Store.PRef b)] in
  Store.innings_at W
    (Store.replace a
       (Store.OList (vs ++ [Store.PRef (List.length s)])%list)
       (s ++ [d])%list) a
    (norm ++ [{| inning_number := idx; team := T; deliveries := ds |}])%list.
Proof.
  intros Hw Hin (vs0 & Hvs0 & Hall) E0 Hb Hvs Ht Hds d.
  set (s5 := (s ++ [d])%list).
  set (s6 := Store.replace a (Store.OList (vs ++ [Store.PRef (List.length s)])%list) s5).
  assert (Ha : (a < List.length s0)%nat) by (apply Hw; exact Hin).
  assert (Hvs_eq : vs0 = vs).
  { assert (H := eff_same _ _ _ _ _ E0 Hvs0 (fun x => x)). congruence. }
  subst vs0.
  assert (E56 : Store.eff [a] s5 s6) by (apply eff_replace; left; reflexivity).
  assert (E06 : Store.eff [a] s0 s6).
  { eapply eff_trans; [|exact E56].
    eapply eff_trans; [eapply eff_incl; [apply incl_nil_l | exact E0]|].
    apply eff_alloc. }
  assert (Hia : incl [a] W) by (intros x [<-|[]]; exact Hin).
  assert (Hlen6 : List.length s6 = S (List.length s)).
  { unfold s6, s5. rewrite length_replace, length_app. simpl. lia. }
  assert (Hfresh : forall x, (List.length s0 <= x < S (List.length s))%nat ->
                             Store.fp W (List.length s6) x).
  { intros x Hx. split; [lia|]. intros Hx'. specialize (Hw x Hx'). lia. }
  exists (vs ++ [Store.PRef (List.length s)])%list. split.
  - unfold s6. rewrite nth_error_replace, Nat.eqb_refl.
    unfold s5. rewrite nth_error_app1 by (apply nth_error_Some; congruence).
    rewrite Hvs. reflexivity.
  - apply Forall2_app.
    + eapply Forall2_impl; [|exact Hall]. intros v0 i0.
      apply is_norm_inning_move. apply (moves_step [a]); assumption.
    + constructor; [|constructor].
      assert (E46 : Store.eff [a] s s6)
        by (eapply eff_trans; [apply eff_alloc | exact E56]).
      exists (List.length s), b, vt. cbn [inning_number team deliveries].
      repeat match goal with |- _ /\ _ => split end.
      * reflexivity.
      * apply Hfresh. destruct E0 as [L0 _]. lia.
      * apply Hfresh. lia.
      * unfold s6. rewrite nth_error_replace.
        destruct (Nat.eqb_spec (List.length s) a) as [Heq|_].
        { destruct E0 as [L0 _]. lia. }
        unfold s5. apply nth_error_last.
      * apply (den_step [a] _ _ _ _ _ Ht E46 Hia).
      * eapply deliveries_at_move; [| |exact Hds].
        { eapply moves_trans; [apply (moves_step [a] (b :: W) s s6 E46)|].
          - intros x [<-|[]]. right. exact Hin.
          - apply moves_drop. intros x Hx. right. exact Hx. }
        { destruct Hds as (vd & Hvd & _).
          eapply eff_same; [exact E46 | exact Hvd |].
          intros [Hab|[]]. lia. }
Qed.

Lemma incl_cons_self {A : Type} (b : A) l : incl l (b :: l).
Proof. intros x Hx. right. exact Hx. Qed.

Lemma parse_v2_inning_refines W s a norm p P :
  In a W ->
  Store.innings_at W s a norm ->
  fst p = fst P -> Store.den W s (snd p) (snd P) ->
  Store.refines [a] W s
    (Store.parse_v2_inning (Store.PRef a) tt p)
    (parse_v2_inning norm P)
    (fun s' _ norm' => Store.innings_at W s' a norm').
Proof.
  intros Hin Hnorm Hfst Hinn. destruct p as [idx inn], P as [idx' INN].
  simpl in Hfst, Hinn. subst idx'. apply refines_wf. intros Hw.
  unfold Store.parse_v2_inning, parse_v2_inning.
  eapply (refines_bind []); [apply incl_nil_l | apply get_none_refines; exact Hinn|].
  intros s1 vt T E1 Ht.
  apply refines_alloc_scope.
  set (b := List.length s1). set (s1' := (s1 ++ [Store.OList []])%list).
  assert (Hm1 : Store.moves W s1 (b :: W) s1') by apply moves_fresh.
  assert (Hinn1 : Store.den (b :: W) s1' inn INN).
  { apply (den_move _ _ _ _ _ _ Hm1). exact (den_step0 _ _ _ _ _ Hinn E1). }
  assert (Hacc0 : Store.deliveries_at (b :: W) s1' b []).
  { exists []. split; [apply nth_error_last | constructor]. }
  eapply (refines_bind []);
    [apply incl_nil_l | apply get_list_refines; exact Hinn1|].
  intros s2 ov OV E2 Hov.
  eapply (refines_bind []); [apply incl_nil_l | apply iter_refines; exact Hov|].
  intros s3 l L E3 Hl.
  assert (E13 : Store.eff [] s1' s3) by (eapply eff_trans; eassumption).
  eapply (refines_bind [b]).
  { intros x [<-|[]]. left. reflexivity. }
  { apply (for_each_refines [b] (b :: W) _ _
             (fun t (_ : unit) acc => Store.deliveries_at (b :: W) t b acc)
             (fun t x X => Store.den (b :: W) t x X)).
    - intros t t' x X Hx HE. apply (den_step [b] _ _ _ _ _ Hx HE).
      intros y [<-|[]]. left. reflexivity.
    - intros t [] acc x X Hacc Hx.
      apply parse_v2_over_refines; [left; reflexivity | exact Hacc | exact Hx].
    - exact Hl.
    - destruct Hacc0 as (vs0 & Hvs0 & Hall0).
      eapply deliveries_at_move;
        [apply (moves_step []); [exact E13 | apply incl_nil_l]
        | | exists vs0; split; eassumption].
      eapply eff_same; [exact E13 | exact Hvs0 | intros []]. }
  intros s4 [] ds E4 Hds.
  assert (E14 : Store.eff [] s1 s4).
  { eapply eff_scope; [apply eff_alloc | apply Nat.le_refl |].
    eapply eff_trans; [eapply eff_incl; [apply incl_nil_l | exact E13]|].
    exact E4. }
  assert (E04 : Store.eff [] s s4) by (eapply eff_trans; eassumption).
  destruct Hnorm as (vs & Hvs & Hall).
  assert (Hvs4 : nth_error s4 a = Some (Store.OList vs)).
  { rewrite (eff_same _ _ _ _ _ E04 Hvs (fun x => x)). exact Hvs. }
  apply refines_bind_alloc.
  eapply refines_append; [right; left; reflexivity | |].
  { rewrite nth_error_app1 by (apply nth_error_Some; congruence). exact Hvs4. }
  apply (innings_at_append W s s4 a b norm idx vt T ds vs); try assumption.
  - exists vs. split; assumption.
  - destruct E1 as [L1 _].
    assert (Hb4 : nth_error s4 b <> None)
      by (destruct Hds as (vd & Hvd & _); congruence).
    apply nth_error_Some in Hb4. unfold b. lia.
  - exact (den_step0 _ _ _ _ _ Ht E14).
Qed.

Lemma enumerate_den W s l L k :
  Forall2 (Store.den W s) l L ->
  Forall2 (fun (p : Z * Store.pyval) (P : Z * json) =>
             fst p = fst P /\ Store.den W s (snd p) (snd P))
    (enumerate k l) (enumerate k L).
Proof. apply enumerate_rel. Qed.

(** The loop of a normalizer over the inning list, and its [return]. *)
Lemma normalizer_loop_refines W s v J
  (body : Store.pyval -> unit -> Z * Store.pyval -> Store.M unit)
  (Body : list norm_inning -> Z * json -> result (list norm_inning)) :
  (forall W' t a norm p P,
      In a W' -> Store.innings_at W' t a norm ->
      fst p = fst P -> Store.den W' t (snd p) (snd P) ->
      Store.refines [a] W' t (body (Store.PRef a) tt p) (Body norm P)
        (fun t' _ norm' => Store.innings_at W' t' a norm')) ->
  Store.den W s v J ->
  Store.refines [] W s
    (Store.bind (Store.alloc (Store.OList []))
       (fun norm_innings =>
          Store.bind (Store.iter v)
            (fun items =>
               Store.bind
                 (Store.for_each (body norm_innings) tt (enumerate 1 items))
                 (fun _ => Store.ret norm_innings))))
    (items <- py_iter J ;; for_each Body [] (enumerate 1 items))
    (fun s' x norm =>
       exists a, x = Store.PRef a /\ Store.fp W (List.length s') a /\
                 Store.innings_at W s' a norm).
Proof.
  intros Hbody Hv. apply refines_wf. intros Hw. apply refines_alloc_scope.
  set (a := List.length s). set (s1 := (s ++ [Store.OList []])%list).
  assert (Hv1 : Store.den (a :: W) s1 v J)
    by (apply (den_move _ _ _ _ _ _ (moves_fresh W s _)); exact Hv).
  eapply (refines_bind []); [apply incl_nil_l | apply iter_refines; exact Hv1|].
  intros s2 l L E2 Hl.
  eapply (refines_then_ret [a]); [apply incl_refl | |].
  - apply (for_each_refines [a] (a :: W) _ _
             (fun t (_ : unit) norm => Store.innings_at (a :: W) t a norm)
             (fun t (p : Z * Store.pyval) (P : Z * json) =>
                fst p = fst P /\ Store.den (a :: W) t (snd p) (snd P))).
    + intros t t' x X [Hf Hx] HE. split; [exact Hf|].
      apply (den_step [a] _ _ _ _ _ Hx HE). intros y [<-|[]]. left. reflexivity.
    + intros t [] norm x X Hnorm [Hf Hx].
      apply Hbody; [left; reflexivity | assumption..].
    + apply enumerate_den. exact Hl.
    + exists []. split; [|constructor].
      assert (H0 : nth_error s1 a = Some (Store.OList []))
        by apply nth_error_last.
      rewrite (eff_same _ _ _ _ _ E2 H0 (fun x => x)). exact H0.
  - intros s3 [] norm E3 Hnorm. exists a. split; [reflexivity|].
    assert (Hlen : (List.length s1 <= List.length s3)%nat).
    { destruct E2 as [L2 _], E3 as [L3 _]. lia. }
    unfold s1 in Hlen. rewrite length_app in Hlen. simpl in Hlen.
    split.
    + split; [unfold a; lia|]. intros Hin. specialize (Hw _ Hin). unfold a in Hin.
      lia.
    + eapply innings_at_move; [apply moves_drop, incl_cons_self | reflexivity|].
      exact Hnorm.
Qed.

Lemma parse_v2_innings_refines W s v J :
  Store.den W s v J ->
  Store.refines [] W s (Store.parse_v2_innings v) (parse_v2_innings J)
    (fun s' x norm =>
       exists a, x = Store.PRef a /\ Store.fp W (List.length s') a /\
                 Store.innings_at W s' a norm).
Proof.
  intros Hv. apply (normalizer_loop_refines W s v J Store.parse_v2_inning
                      parse_v2_inning); [|exact Hv].
  intros W' t a norm p P. apply parse_v2_inning_refines.
Qed.

Lemma of_option_int_den W s o :
  Store.den W s (Store.of_option_int o) (of_option_int o).
Proof. destruct o; constructor. Qed.

Lemma parse_v1_entry_refines W s b acc entry ENTRY :
  In b W ->
  Store.deliveries_at W s b acc -> Store.den W s entry ENTRY ->
  Store.refines [b] W s
    (Store.parse_v1_entry (Store.PRef b) tt entry)
    (parse_v1_entry acc ENTRY)
    (fun s' _ acc' => Store.deliveries_at W s' b acc').
Proof.
  intros Hin Hacc He. unfold Store.parse_v1_entry, parse_v1_entry.
  apply refines_bind_read. apply refines_bind_read.
  rewrite (isinstance_dict_den _ _ _ _ He), (truthy_den _ _ _ _ He).
  destruct (negb (isinstance_dict ENTRY) || negb (truthy ENTRY)) eqn:Hg;
    [apply refines_ret; exact Hacc|].
  destruct ENTRY; try discriminate.
  apply first_key_refines; [exact He|].
  intros s1 key E1 Hkey.
  eapply (refines_bind []);
    [apply incl_nil_l
    | apply getitem_str_refines; exact (den_step0 _ _ _ _ _ He E1)|].
  intros s2 ev EV E2 Hev.
  assert (E02 : Store.eff [] s s2) by (eapply eff_trans; eassumption).
  cbn [Store.split_over_ball].
  destruct (split_over_ball key) as [o k].
  destruct Hacc as (vs & Hvs & Hall).
  assert (Hvs2 : nth_error s2 b = Some (Store.OList vs)).
  { rewrite (eff_same _ _ _ _ _ E02 Hvs (fun x => x)). exact Hvs. }
  eapply refines_append; [left; reflexivity | exact Hvs2 |].
  apply deliveries_at_append; try assumption.
  - apply nth_error_Some. congruence.
  - eapply deliveries_at_move;
      [apply (moves_step []); [exact E02 | apply incl_nil_l]
      | | exists vs; split; eassumption].
    congruence.
  - exists (Store.of_option_int o), (Store.of_option_int k), ev.
    repeat split; try apply of_option_int_den. exact Hev.
Qed.

Lemma parse_v1_inning_refines W s a norm p P :
  In a W ->
  Store.innings_at W s a norm ->
  fst p = fst P -> Store.den W s (snd p) (snd P) ->
  Store.refines [a] W s
    (Store.parse_v1_inning (Store.PRef a) tt p)
    (parse_v1_inning norm P)
    (fun s' _ norm' => Store.innings_at W s' a norm').
Proof.
  intros Hin Hnorm Hfst Hinn. destruct p as [idx inn], P as [idx' INN].
  simpl in Hfst, Hinn. subst idx'. apply refines_wf. intros Hw.
  unfold Store.parse_v1_inning, parse_v1_inning.
  apply refines_bind_read. apply refines_bind_read.
  rewrite (isinstance_dict_den _ _ _ _ Hinn), (truthy_den _ _ _ _ Hinn).
  destruct (negb (isinstance_dict INN) || negb (truthy INN)) eqn:Hg;
    [apply refines_ret; exact Hnorm|].
  destruct INN; try discriminate.
  apply first_key_refines; [exact Hinn|].
  intros s0 key E0 Hkey.
  eapply (refines_bind []);
    [apply incl_nil_l
    | apply getitem_str_refines; exact (den_step0 _ _ _ _ _ Hinn E0)|].
  intros s0' data DATA E0' Hdata.
  eapply (refines_bind []);
    [apply incl_nil_l | apply get_none_refines; exact Hdata|].
  intros s1 vt T E1 Ht.
  assert (E01 : Store.eff [] s s1)
    by (eapply eff_trans; [eapply eff_trans|]; eassumption).
  apply refines_alloc_scope.
  set (b := List.length s1). set (s1' := (s1 ++ [Store.OList []])%list).
  assert (Hm1 : Store.moves W s1 (b :: W) s1') by apply moves_fresh.
  assert (Hdata1 : Store.den (b :: W) s1' data DATA).
  { apply (den_move _ _ _ _ _ _ Hm1). exact (den_step0 _ _ _ _ _ Hdata E1). }
  assert (Hacc0 : Store.deliveries_at (b :: W) s1' b []).
  { exists []. split; [apply nth_error_last | constructor]. }
  eapply (refines_bind []);
    [apply incl_nil_l | apply get_list_refines; exact Hdata1|].
  intros s2 ov OV E2 Hov.
  eapply (refines_bind []); [apply incl_nil_l | apply iter_refines; exact Hov|].
  intros s3 l L E3 Hl.
  assert (E13 : Store.eff [] s1' s3) by (eapply eff_trans; eassumption).
  eapply (refines_bind [b]).
  { intros x [<-|[]]. left. reflexivity. }
  { apply (for_each_refines [b] (b :: W) _ _
             (fun t (_ : unit) acc => Store.deliveries_at (b :: W) t b acc)
             (fun t x X => Store.den (b :: W) t x X)).
    - intros t t' x X Hx HE. apply (den_step [b] _ _ _ _ _ Hx HE).
      intros y [<-|[]]. left. reflexivity.
    - intros t [] acc x X Hacc Hx.
      apply parse_v1_entry_refines; [left; reflexivity | exact Hacc | exact Hx].
    - exact Hl.
    - destruct Hacc0 as (vs0 & Hvs0 & Hall0).
      eapply deliveries_at_move;
        [apply (moves_step []); [exact E13 | apply incl_nil_l]
        | | exists vs0; split; eassumption].
      eapply eff_same; [exact E13 | exact Hvs0 | intros []]. }
  intros s4 [] ds E4 Hds.
  assert (E14 : Store.eff [] s1 s4).
  { eapply eff_scope; [apply eff_alloc | apply Nat.le_refl |].
    eapply eff_trans; [eapply eff_incl; [apply incl_nil_l | exact E13]|].
    exact E4. }
  assert (E04 : Store.eff [] s s4) by (eapply eff_trans; eassumption).
  destruct Hnorm as (vs & Hvs & Hall).
  assert (Hvs4 : nth_error s4 a = Some (Store.OList vs)).
  { rewrite (eff_same _ _ _ _ _ E04 Hvs (fun x => x)). exact Hvs. }
  apply refines_bind_alloc.
  eapply refines_append; [right; left; reflexivity | |].
  { rewrite nth_error_app1 by (apply nth_error_Some; congruence). exact Hvs4. }
  apply (innings_at_append W s s4 a b norm idx vt T ds vs); try assumption.
  - exists vs. split; assumption.
  - destruct E01 as [L1 _].
    assert (Hb4 : nth_error s4 b <> None)
      by (destruct Hds as (vd & Hvd & _); congruence).
    apply nth_error_Some in Hb4. unfold b. lia.
  - exact (den_step0 _ _ _ _ _ Ht E14).
Qed.

Lemma parse_v1_innings_refines W s v J :
  Store.den W s v J ->
  Store.refines [] W s (Store.parse_v1_innings v) (parse_v1_innings J)
    (fun s' x norm =>
       exists a, x = Store.PRef a /\ Store.fp W (List.length s') a /\
                 Store.innings_at W s' a norm).
Proof.
  intros Hv. apply (normalizer_loop_refines W s v J Store.parse_v1_inning
                      parse_v1_inning); [|exact Hv].
  intros W' t a norm p P. apply parse_v1_inning_refines.
Qed.

Lemma has_key_den W s a its d k :
  nth_error s a = Some (Store.ODict its) ->
  Forall2 (fun kv kj => fst kv = fst kj /\ Store.den W s (snd kv) (snd kj))
    its d ->
  Store.has_key s (Store.PRef a) k = has_key k d.
Proof.
  intros Ha Hits. unfold Store.has_key, has_key.
  rewrite (items_of_den _ _ _ Ha).
  pose proof (lookup_den _ s k _ _ Hits) as Hl.
  destruct (lookup k d).
  - destruct Hl as (x & -> & _). reflexivity.
  - rewrite Hl. reflexivity.
Qed.

Lemma is_v2_den W s v J :
  Store.den W s v J -> Store.is_v2 s v = is_v2 J.
Proof.
  intros Hv. unfold Store.is_v2. rewrite (isinstance_dict_den _ _ _ _ Hv).
  destruct J; try reflexivity.
  destruct (den_obj_inv _ _ _ _ Hv) as (a & its & -> & _ & Ha & Hits).
  cbn [isinstance_dict andb is_v2].
  rewrite !(has_key_den _ _ _ _ _ _ Ha Hits). reflexivity.
Qed.

Lemma detect_and_parse_innings_refines W s v J :
  Store.den W s v J ->
  Store.refines [] W s (Store.detect_and_parse_innings v)
    (detect_and_parse_innings J)
    (fun s' x norm =>
       exists a, x = Store.PRef a /\ Store.fp W (List.length s') a /\
                 Store.innings_at W s' a norm).
Proof.
  intros Hv. unfold Store.detect_and_parse_innings, detect_and_parse_innings.
  apply refines_bind_read. rewrite (truthy_den _ _ _ _ Hv).
  destruct (negb (truthy J)).
  - apply refines_alloc. intros Hw. exists (List.length s).
    split; [reflexivity|]. split.
    + split; [rewrite length_app; simpl; lia|].
      intros Hin. specialize (Hw _ Hin). lia.
    + exists []. split; [apply nth_error_last | constructor].
  - eapply (refines_bind []);
      [apply incl_nil_l | apply getitem0_refines; exact Hv|].
    intros s1 first FIRST E1 Hfirst. apply refines_bind_read.
    rewrite (is_v2_den _ _ _ _ Hfirst).
    destruct (is_v2 FIRST).
    + apply parse_v2_innings_refines. exact (den_step0 _ _ _ _ _ Hv E1).
    + apply parse_v1_innings_refines. exact (den_step0 _ _ _ _ _ Hv E1).
Qed.

(** ** The event reducer *)

(** Sequencing, where what follows may use that the first part returned. *)
Lemma refines_bind_eq {A B A' B' : Type} E1 E W s (c : Store.M A) (r : result B)
  (k : A -> Store.M A') (K : B -> result B') R1 R2 :
  incl E1 E ->
  Store.refines E1 W s c r R1 ->
  (forall s' a b, r = Ok b -> Store.eff E1 s s' -> R1 s' a b ->
                  Store.refines E W s' (k a) (K b) R2) ->
  Store.refines E W s (Store.bind c k) (bind r K) R2.
Proof.
  intros Hi Hc Hk Hw. destruct (Hc Hw) as (o & s1 & Ec & E1' & Ho).
  unfold Store.bind. rewrite Ec. destruct r as [b|e].
  - destruct Ho as (a & -> & HR).
    destruct (Hk s1 a b eq_refl E1' HR (wf_eff _ _ _ _ Hw E1'))
      as (o2 & s2 & Ek & E2 & Ho2).
    exists o2, s2. split; [exact Ek|].
    split; [eapply eff_trans; [eapply eff_incl; eassumption | exact E2]|].
    exact Ho2.
  - subst o. exists (Store.Exc e), s1. split; [reflexivity|].
    split; [eapply eff_incl; eassumption | reflexivity].
Qed.

Lemma refines_bind_raise {A B A' B' : Type} E1 E W s (c : Store.M A) e
  (k : A -> Store.M A') (R1 : Store.store -> A -> B -> Prop)
  (R2 : Store.store -> A' -> B' -> Prop) :
  incl E1 E ->
  Store.refines E1 W s c (Raise e) R1 ->
  Store.refines E W s (Store.bind c k) (Raise e) R2.
Proof.
  intros Hi Hc Hw. destruct (Hc Hw) as (o & s1 & Ec & E1' & ->).
  unfold Store.bind. rewrite Ec. exists (Store.Exc e), s1.
  split; [reflexivity|]. split; [eapply eff_incl; eassumption | reflexivity].
Qed.

(** A first part that reads the store only. *)
Lemma refines_bind_eval {A A' B : Type} E W s (c : Store.M A) a
  (k : A -> Store.M A') (r : result B) R :
  c s = (Store.Val a, s) ->
  Store.refines E W s (k a) r R ->
  Store.refines E W s (Store.bind c k) r R.
Proof.
  intros Hc Hk Hw. unfold Store.bind. rewrite Hc. exact (Hk Hw).
Qed.

Lemma refines_bind_append {A' B : Type} E W s a v items
  (k : unit -> Store.M A') (r : result B) R :
  In a E -> nth_error s a = Some (Store.OList items) ->
  Store.refines E W (Store.replace a (Store.OList (items ++ [v])%list) s)
    (k tt) r R ->
  Store.refines E W s (Store.bind (Store.append (Store.PRef a) v) k) r R.
Proof.
  intros Hin Hnth Hk Hw.
  assert (HE : Store.eff E s
                 (Store.replace a (Store.OList (items ++ [v])%list) s))
    by (apply eff_replace; exact Hin).
  destruct (Hk (wf_eff _ _ _ _ Hw HE)) as (o2 & s2 & Ek & E2 & Ho2).
  exists o2, s2. split.
  - unfold Store.bind, Store.append. rewrite Hnth. exact Ek.
  - split; [eapply eff_trans; eassumption | exact Ho2].
Qed.

Lemma get_ret_refines W s v J k d D :
  Store.den W s v J -> Store.den W s d D ->
  Store.refines [] W s (Store.get v k (Store.ret d)) (py_get J k D)
    (Store.den W).
Proof.
  intros Hv Hd.
  assert (H := get_refines W s v J k (Store.ret d) (Ok D) Hv
                 (refines_ret _ _ _ _ _ _ Hd)).
  destruct J; exact H.
Qed.

Lemma get_ok_refines W s v d0 k dflt D :
  Store.den W s v (JObj d0) ->
  Store.refines [] W s dflt (Ok D) (Store.den W) ->
  Store.refines [] W s (Store.get v k dflt) (py_get (JObj d0) k D)
    (Store.den W).
Proof.
  intros Hv Hd. exact (get_refines W s v (JObj d0) k dflt (Ok D) Hv Hd).
Qed.

(** What the dict of a normalized inning gives under its three keys. *)
Lemma norm_inning_fields W s v inn :
  Store.is_norm_inning W s v inn ->
  exists b vt vs,
    Store.getitem v (Store.PStr "inning_number") s =
      (Store.Val (Store.PInt (inning_number inn)), s) /\
    Store.getitem v (Store.PStr "deliveries") s =
      (Store.Val (Store.PRef b), s) /\
    Store.get v "team" (Store.ret Store.PNone) s = (Store.Val vt, s) /\
    Store.iter (Store.PRef b) s = (Store.Val vs, s) /\
    Store.den W s vt (team inn) /\
    Forall2 (Store.is_delivery W s) vs (deliveries inn).
Proof.
  intros (c & b & vt & -> & Hc & Hb & Hnth & Hvt & vs & Hvs & Hall).
  exists b, vt, vs.
  unfold Store.getitem, Store.get, Store.iter, Store.bind, Store.read,
    Store.ret, Store.isinstance_dict, Store.items_of, Store.deref.
  rewrite Hnth. cbv beta iota. rewrite Hnth, Hvs.
  repeat split; try reflexivity; assumption.
Qed.

Lemma deliveries_rows_at_move W s W' s' q rows :
  Store.moves W s W' s' -> nth_error s' q = nth_error s q ->
  Store.deliveries_rows_at W s q rows -> Store.deliveries_rows_at W' s' q rows.
Proof.
  intros Hm Hq (vd & Hvd & Hall). exists vd. split; [congruence|].
  eapply Forall2_impl; [|exact Hall].
  intros v r. apply den_move. exact Hm.
Qed.

Lemma deliveries_rows_at_step E W s s' q rows :
  Store.eff E s s' -> incl E W -> ~ In q E ->
  Store.deliveries_rows_at W s q rows -> Store.deliveries_rows_at W s' q rows.
Proof.
  intros HE Hi Hq H. destruct H as (vd & Hvd & Hall).
  eapply deliveries_rows_at_move;
    [eapply moves_step; eassumption | | exists vd; split; eassumption].
  eapply eff_same; eassumption.
Qed.

Lemma is_innings_row_move W s W' s' v r :
  Store.moves W s W' s' -> Store.is_innings_row W s v r ->
  Store.is_innings_row W' s' v r.
Proof.
  intros Hm (c & vm & vbat & vbowl & vruns & -> & Hc & Hnth & H1 & H2 & H3 & H4).
  destruct (Hm c Hc) as [Hc' Hnth'].
  exists c, vm, vbat, vbowl, vruns.
  repeat match goal with |- _ /\ _ => split end;
    try (eapply den_move; eassumption); try assumption; try reflexivity.
  congruence.
Qed.

Lemma innings_rows_at_move W s W' s' p rows :
  Store.moves W s W' s' -> nth_error s' p = nth_error s p ->
  Store.innings_rows_at W s p rows -> Store.innings_rows_at W' s' p rows.
Proof.
  intros Hm Hp (vi & Hvi & Hall). exists vi. split; [congruence|].
  eapply Forall2_impl; [|exact Hall].
  intros v r. apply is_innings_row_move. exact Hm.
Qed.

Lemma innings_rows_at_step E W s s' p rows :
  Store.eff E s s' -> incl E W -> ~ In p E ->
  Store.innings_rows_at W s p rows -> Store.innings_rows_at W s' p rows.
Proof.
  intros HE Hi Hp H. destruct H as (vi & Hvi & Hall).
  eapply innings_rows_at_move;
    [eapply moves_step; eassumption | | exists vi; split; eassumption].
  eapply eff_same; eassumption.
Qed.

Lemma is_norm_inning_step E W s s' v inn :
  Store.eff E s s' -> incl E W ->
  Store.is_norm_inning W s v inn -> Store.is_norm_inning W s' v inn.
Proof.
  intros HE Hi. apply is_norm_inning_move. eapply moves_step; eassumption.
Qed.

Lemma is_delivery_step E W s s' v d :
  Store.eff E s s' -> incl E W ->
  Store.is_delivery W s v d -> Store.is_delivery W s' v d.
Proof.
  intros HE Hi. apply is_delivery_move. eapply moves_step; eassumption.
Qed.

(** What holds in [s] of the values at hand holds in [s'], which [HE]
    reaches from [s] without a change to their objects. *)
Ltac carry HE Hi :=
  match type of HE with
  | Store.eff ?E ?s ?s' =>
      repeat match goal with
        | H : Store.den ?W s ?v ?J |- _ =>
            apply (fun h => den_step E W s s' v J h HE Hi) in H
        | H : Store.is_norm_inning ?W s ?v ?J |- _ =>
            apply (is_norm_inning_step E W s s' v J HE Hi) in H
        end
  end.

Lemma deliveries_rows_at_append W s q rows v r vs :
  In q W ->
  Store.deliveries_rows_at W s q rows ->
  Store.den W s v (Store.delivery_row_json r) ->
  nth_error s q = Some (Store.OList vs) ->
  Store.deliveries_rows_at W
    (Store.replace q (Store.OList (vs ++ [v])%list) s) q (rows ++ [r])%list.
Proof.
  intros Hin (vs' & Hvs' & Hall) Hv Hvs.
  assert (vs' = vs) by congruence. subst vs'.
  assert (HE : Store.eff [q] s (Store.replace q (Store.OList (vs ++ [v])%list) s))
    by (apply eff_replace; left; reflexivity).
  assert (Hi : incl [q] W) by (intros x [<-|[]]; exact Hin).
  exists (vs ++ [v])%list. split.
  - rewrite nth_error_replace, Nat.eqb_refl, Hvs. reflexivity.
  - apply Forall2_app.
    + eapply Forall2_impl; [|exact Hall]. intros v0 r0 H0.
      exact (den_step _ _ _ _ _ _ H0 HE Hi).
    + constructor; [|constructor]. exact (den_step _ _ _ _ _ _ Hv HE Hi).
Qed.

Lemma reduce_delivery_refines W s q vm MID vinn INN vbt BT vbw BW st ST d D :
  In q W ->
  Store.den W s vm MID -> Store.is_norm_inning W s vinn INN ->
  Store.den W s vbt BT -> Store.den W s vbw BW ->
  reducer_rel W s q st ST -> Store.is_delivery W s d D ->
  Store.refines [q] W s
    (Store.reduce_delivery (Store.PRef q) vm vinn vbt vbw st d)
    (reduce_delivery MID INN BT BW ST D)
    (fun s' st' ST' => reducer_rel W s' q st' ST').
Proof.
  intros Hq Hm Hinn Hbt Hbw ((t & Htr & HTR) & Hwk & Hlo & Hlb & Hrows)
    (vo & vb & ve & -> & Hvo & Hvb & Hve).
  destruct D as [[O B] EV]. unfold over_of, ball_of, event_of in *.
  cbn [fst snd] in Hvo, Hvb, Hve.
  assert (Hiq : incl [q] W) by (intros x [<-|[]]; exact Hq).
  assert (Hi0 : incl [] W) by apply incl_nil_l.
  assert (Hlo' : Store.den W s
                   (if negb (Store.is_none vo) then vo else Store.last_over st)
                   (if negb (is_none O) then O else last_over ST)).
  { rewrite (is_none_den _ _ _ _ Hvo). destruct (is_none O); assumption. }
  assert (Hlb' : Store.den W s
                   (if negb (Store.is_none vb) then vb else Store.last_ball st)
                   (if negb (is_none B) then B else last_ball ST)).
  { rewrite (is_none_den _ _ _ _ Hvb). destruct (is_none B); assumption. }
  clear Hlo Hlb.
  unfold Store.reduce_delivery, reduce_delivery.
  apply (refines_bind_eval _ _ _ _ (vo, vb, ve)); [reflexivity|].
  cbv beta iota zeta.
  eapply (refines_bind []); [apply incl_nil_l | apply get_none_refines; exact Hve |].
  intros s1 runs RUNS E1 Hruns. carry E1 Hi0.
  apply (deliveries_rows_at_step _ _ _ _ _ _ E1 Hi0 (fun x => x)) in Hrows.
  eapply (refines_bind_let []);
    [apply incl_nil_l | apply or_dict_refines; exact Hruns |].
  intros s2 runs' E2 Hruns'. carry E2 Hi0.
  apply (deliveries_rows_at_step _ _ _ _ _ _ E2 Hi0 (fun x => x)) in Hrows.
  eapply (refines_bind_eq []);
    [apply incl_nil_l | apply get_ret_refines; [exact Hruns' | constructor] |].
  intros s3 rb RB Hrb_eq E3 Hrb. carry E3 Hi0.
  apply (deliveries_rows_at_step _ _ _ _ _ _ E3 Hi0 (fun x => x)) in Hrows.
  apply py_get_ok in Hrb_eq. destruct Hrb_eq as (dr & Hdr & _).
  rewrite Hdr in *.
  eapply (refines_bind []);
    [apply incl_nil_l | apply get_ret_refines; [exact Hruns' | constructor] |].
  intros s4 rext REXT E4 Hrext. carry E4 Hi0.
  apply (deliveries_rows_at_step _ _ _ _ _ _ E4 Hi0 (fun x => x)) in Hrows.
  assert (Hadd := add_refines W s4 rb RB rext REXT Hrb Hrext).
  destruct (py_add RB REXT) as [rsum|e] eqn:Eadd; cbn [bind].
  2:{ eapply (refines_bind_raise []); [apply incl_nil_l|].
      exact (get_refines W s4 runs' (JObj dr) "total" _ (Raise e) Hruns' Hadd). }
  eapply (refines_bind []);
    [apply incl_nil_l | apply get_ok_refines; [exact Hruns' | exact Hadd] |].
  clear Hadd.
  intros s5 rtot RTOT E5 Hrtot. carry E5 Hi0.
  apply (deliveries_rows_at_step _ _ _ _ _ _ E5 Hi0 (fun x => x)) in Hrows.
  eapply (refines_bind []); [apply incl_nil_l | apply get_none_refines; exact Hve |].
  intros s6 ex EX E6 Hex. carry E6 Hi0.
  apply (deliveries_rows_at_step _ _ _ _ _ _ E6 Hi0 (fun x => x)) in Hrows.
  eapply (refines_bind_let []);
    [apply incl_nil_l | apply or_dict_refines; exact Hex |].
  intros s7 ex' E7 Hex'. carry E7 Hi0.
  apply (deliveries_rows_at_step _ _ _ _ _ _ E7 Hi0 (fun x => x)) in Hrows.
  eapply (refines_bind []);
    [apply incl_nil_l | apply extras_type_of_refines; exact Hex' |].
  intros s8 et ET E8 Het. carry E8 Hi0.
  apply (deliveries_rows_at_step _ _ _ _ _ _ E8 Hi0 (fun x => x)) in Hrows.
  eapply (refines_bind []); [apply incl_nil_l | apply get_none_refines; exact Hve |].
  intros s9 wk WK E9 Hwk'. carry E9 Hi0.
  apply (deliveries_rows_at_step _ _ _ _ _ _ E9 Hi0 (fun x => x)) in Hrows.
  eapply (refines_bind []);
    [apply incl_nil_l
    | apply or_else_refines; [exact Hwk' | apply get_none_refines; exact Hve] |].
  intros s10 wk2 WK2 E10 Hwk2. carry E10 Hi0.
  apply (deliveries_rows_at_step _ _ _ _ _ _ E10 Hi0 (fun x => x)) in Hrows.
  eapply (refines_bind []);
    [apply incl_nil_l | apply wicket_of_refines; exact Hwk2 |].
  intros s11 [[wf wkind] pout] [[WF WKIND] POUT] E11 (Hwf & Hwkind & Hpout).
  cbn [fst snd] in Hwf, Hwkind, Hpout. subst WF. carry E11 Hi0.
  apply (deliveries_rows_at_step _ _ _ _ _ _ E11 Hi0 (fun x => x)) in Hrows.
  destruct (norm_inning_fields _ _ _ _ Hinn) as (b0 & vt0 & vs0 & Hnum & _).
  eapply refines_bind_eval; [exact Hnum|]. clear Hnum b0 vt0 vs0.
  eapply (refines_bind []); [apply incl_nil_l | apply get_none_refines; exact Hve |].
  intros s12 bat BAT E12 Hbat. carry E12 Hi0.
  apply (deliveries_rows_at_step _ _ _ _ _ _ E12 Hi0 (fun x => x)) in Hrows.
  eapply (refines_bind []); [apply incl_nil_l | apply get_none_refines; exact Hve |].
  intros s13 bowl BOWL E13 Hbowl. carry E13 Hi0.
  apply (deliveries_rows_at_step _ _ _ _ _ _ E13 Hi0 (fun x => x)) in Hrows.
  eapply (refines_bind []); [apply incl_nil_l | apply get_none_refines; exact Hve |].
  intros s14 ns NS E14 Hns. carry E14 Hi0.
  apply (deliveries_rows_at_step _ _ _ _ _ _ E14 Hi0 (fun x => x)) in Hrows.
  apply refines_wf. intros Hw. apply refines_bind_alloc.
  match goal with
  | |- Store.refines _ _ (s14 ++ [?o])%list _ _ _ =>
      set (row := o); set (s15 := (s14 ++ [row])%list)
  end.
  assert (E15 : Store.eff [] s14 s15) by apply eff_alloc.
  carry E15 Hi0.
  apply (deliveries_rows_at_step _ _ _ _ _ _ E15 Hi0 (fun x => x)) in Hrows.
  assert (Hrow : Store.den W s15 (Store.PRef (List.length s14))
                   (Store.delivery_row_json
                      {| dr_match_id := MID;
                         dr_inning_number := inning_number INN;
                         dr_overs := O;
                         dr_ball := B;
                         dr_batting_team := BT;
                         dr_bowling_team := BW;
                         dr_batter := BAT;
                         dr_bowler := BOWL;
                         dr_non_striker := NS;
                         dr_runs_batter := RB;
                         dr_runs_extras := REXT;
                         dr_runs_total := RTOT;
                         dr_extras_type := ET;
                         dr_wicket_kind := WKIND;
                         dr_player_out := POUT |})).
  { unfold Store.delivery_row_json. eapply Store.denotes_dict.
    - split; [unfold s15; rewrite length_app; simpl; lia|].
      intros Hin. specialize (Hw _ Hin). lia.
    - unfold s15. apply nth_error_last.
    - unfold row.
      repeat (constructor;
              [split; [reflexivity | cbn [snd]; first [assumption | constructor]]|]).
      constructor. }
  destruct Hrows as (vd & Hvd & Hall).
  eapply refines_bind_append; [left; reflexivity | exact Hvd |].
  match goal with
  | |- Store.refines _ _ ?s' _ _ _ => set (s16 := s')
  end.
  assert (E16 : Store.eff [q] s15 s16) by (apply eff_replace; left; reflexivity).
  assert (Hrows16 := deliveries_rows_at_append W s15 q _ _ _ vd Hq
                       (ex_intro _ vd (conj Hvd Hall)) Hrow Hvd).
  fold s16 in Hrows16. clear Hrow Hall Hvd. carry E16 Hiq.
  rewrite Htr, HTR. unfold Store.iadd. apply refines_assoc. apply refines_bind_read.
  cbn [Store.isinstance_list Store.deref].
  eapply refines_eff_incl; [exact (incl_nil_l [q])|].
  eapply (refines_bind_eq []);
    [apply incl_refl | apply add_refines; [constructor | exact Hrtot] |].
  intros s17 tr TR Heq E17 Htr'. carry E17 Hi0.
  apply (deliveries_rows_at_step _ _ _ _ _ _ E17 Hi0 (fun x => x)) in Hrows16.
  apply py_add_int in Heq. destruct Heq as (z & _ & ->).
  inversion Htr'; subst. apply refines_ret.
  split; [exists (t + z); split; reflexivity|].
  split; [cbn; rewrite Hwk; reflexivity|].
  split; [exact Hlo'|]. split; [exact Hlb'|]. exact Hrows16.
Qed.

(** A loop whose body may use what held when the loop started. *)
Lemma for_each_refines_from {S S' A A' : Type} E W s0
  (body : S -> A -> Store.M S) (Body : S' -> A' -> result S')
  (Inv : Store.store -> S -> S' -> Prop) (Rel : Store.store -> A -> A' -> Prop) :
  (forall s s' x X, Rel s x X -> Store.eff E s s' -> Rel s' x X) ->
  (forall t st St x X, Store.eff E s0 t -> Inv t st St -> Rel t x X ->
                       Store.refines E W t (body st x) (Body St X) Inv) ->
  forall l L t st St,
    Store.eff E s0 t -> Forall2 (Rel t) l L -> Inv t st St ->
    Store.refines E W t (Store.for_each body st l) (for_each Body St L) Inv.
Proof.
  intros Hstable Hbody. induction l as [|x l IH]; intros L t st St Ht Hall HInv.
  - inversion Hall; subst. apply refines_ret. exact HInv.
  - inversion Hall as [|? X ? L' Hx Hall']; subst.
    cbn [Store.for_each for_each].
    eapply (refines_bind E); [apply incl_refl | apply Hbody; eassumption |].
    intros s1 st1 St1 E1 HInv1. apply IH; [| |exact HInv1].
    + eapply eff_trans; eassumption.
    + eapply Forall2_impl; [|exact Hall'].
      intros y Y Hy. eapply Hstable; eassumption.
Qed.

Lemma reduce_inning_refines depth W s p q vm MID vt1 T1 vt2 T2 vinn INN rows :
  In p W -> In q W -> p <> q ->
  Store.den W s vm MID -> Store.den W s vt1 T1 -> Store.den W s vt2 T2 ->
  Store.is_norm_inning W s vinn INN ->
  (json_depth (team INN) < depth)%nat ->
  Store.rows_at W s p q rows ->
  Store.refines [p; q] W s
    (Store.reduce_inning depth (Store.PRef p) (Store.PRef q) vm vt1 vt2 tt vinn)
    (reduce_inning MID T1 T2 rows INN)
    (fun s' _ rows' => Store.rows_at W s' p q rows').
Proof.
  intros Hp Hq Hpq Hm Ht1 Ht2 Hinn Hdepth [Hirows Hdrows].
  destruct rows as [irows drows]. cbn [fst snd] in Hirows, Hdrows.
  assert (Hiq : incl [q] W) by (intros x [<-|[]]; exact Hq).
  assert (Hip : incl [p] W) by (intros x [<-|[]]; exact Hp).
  assert (Hi0 : incl [] W) by apply incl_nil_l.
  assert (Hpq' : ~ In p [q]) by (intros [H|[]]; congruence).
  assert (Hqp' : ~ In q [p]) by (intros [H|[]]; congruence).
  destruct (norm_inning_fields _ _ _ _ Hinn)
    as (b & vt & vs & _ & Hdel & Hteam & Hiter & Hvt & Hvs).
  unfold Store.reduce_inning, reduce_inning. cbn [fst snd].
  eapply refines_bind_eval; [exact Hteam|].
  eapply refines_bind_eval;
    [rewrite (eq_den W s _ depth vt vt1 T1 Hvt Ht1 Hdepth); reflexivity|].
  cbv zeta.
  assert (Hbw : Store.den W s (if py_eq (team INN) T1 then vt2 else vt1)
                  (if py_eq (team INN) T1 then T2 else T1))
    by (destruct (py_eq (team INN) T1); assumption).
  eapply refines_bind_eval; [exact Hdel|].
  eapply refines_bind_eval; [exact Hiter|].
  eapply (refines_bind [q]).
  { intros x [<-|[]]. right. left. reflexivity. }
  { apply (for_each_refines_from [q] W s _ _
             (fun t st ST => reducer_rel W t q st ST)
             (fun t x X => Store.is_delivery W t x X)).
    - intros t t' x X Hx HE. exact (is_delivery_step _ _ _ _ _ _ HE Hiq Hx).
    - intros t st ST x X Et HInv Hx.
      apply reduce_delivery_refines; try assumption.
      + exact (den_step _ _ _ _ _ _ Hm Et Hiq).
      + exact (is_norm_inning_step _ _ _ _ _ _ Et Hiq Hinn).
      + exact (den_step _ _ _ _ _ _ Hvt Et Hiq).
      + exact (den_step _ _ _ _ _ _ Hbw Et Hiq).
    - apply eff_refl.
    - exact Hvs.
    - split; [exists 0; split; reflexivity|].
      split; [reflexivity|].
      split; [constructor|]. split; [constructor|]. exact Hdrows. }
  intros s1 st ST E1 ((t & Htr & HTR) & Hwk & Hlo & Hlb & Hdrows1).
  carry E1 Hiq.
  apply (innings_rows_at_step _ _ _ _ _ _ E1 Hiq Hpq') in Hirows.
  clear Hdrows Hteam Hdel Hiter Hvs.
  eapply (refines_bind []);
    [apply incl_nil_l | apply overs_float_of_refines; eassumption |].
  intros s2 x o E2 ->. carry E2 Hi0.
  apply (innings_rows_at_step _ _ _ _ _ _ E2 Hi0 (fun x => x)) in Hirows.
  apply (deliveries_rows_at_step _ _ _ _ _ _ E2 Hi0 (fun x => x)) in Hdrows1.
  destruct (norm_inning_fields _ _ _ _ Hinn) as (b2 & vt2' & vs2 & Hnum & _).
  eapply refines_bind_eval; [exact Hnum|]. clear Hnum b2 vt2' vs2.
  apply refines_wf. intros Hw. apply refines_bind_alloc.
  match goal with
  | |- Store.refines _ _ (s2 ++ [?o])%list _ _ _ =>
      set (row := o); set (s3 := (s2 ++ [row])%list)
  end.
  assert (E3 : Store.eff [] s2 s3) by apply eff_alloc.
  carry E3 Hi0.
  apply (innings_rows_at_step _ _ _ _ _ _ E3 Hi0 (fun x => x)) in Hirows.
  apply (deliveries_rows_at_step _ _ _ _ _ _ E3 Hi0 (fun x => x)) in Hdrows1.
  destruct Hirows as (vi & Hvi & Halli).
  eapply refines_append; [left; reflexivity | exact Hvi |].
  match goal with
  | |- Store.rows_at _ ?s' _ _ _ => set (s4 := s')
  end.
  assert (E4 : Store.eff [p] s3 s4) by (apply eff_replace; left; reflexivity).
  assert (Hlen4 : List.length s4 = S (List.length s2)).
  { unfold s4, s3. rewrite length_replace, length_app. simpl. lia. }
  assert (Hnew : nth_error s4 (List.length s2) = Some row).
  { unfold s4. rewrite nth_error_replace.
    destruct (Nat.eqb_spec (List.length s2) p) as [Heq|_].
    - specialize (Hw _ Hp). lia.
    - unfold s3. apply nth_error_last. }
  carry E4 Hip.
  split; cbn [fst snd].
  - exists (vi ++ [Store.PRef (List.length s2)])%list. split.
    + unfold s4. rewrite nth_error_replace, Nat.eqb_refl, Hvi. reflexivity.
    + apply Forall2_app.
      * eapply Forall2_impl; [|exact Halli]. intros v0 r0.
        apply is_innings_row_move. apply (moves_step [p]); assumption.
      * constructor; [|constructor].
        exists (List.length s2), vm, vt,
          (if py_eq (team INN) T1 then vt2 else vt1), (Store.total_runs st).
        cbn [ir_match_id ir_inning_number ir_batting_team ir_bowling_team
             ir_runs ir_wickets ir_overs].
        repeat match goal with |- _ /\ _ => split end; try assumption.
        -- reflexivity.
        -- split; [lia|]. intros Hin. specialize (Hw _ Hin). lia.
        -- rewrite Hnew. unfold row. rewrite Hwk. reflexivity.
        -- rewrite Htr, HTR. constructor.
  - exact (deliveries_rows_at_step _ _ _ _ _ _ E4 Hip Hqp' Hdrows1).
Qed.

(** ** The transform *)

(** The team of a normalized inning is a value of the document. *)
Lemma lookup_depth k : forall d x,
  lookup k d = Some x ->
  (json_depth x < json_depth (JObj d))%nat.
Proof.
  induction d as [|[k' v] d IH]; intros x H; [discriminate|].
  cbn [lookup] in H. cbn [json_depth fold_right snd].
  destruct (String.eqb k k').
  - inversion H; subst. lia.
  - specialize (IH x H). cbn [json_depth] in IH. lia.
Qed.

Lemma in_list_depth x l :
  In x l -> (json_depth x < json_depth (JList l))%nat.
Proof.
  induction l as [|y l IH]; intros H; [destruct H|].
  cbn [json_depth fold_right]. destruct H as [->|H]; [lia|].
  specialize (IH H). cbn [json_depth] in IH. lia.
Qed.

Lemma py_get_depth v k x :
  py_get v k JNull = Ok x -> (json_depth x <= json_depth v)%nat.
Proof.
  intros H. apply py_get_ok in H. destruct H as (d & -> & ->).
  destruct (lookup k d) as [y|] eqn:E.
  - apply lookup_depth in E. lia.
  - cbn. lia.
Qed.

Lemma py_getitem_depth v k x :
  py_getitem v k = Ok x -> (json_depth x <= json_depth v)%nat.
Proof.
  destruct v; cbn [py_getitem]; try discriminate.
  destruct (lookup k _) as [y|] eqn:E; [|discriminate].
  intros H. inversion H; subst. apply lookup_depth in E. lia.
Qed.

Lemma chars_depth n : forall x,
  Forall (fun c => (json_depth c <= n)%nat) (chars x).
Proof.
  induction x as [|c x IH]; cbn [chars]; constructor; [cbn; lia | exact IH].
Qed.

Lemma py_iter_depth v l :
  py_iter v = Ok l ->
  Forall (fun x => (json_depth x <= json_depth v)%nat) l.
Proof.
  destruct v; cbn [py_iter]; intros H; try discriminate; inversion H; subst.
  - apply chars_depth.
  - apply Forall_forall. intros x Hx. apply in_list_depth in Hx. lia.
  - apply Forall_forall. intros x Hx. apply in_map_iff in Hx.
    destruct Hx as (kv & <- & _). cbn. lia.
Qed.

Lemma for_each_invariant {S A : Type} (P : S -> Prop) (Q : A -> Prop)
  (body : S -> A -> result S) :
  (forall st x st', P st -> Q x -> body st x = Ok st' -> P st') ->
  forall l st st',
    Forall Q l -> P st -> for_each body st l = Ok st' -> P st'.
Proof.
  intros Hbody. induction l as [|x l IH]; intros st st' Hl Hst H.
  - cbn in H. inversion H; subst. exact Hst.
  - inversion Hl as [|? ? Hx Hl']; subst. cbn [for_each] in H.
    apply bind_ok in H. destruct H as (st1 & Hb1 & Hb2).
    eapply IH; [exact Hl' | | exact Hb2].
    eapply Hbody; eassumption.
Qed.

Lemma enumerate_forall {A : Type} (Q : A -> Prop) (l : list A) : forall k,
  Forall Q l -> Forall (fun p => Q (snd p)) (enumerate k l).
Proof.
  induction l as [|x l IH]; intros k H; cbn [enumerate]; [constructor|].
  inversion H; subst. constructor; [assumption | apply IH; assumption].
Qed.

Lemma teams_within_app n norm idx t ds :
  teams_within n norm -> (json_depth t <= n)%nat ->
  teams_within n
    (norm ++ [{| inning_number := idx; team := t; deliveries := ds |}])%list.
Proof.
  intros H Ht. apply Forall_app. split; [exact H|].
  constructor; [exact Ht | constructor].
Qed.

Lemma parse_v2_inning_teams n norm p norm' :
  teams_within n norm -> (json_depth (snd p) <= n)%nat ->
  parse_v2_inning norm p = Ok norm' -> teams_within n norm'.
Proof.
  intros Hn Hp H. destruct p as [idx inn]. cbn [snd] in Hp.
  unfold parse_v2_inning in H.
  bind_inv H as t Ht. bind_inv H as ov Hov. bind_inv H as ovs Hovs.
  bind_inv H as ds Hds. inversion H; subst.
  apply teams_within_app; [exact Hn|].
  apply py_get_depth in Ht. lia.
Qed.

Lemma parse_v1_inning_teams n norm p norm' :
  teams_within n norm -> (json_depth (snd p) <= n)%nat ->
  parse_v1_inning norm p = Ok norm' -> teams_within n norm'.
Proof.
  intros Hn Hp H. destruct p as [idx inn]. cbn [snd] in Hp.
  unfold parse_v1_inning in H.
  destruct (negb (isinstance_dict inn) || negb (truthy inn)).
  - inversion H; subst. exact Hn.
  - bind_inv H as name Hname. bind_inv H as data Hdata.
    bind_inv H as t Ht. bind_inv H as en Hen. bind_inv H as ens Hens.
    bind_inv H as ds Hds. inversion H; subst.
    apply teams_within_app; [exact Hn|].
    apply py_get_depth in Ht. apply py_getitem_depth in Hdata. lia.
Qed.

Lemma detect_and_parse_innings_teams v norm :
  detect_and_parse_innings v = Ok norm ->
  teams_within (json_depth v) norm.
Proof.
  unfold detect_and_parse_innings. intros H.
  destruct (negb (truthy v)); [inversion H; constructor|].
  bind_inv H as first Hfirst.
  destruct (is_v2 first).
  - unfold parse_v2_innings in H. bind_inv H as items Hitems.
    apply py_iter_depth in Hitems.
    eapply (for_each_invariant (teams_within (json_depth v))
              (fun p => (json_depth (snd p) <= json_depth v)%nat));
      [| | |exact H].
    + intros st x st' Hst Hx Hb. eapply parse_v2_inning_teams; eassumption.
    + apply (enumerate_forall
               (fun x => (json_depth x <= json_depth v)%nat)).
      exact Hitems.
    + constructor.
  - unfold parse_v1_innings in H. bind_inv H as items Hitems.
    apply py_iter_depth in Hitems.
    eapply (for_each_invariant (teams_within (json_depth v))
              (fun p => (json_depth (snd p) <= json_depth v)%nat));
      [| | |exact H].
    + intros st x st' Hst Hx Hb. eapply parse_v1_inning_teams; eassumption.
    + apply (enumerate_forall
               (fun x => (json_depth x <= json_depth v)%nat)).
      exact Hitems.
    + constructor.
Qed.

Lemma innings_src_depth J v :
  py_get J "innings" (JList []) = Ok v ->
  (json_depth v <= json_depth J)%nat.
Proof.
  intros H. apply py_get_ok in H. destruct H as (d & -> & ->).
  destruct (lookup "innings" d) as [y|] eqn:E.
  - apply lookup_depth in E. lia.
  - cbn. lia.
Qed.

Lemma Forall2_and_r {A B : Type} (R : A -> B -> Prop) (P : B -> Prop) l L :
  Forall2 R l L -> Forall P L -> Forall2 (fun x X => R x X /\ P X) l L.
Proof.
  induction 1 as [|x X l L Hx _ IH]; intros HP; [constructor|].
  inversion HP; subst. constructor; [split; assumption | apply IH; assumption].
Qed.

Ltac carry_fresh s o :=
  repeat match goal with
    | H : Store.den ?W s ?v ?J |- _ => apply (den_fresh W s o v J) in H
    end.

Lemma innings_at_fresh W s o a norm :
  (a < List.length s)%nat ->
  Store.innings_at W s a norm ->
  Store.innings_at (List.length s :: W) (s ++ [o])%list a norm.
Proof.
  intros Ha. apply innings_at_move; [apply moves_fresh|].
  apply nth_error_app1. exact Ha.
Qed.

Lemma rows_at_drop W s p q rows :
  Store.rows_at W s p q rows -> Store.rows_at [] s p q rows.
Proof.
  intros [Hi Hd]. split.
  - eapply innings_rows_at_move; [apply moves_drop; apply incl_nil_l | | exact Hi].
    reflexivity.
  - eapply deliveries_rows_at_move;
      [apply moves_drop; apply incl_nil_l | | exact Hd].
    reflexivity.
Qed.

Section TransformRefines.

Variable fromisoformat : string -> option date.
Variable depth : nat.

(** The transform over the store does what the transform over documents
    does, for a document nested less deep than the comparisons may go, and
    it changes no object of the store it is given. *)
Lemma parse_match_json_refines s j J path :
  Store.den [] s j J -> (json_depth J < depth)%nat ->
  Store.refines [] [] s
    (Store.parse_match_json fromisoformat depth j path)
    (parse_match_json fromisoformat J path)
    Store.is_output.
Proof.
  intros Hj Hdepth.
  assert (Hi0 : incl (@nil Store.addr) []) by apply incl_nil_l.
  unfold Store.parse_match_json, parse_match_json.
  eapply (refines_bind []);
    [apply incl_nil_l | apply get_dict_refines; exact Hj |].
  intros s1 info INFO E1 Hinfo. carry E1 Hi0.
  eapply (refines_bind []);
    [apply incl_nil_l | apply get_none_refines; exact Hinfo |].
  intros s2 mt MT E2 Hmt. carry E2 Hi0.
  eapply (refines_bind []);
    [apply incl_nil_l | apply get_none_refines; exact Hinfo |].
  intros s3 mid0 MID0 E3 Hmid0. carry E3 Hi0.
  eapply (refines_bind_let []);
    [apply incl_nil_l
    | apply or_ret_refines; [exact Hmid0 | apply Store.denotes_str] |].
  intros s4 mid E4 Hmid. carry E4 Hi0.
  eapply (refines_bind []);
    [apply incl_nil_l | apply get_list_refines; exact Hinfo |].
  intros s5 teams TEAMS E5 Hteams. carry E5 Hi0.
  apply refines_wf. intros Hw5. apply refines_bind_alloc.
  assert (Hnones : Store.den [] (s5 ++ [Store.OList [Store.PNone; Store.PNone]])%list
                     (Store.PRef (List.length s5)) (JList [JNull; JNull])).
  { apply den_new_list; [exact Hw5|]. repeat constructor. }
  assert (E6 := eff_alloc [] s5 (Store.OList [Store.PNone; Store.PNone])).
  carry E6 Hi0.
  eapply (refines_bind []);
    [apply incl_nil_l | apply add_refines; [exact Hteams | exact Hnones] |].
  intros s7 padded PADDED E7 Hpadded. carry E7 Hi0. clear Hnones.
  eapply slice_unpack_refines; [exact Hpadded|].
  intros s8 t1 t2 T1 T2 E8 Ht1 Ht2. carry E8 Hi0. cbv beta iota.
  eapply (refines_bind []);
    [apply incl_nil_l | apply get_none_refines; exact Hinfo |].
  intros s9 dates DATES E9 Hdates. carry E9 Hi0.
  eapply (refines_bind_let []);
    [apply incl_nil_l | apply normalize_date_refines; exact Hdates |].
  intros s10 md E10 Hmd. carry E10 Hi0.
  eapply (refines_bind []);
    [apply incl_nil_l | apply get_none_refines; exact Hinfo |].
  intros s11 venue VENUE E11 Hvenue. carry E11 Hi0.
  eapply (refines_bind []);
    [apply incl_nil_l | apply get_none_refines; exact Hinfo |].
  intros s12 city CITY E12 Hcity. carry E12 Hi0.
  eapply (refines_bind []);
    [apply incl_nil_l | apply extract_country_refines; exact Hinfo |].
  intros s13 country COUNTRY E13 Hcountry. carry E13 Hi0.
  (* toss winner *)
  eapply (refines_bind []);
    [apply incl_nil_l | apply get_dict_refines; exact Hinfo |].
  intros s14 toss TOSS E14 Htoss. carry E14 Hi0.
  eapply (refines_bind_let []);
    [apply incl_nil_l | apply or_dict_refines; exact Htoss |].
  intros s15 toss' E15 Htoss'. carry E15 Hi0.
  eapply (refines_bind []);
    [apply incl_nil_l | apply get_none_refines; exact Htoss' |].
  intros s16 tw TW E16 Htw. carry E16 Hi0.
  (* toss decision *)
  eapply (refines_bind []);
    [apply incl_nil_l | apply get_dict_refines; exact Hinfo |].
  intros s17 toss2 TOSS2 E17 Htoss2. carry E17 Hi0.
  eapply (refines_bind_let []);
    [apply incl_nil_l | apply or_dict_refines; exact Htoss2 |].
  intros s18 toss2' E18 Htoss2'. carry E18 Hi0.
  eapply (refines_bind []);
    [apply incl_nil_l | apply get_none_refines; exact Htoss2' |].
  intros s19 td TD E19 Htd. carry E19 Hi0.
  (* winner *)
  eapply (refines_bind []);
    [apply incl_nil_l | apply get_dict_refines; exact Hinfo |].
  intros s20 oc OC E20 Hoc. carry E20 Hi0.
  eapply (refines_bind_let []);
    [apply incl_nil_l | apply or_dict_refines; exact Hoc |].
  intros s21 oc' E21 Hoc'. carry E21 Hi0.
  eapply (refines_bind []);
    [apply incl_nil_l | apply get_none_refines; exact Hoc' |].
  intros s22 win WIN E22 Hwin. carry E22 Hi0.
  (* result *)
  eapply (refines_bind []);
    [apply incl_nil_l | apply get_dict_refines; exact Hinfo |].
  intros s23 oc2 OC2 E23 Hoc2. carry E23 Hi0.
  eapply (refines_bind_let []);
    [apply incl_nil_l | apply or_dict_refines; exact Hoc2 |].
  intros s24 oc2' E24 Hoc2'. carry E24 Hi0.
  eapply (refines_bind []);
    [apply incl_nil_l | apply get_none_refines; exact Hoc2' |].
  intros s25 res RES E25 Hres. carry E25 Hi0.
  (* the Match row *)
  apply refines_wf. intros Hw25. apply refines_bind_alloc.
  match goal with
  | |- Store.refines _ _ (s25 ++ [?o])%list _ _ _ =>
      set (mrow := o); set (s26 := (s25 ++ [mrow])%list)
  end.
  assert (E26 : Store.eff [] s25 s26) by apply eff_alloc.
  carry E26 Hi0.
  assert (Hmr : Store.den [] s26 (Store.PRef (List.length s25))
                  (Store.match_row_json
                     {| mr_match_id := py_or MID0
                                         (JStr (splitext_root (basename path)));
                        mr_match_type := MT;
                        mr_match_date := normalize_date fromisoformat DATES;
                        mr_venue := VENUE;
                        mr_city := CITY;
                        mr_country := COUNTRY;
                        mr_team1 := T1;
                        mr_team2 := T2;
                        mr_toss_winner := TW;
                        mr_toss_decision := TD;
                        mr_winner := WIN;
                        mr_result := RES;
                        mr_margin := JNull |})).
  { unfold Store.match_row_json. eapply Store.denotes_dict.
    - split; [unfold s26; rewrite length_app; simpl; lia | intros []].
    - unfold s26. apply nth_error_last.
    - unfold mrow.
      repeat (constructor;
              [split; [reflexivity | cbn [snd]; first [assumption | constructor]]|]).
      constructor. }
  (* the innings *)
  eapply (refines_bind_eq []);
    [apply incl_nil_l | apply get_list_refines; exact Hj |].
  intros s27 src SRC Hsrc_eq E27 Hsrc. carry E27 Hi0.
  eapply (refines_bind_eq []);
    [apply incl_nil_l | apply detect_and_parse_innings_refines; exact Hsrc |].
  intros s28 x norm Hnorm_eq E28 (a & -> & Ha & Hnorm). carry E28 Hi0.
  assert (Hteams_d : Forall (fun inn => (json_depth (team inn) < depth)%nat)
                       norm).
  { apply detect_and_parse_innings_teams in Hnorm_eq.
    apply innings_src_depth in Hsrc_eq.
    eapply Forall_impl; [|exact Hnorm_eq]. cbv beta. intros inn Hinn. lia. }
  destruct Ha as [Ha _].
  (* the two lists of rows *)
  apply refines_alloc_scope.
  carry_fresh s28 (Store.OList []).
  apply (innings_at_fresh _ _ (Store.OList []) _ _ Ha) in Hnorm.
  set (p := List.length s28) in *. set (sp := (s28 ++ [Store.OList []])%list) in *.
  assert (Hap : (a < List.length sp)%nat)
    by (unfold sp; rewrite length_app; simpl; lia).
  apply refines_alloc_scope.
  carry_fresh sp (Store.OList []).
  apply (innings_at_fresh _ _ (Store.OList []) _ _ Hap) in Hnorm.
  set (q := List.length sp) in *. set (sq := (sp ++ [Store.OList []])%list) in *.
  assert (Hpq : p <> q).
  { unfold q, sp, p. rewrite length_app. simpl. lia. }
  assert (Hrows0 : Store.rows_at [q; p] sq p q ([], [])).
  { split; cbn [fst snd]; exists []; (split; [|constructor]).
    - unfold sq. rewrite nth_error_app1
        by (unfold sp, p; rewrite length_app; simpl; lia).
      unfold sp, p. apply nth_error_last.
    - unfold sq, q. apply nth_error_last. }
  destruct Hnorm as (vs & Hvs & Hall).
  eapply refines_bind_eval;
    [unfold Store.iter; rewrite Hvs; reflexivity|].
  eapply (refines_bind [q; p]).
  { apply incl_refl. }
  { apply (for_each_refines_from [q; p] [q; p] sq _ _
             (fun t (_ : unit) rows => Store.rows_at [q; p] t p q rows)
             (fun t x X => Store.is_norm_inning [q; p] t x X /\
                           (json_depth (team X) < depth)%nat)).
    - intros t t' x X [Hx Hd] HE. split; [|exact Hd].
      exact (is_norm_inning_step _ _ _ _ _ _ HE (incl_refl _) Hx).
    - intros t [] rows x X Et HInv [Hx Hd].
      eapply refines_eff_incl;
        [|apply (reduce_inning_refines depth [q; p] t p q
                   mid (py_or MID0 (JStr (splitext_root (basename path))))
                   t1 T1 t2 T2 x X rows)]; try assumption.
      + intros y [<-|[<-|[]]]; [right; left | left]; reflexivity.
      + right. left. reflexivity.
      + left. reflexivity.
      + exact (den_step _ _ _ _ _ _ Hmid Et (incl_refl _)).
      + exact (den_step _ _ _ _ _ _ Ht1 Et (incl_refl _)).
      + exact (den_step _ _ _ _ _ _ Ht2 Et (incl_refl _)).
    - apply eff_refl.
    - apply Forall2_and_r; assumption.
    - exact Hrows0. }
  intros s29 [] [irows drows] E29 Hrows. cbv beta iota.
  apply refines_ret.
  exists (Store.PRef (List.length s25)), p, q.
  split; [reflexivity|]. cbn [fst snd]. split.
  - apply (den_drop [q; p] []); [apply incl_nil_l|].
    exact (den_step _ _ _ _ _ _ Hmr E29 (incl_refl _)).
  - eapply rows_at_drop. exact Hrows.
Qed.

End TransformRefines.

Lemma is_output_step s s' v out :
  Store.eff [] s s' -> Store.is_output s v out -> Store.is_output s' v out.
Proof.
  intros HE (vm & p & q & -> & Hm & Hi & Hd).
  exists vm, p, q. split; [reflexivity|]. split; [|split].
  - exact (den_step0 _ _ _ _ _ Hm HE).
  - exact (innings_rows_at_step _ _ _ _ _ _ HE (incl_refl _) (fun x => x) Hi).
  - exact (deliveries_rows_at_step _ _ _ _ _ _ HE (incl_refl _) (fun x => x) Hd).
Qed.

(** ** Determinism *)

(** C9.  The transform is run over a store of objects, where it allocates
    lists and dicts and appends to lists.  Given a record that holds the
    document [J], nested less deep than the comparisons may go, a first run,
    a second run that follows it on the same record, and a run on any other
    record that holds [J] give identical Match, Innings and Delivery
    outputs, the rows the transform over documents computes from [J], or
    raise the same exception; no run changes an object that was there before
    it, so that the record is left as it was and the output of the first run
    is untouched by the second. *)
Theorem parse_match_json_deterministic fromisoformat depth J match_path
  s j s' j' :
  Store.den [] s j J -> Store.den [] s' j' J ->
  (json_depth J < depth)%nat ->
  let run1 := Store.parse_match_json fromisoformat depth j match_path s in
  let run2 :=
    Store.parse_match_json fromisoformat depth j match_path (snd run1) in
  let run3 := Store.parse_match_json fromisoformat depth j' match_path s' in
  Store.eff [] s (snd run1) /\
  Store.eff [] (snd run1) (snd run2) /\
  Store.eff [] s' (snd run3) /\
  match parse_match_json fromisoformat J match_path with
  | Ok out =>
      exists v1 v2 v3,
        fst run1 = Store.Val v1 /\ fst run2 = Store.Val v2 /\
        fst run3 = Store.Val v3 /\
        Store.is_output (snd run1) v1 out /\
        Store.is_output (snd run2) v1 out /\
        Store.is_output (snd run2) v2 out /\
        Store.is_output (snd run3) v3 out
  | Raise e =>
      fst run1 = Store.Exc e /\ fst run2 = Store.Exc e /\
      fst run3 = Store.Exc e
  end.
Proof.
  intros Hj Hj' Hd run1 run2 run3.
  assert (Hw : forall (t : Store.store) w, In w [] -> (w < List.length t)%nat)
    by (intros t w []).
  destruct (parse_match_json_refines fromisoformat depth s j J match_path
              Hj Hd (Hw s)) as (o1 & s1 & Erun1 & E1 & Ho1).
  assert (Hj1 := den_step0 _ _ _ _ _ Hj E1).
  destruct (parse_match_json_refines fromisoformat depth s1 j J match_path
              Hj1 Hd (Hw s1)) as (o2 & s2 & Erun2 & E2 & Ho2).
  destruct (parse_match_json_refines fromisoformat depth s' j' J match_path
              Hj' Hd (Hw s')) as (o3 & s3 & Erun3 & E3 & Ho3).
  subst run1 run2 run3. rewrite Erun1. cbn [fst snd]. rewrite Erun2, Erun3.
  cbn [fst snd].
  split; [exact E1|]. split; [exact E2|]. split; [exact E3|].
  destruct (parse_match_json fromisoformat J match_path) as [out|e].
  - destruct Ho1 as (v1 & -> & H1). destruct Ho2 as (v2 & -> & H2).
    destruct Ho3 as (v3 & -> & H3).
    exists v1, v2, v3. repeat split; try reflexivity; try assumption.
    exact (is_output_step _ _ _ _ E2 H1).
  - subst. repeat split; reflexivity.
Qed.

Ltac den_concrete :=
  repeat first
    [ apply Store.denotes_none
    | apply Store.denotes_bool
    | apply Store.denotes_int
    | apply Store.denotes_str
    | eapply Store.denotes_list;
      [split; [simpl; lia | intros []] | reflexivity |]
    | eapply Store.denotes_dict;
      [split; [simpl; lia | intros []] | reflexivity |]
    | apply Forall2_nil
    | apply Forall2_cons
    | split; [reflexivity|] ].

Lemma parse_match_json_deterministic_witness :
  let run1 := Store.parse_match_json fromisoformat_ymd 1000
                Store.sample_record "x.json" Store.sample_store in
  let run2 := Store.parse_match_json fromisoformat_ymd 1000
                Store.sample_record "x.json" (snd run1) in
  let run3 := Store.parse_match_json fromisoformat_ymd 1000
                Store.other_record "x.json" Store.other_store in
  Store.den [] Store.sample_store Store.sample_record Store.sample_document /\
  Store.den [] Store.other_store Store.other_record Store.sample_document /\
  (json_depth Store.sample_document < 1000)%nat /\
  fst run1 =
    Store.Val (Store.PTuple [Store.PRef 24; Store.PRef 31; Store.PRef 32]) /\
  fst run2 =
    Store.Val (Store.PTuple [Store.PRef 49; Store.PRef 56; Store.PRef 57]) /\
  fst run3 =
    Store.Val (Store.PTuple [Store.PRef 25; Store.PRef 32; Store.PRef 33]) /\
  firstn 11 (snd run2) = Store.sample_store /\
  firstn 36 (snd run2) = snd run1 /\
  firstn 12 (snd run3) = Store.other_store /\
  exists out,
    parse_match_json fromisoformat_ymd Store.sample_document "x.json" = Ok out /\
    Store.is_output (snd run1)
      (Store.PTuple [Store.PRef 24; Store.PRef 31; Store.PRef 32]) out /\
    Store.is_output (snd run2)
      (Store.PTuple [Store.PRef 24; Store.PRef 31; Store.PRef 32]) out /\
    Store.is_output (snd run2)
      (Store.PTuple [Store.PRef 49; Store.PRef 56; Store.PRef 57]) out /\
    Store.is_output (snd run3)
      (Store.PTuple [Store.PRef 25; Store.PRef 32; Store.PRef 33]) out.
Proof.
  intros run1 run2 run3.
  assert (Hs : Store.den [] Store.sample_store Store.sample_record
                 Store.sample_document)
    by (unfold Store.den, Store.sample_store, Store.sample_record,
          Store.sample_document; den_concrete).
  assert (Ho : Store.den [] Store.other_store Store.other_record
                 Store.sample_document)
    by (unfold Store.den, Store.other_store, Store.other_record,
          Store.sample_document; den_concrete).
  assert (Hd : (json_depth Store.sample_document < 1000)%nat)
    by (apply Nat.ltb_lt; vm_compute; reflexivity).
  assert (C1 : fst run1 =
               Store.Val (Store.PTuple [Store.PRef 24; Store.PRef 31;
                                        Store.PRef 32]))
    by (vm_compute; reflexivity).
  assert (C2 : fst run2 =
               Store.Val (Store.PTuple [Store.PRef 49; Store.PRef 56;
                                        Store.PRef 57]))
    by (vm_compute; reflexivity).
  assert (C3 : fst run3 =
               Store.Val (Store.PTuple [Store.PRef 25; Store.PRef 32;
                                        Store.PRef 33]))
    by (vm_compute; reflexivity).
  destruct (parse_match_json_deterministic fromisoformat_ymd 1000
              Store.sample_document "x.json" Store.sample_store
              Store.sample_record Store.other_store Store.other_record
              Hs Ho Hd) as (_ & _ & _ & H).
  fold run1 run2 run3 in H.
  destruct (parse_match_json fromisoformat_ymd Store.sample_document "x.json")
    as [out|e] eqn:Eout; [|vm_compute in Eout; discriminate].
  destruct H as (v1 & v2 & v3 & F1 & F2 & F3 & O1 & O12 & O2 & O3).
  rewrite C1 in F1. rewrite C2 in F2. rewrite C3 in F3.
  inversion F1; inversion F2; inversion F3; subst v1 v2 v3.
  repeat match goal with |- _ /\ _ => split end;
    try assumption; try (vm_compute; reflexivity).
  exists out. repeat split; assumption.
Defined.

(** * Further properties of the normalizers *)

Lemma enumerate_length {A : Type} (l : list A) : forall k,
  List.length (enumerate k l) = List.length l.
Proof. induction l as [|x l IH]; simpl; intros k; [|rewrite IH]; reflexivity. Qed.

Lemma enumerate_fst {A : Type} (l : list A) : forall k,
  map fst (enumerate k l) = map (fun i => Z.of_nat i + k) (seq 0 (List.length l)).
Proof.
  induction l as [|x l IH]; intros k; [reflexivity|].
  cbn [enumerate map List.length seq fst]. f_equal.
  rewrite IH, <- seq_shift, map_map. apply map_ext. intros i. lia.
Qed.

Lemma enumerate_snd {A : Type} (l : list A) : forall k,
  map snd (enumerate k l) = l.
Proof. induction l as [|x l IH]; simpl; intros k; [|rewrite IH]; reflexivity. Qed.

Lemma enumerate_positions {A : Type} (l : list A) :
  map fst (enumerate 1 l) = positions (List.length l).
Proof. apply enumerate_fst. Qed.

(** The loop of the Dialect B normalizer keeps every entry. *)
Lemma parse_v2_loop : forall l k acc norm,
  for_each parse_v2_inning acc (enumerate k l) = Ok norm ->
  exists new,
    norm = (acc ++ new)%list /\
    map inning_number new = map fst (enumerate k l) /\
    Forall2 (fun x inn => exists d, x = JObj d /\ team inn = field "team" d)
      l new.
Proof.
  induction l as [|x l IH]; intros k acc norm H.
  - inversion H; subst. exists []. rewrite app_nil_r. repeat split. constructor.
  - cbn [enumerate for_each] in H. bind_inv H as s1 Hs1.
    unfold parse_v2_inning in Hs1.
    bind_inv Hs1 as tm Htm. apply py_get_ok in Htm. destruct Htm as (d & -> & ->).
    bind_inv Hs1 as ov Hov. bind_inv Hs1 as blocks Hblocks.
    bind_inv Hs1 as dels Hdels. inversion Hs1; subst s1; clear Hs1.
    destruct (IH _ _ _ H) as (new & -> & Hnum & Hall).
    eexists (_ :: new). split; [rewrite <- app_assoc; reflexivity|].
    split.
    + cbn [map inning_number fst enumerate]. f_equal. exact Hnum.
    + constructor; [|exact Hall]. exists d. split; reflexivity.
Qed.

(** X1. The Dialect B normalizer keeps every entry of an inning list: when it
    returns, there is one normalized inning per entry, numbered 1, 2, 3, ...
    in order, every entry is a mapping, and the team of each inning is the
    entry's [team] field (null when absent). *)
Theorem parse_v2_innings_numbering l norm :
  parse_v2_innings (JList l) = Ok norm ->
  List.length norm = List.length l /\
  map inning_number norm = positions (List.length l) /\
  Forall2 (fun x inn => exists d, x = JObj d /\ team inn = field "team" d)
    l norm.
Proof.
  unfold parse_v2_innings. cbn [py_iter bind]. intros H.
  apply parse_v2_loop in H. destruct H as (new & -> & Hnum & Hall).
  simpl. split; [|split].
  - rewrite <- (length_map inning_number), Hnum, length_map.
    apply enumerate_length.
  - rewrite Hnum. apply enumerate_positions.
  - exact Hall.
Qed.

Lemma parse_v2_innings_numbering_witness :
  exists norm,
    parse_v2_innings (JList [v2_good_inning; JObj []; v2_good_inning]) = Ok norm /\
    List.length norm = 3%nat /\
    map inning_number norm = [1; 2; 3].
Proof.
  destruct (parse_v2_innings (JList [v2_good_inning; JObj []; v2_good_inning]))
    as [norm|e] eqn:E; [|vm_compute in E; discriminate].
  exists norm. split; [reflexivity|].
  destruct (parse_v2_innings_numbering _ _ E) as (Hlen & Hnum & _).
  split; [exact Hlen | exact Hnum].
Defined.

(** The loop of the Dialect A normalizer numbers the entries it keeps by
    their place in the list. *)
Lemma parse_v1_loop : forall l k acc norm,
  for_each parse_v1_inning acc (enumerate k l) = Ok norm ->
  exists new,
    norm = (acc ++ new)%list /\
    map inning_number new =
      map fst (filter (fun p => kept_v1 (snd p)) (enumerate k l)).
Proof.
  induction l as [|x l IH]; intros k acc norm H.
  - inversion H; subst. exists []. rewrite app_nil_r. split; reflexivity.
  - cbn [enumerate for_each] in H. bind_inv H as s1 Hs1.
    cbn [enumerate filter snd]. unfold parse_v1_inning in Hs1.
    unfold kept_v1 at 1.
    destruct (isinstance_dict x && truthy x) eqn:Hk.
    + apply andb_true_iff in Hk. destruct Hk as [Hd Ht].
      rewrite Hd, Ht in Hs1. cbn [negb orb] in Hs1.
      bind_inv Hs1 as name Hname. bind_inv Hs1 as data Hdata.
      bind_inv Hs1 as tm Htm. bind_inv Hs1 as en Hen.
      bind_inv Hs1 as entries Hentries. bind_inv Hs1 as dels Hdels.
      inversion Hs1; subst s1; clear Hs1.
      destruct (IH _ _ _ H) as (new & -> & Hnum).
      eexists (_ :: new). split; [rewrite <- app_assoc; reflexivity|].
      cbn [map inning_number fst]. f_equal. exact Hnum.
    + assert (Hskip : negb (isinstance_dict x) || negb (truthy x) = true).
      { destruct (isinstance_dict x), (truthy x); try discriminate; reflexivity. }
      rewrite Hskip in Hs1. inversion Hs1; subst s1.
      apply (IH _ _ _ H).
Qed.

Lemma filter_length_le {A : Type} (f : A -> bool) (l : list A) :
  (List.length (filter f l) <= List.length l)%nat.
Proof.
  induction l as [|x l IH]; simpl; [lia|]. destruct (f x); simpl; lia.
Qed.

(** X2. The Dialect A normalizer numbers the innings it keeps by their place
    in the list, skipped entries counted: the inning numbers are the
    positions of the entries that are non-empty mappings, and there are as
    many normalized innings as such entries, never more than the list has
    entries. *)
Theorem parse_v1_innings_numbering l norm :
  parse_v1_innings (JList l) = Ok norm ->
  map inning_number norm =
    map fst (filter (fun p => kept_v1 (snd p)) (enumerate 1 l)) /\
  List.length norm = List.length (filter kept_v1 l) /\
  (List.length norm <= List.length l)%nat.
Proof.
  unfold parse_v1_innings. cbn [py_iter bind]. intros H.
  apply parse_v1_loop in H. destruct H as (new & -> & Hnum). simpl.
  assert (Hlen : List.length new = List.length (filter kept_v1 l)).
  { rewrite <- (length_map inning_number), Hnum, length_map.
    clear. generalize 1. induction l as [|x l IH]; intros k; [reflexivity|].
    cbn [enumerate filter snd]. destruct (kept_v1 x); simpl; rewrite IH;
      reflexivity. }
  split; [exact Hnum | split; [exact Hlen|]].
  rewrite Hlen. apply filter_length_le.
Qed.

Lemma parse_v1_innings_numbering_witness :
  exists norm,
    parse_v1_innings
      (JList [JObj []; v1_good_inning; JInt 5; JStr "x"; v1_good_inning]) = Ok norm /\
    map inning_number norm = [2; 5] /\
    List.length norm = 2%nat.
Proof.
  destruct (parse_v1_innings
              (JList [JObj []; v1_good_inning; JInt 5; JStr "x"; v1_good_inning]))
    as [norm|e] eqn:E; [|vm_compute in E; discriminate].
  exists norm. split; [reflexivity|].
  destruct (parse_v1_innings_numbering _ _ E) as (Hnum & Hlen & _).
  split; [exact Hnum | exact Hlen].
Defined.

Lemma enumerate_filter_sorted {A : Type} (f : Z * A -> bool) (l : list A) :
  forall k,
    StronglySorted Z.lt (map fst (filter f (enumerate k l))) /\
    Forall (fun n => k <= n) (map fst (filter f (enumerate k l))).
Proof.
  induction l as [|x l IH]; intros k.
  - simpl. split; constructor.
  - destruct (IH (k + 1)) as [Hs Hb].
    assert (Hb' : Forall (fun n => k <= n)
                    (map fst (filter f (enumerate (k + 1) l)))).
    { eapply Forall_impl; [|exact Hb]. simpl. intros n Hn. lia. }
    cbn [enumerate filter]. destruct (f (k, x)).
    + cbn [map fst]. split.
      * constructor; [exact Hs|].
        eapply Forall_impl; [|exact Hb]. simpl. intros n Hn. lia.
      * constructor; [lia | exact Hb'].
    + split; assumption.
Qed.

Lemma strongly_sorted_nodup (l : list Z) : StronglySorted Z.lt l -> NoDup l.
Proof.
  induction 1 as [|x l Hs IH Hall]; constructor; [|exact IH].
  intros Hin. rewrite Forall_forall in Hall. specialize (Hall x Hin). lia.
Qed.

Lemma filter_true {A : Type} (l : list A) : filter (fun _ => true) l = l.
Proof. induction l as [|x l IH]; simpl; [|rewrite IH]; reflexivity. Qed.

(** Inning numbers of both normalizers, for any iterable of entries. *)
Lemma normalizer_numbers_sorted items norm :
  for_each parse_v1_inning [] (enumerate 1 items) = Ok norm \/
  for_each parse_v2_inning [] (enumerate 1 items) = Ok norm ->
  StronglySorted Z.lt (map inning_number norm) /\
  Forall (fun n => 1 <= n) (map inning_number norm).
Proof.
  intros [H|H].
  - apply parse_v1_loop in H. destruct H as (new & -> & Hnum). simpl.
    rewrite Hnum. apply enumerate_filter_sorted.
  - apply parse_v2_loop in H. destruct H as (new & -> & Hnum & _). simpl.
    rewrite Hnum, <- (filter_true (enumerate 1 items)).
    apply enumerate_filter_sorted.
Qed.

Lemma detect_numbers_sorted innings_src norm :
  detect_and_parse_innings innings_src = Ok norm ->
  StronglySorted Z.lt (map inning_number norm) /\
  Forall (fun n => 1 <= n) (map inning_number norm) /\
  NoDup (map inning_number norm).
Proof.
  unfold detect_and_parse_innings. intros H.
  assert (Hs : StronglySorted Z.lt (map inning_number norm) /\
               Forall (fun n => 1 <= n) (map inning_number norm)).
  { destruct (truthy innings_src).
    - cbn [negb] in H. bind_inv H as first Hfirst.
      destruct (is_v2 first).
      + unfold parse_v2_innings in H. bind_inv H as items Hitems.
        eapply normalizer_numbers_sorted. right. exact H.
      + unfold parse_v1_innings in H. bind_inv H as items Hitems.
        eapply normalizer_numbers_sorted. left. exact H.
    - inversion H; subst. simpl. split; constructor. }
  destruct Hs as [Hs Hb]. split; [exact Hs | split; [exact Hb|]].
  apply strongly_sorted_nodup. exact Hs.
Qed.

(** X3. Whatever the value of [innings], when the detector returns, the
    inning numbers of the normalized innings are at least 1 and strictly
    increasing, hence distinct. *)
Theorem inning_numbers_increase innings_src norm :
  detect_and_parse_innings innings_src = Ok norm ->
  StronglySorted Z.lt (map inning_number norm) /\
  Forall (fun n => 1 <= n) (map inning_number norm) /\
  NoDup (map inning_number norm).
Proof. apply detect_numbers_sorted. Qed.

Lemma inning_numbers_increase_witness :
  exists norm,
    detect_and_parse_innings
      (JList [v1_good_inning; JObj []; JInt 5; v1_good_inning]) = Ok norm /\
    map inning_number norm = [1; 4] /\
    NoDup (map inning_number norm).
Proof.
  destruct (detect_and_parse_innings
              (JList [v1_good_inning; JObj []; JInt 5; v1_good_inning]))
    as [norm|e] eqn:E; [|vm_compute in E; discriminate].
  exists norm. split; [reflexivity|]. split.
  - assert (E' := E). vm_compute in E'. injection E' as <-. reflexivity.
  - apply (inning_numbers_increase _ _ E).
Defined.

Lemma parse_v2_deliveries_loop over_num : forall evs k acc,
  for_each (parse_v2_delivery over_num) acc (enumerate k evs) =
  Ok (acc ++ map (fun p => (over_num, JInt (fst p), snd p)) (enumerate k evs))%list.
Proof.
  induction evs as [|ev evs IH]; intros k acc.
  - simpl. rewrite app_nil_r. reflexivity.
  - cbn [enumerate for_each parse_v2_delivery bind map fst snd].
    rewrite IH, <- app_assoc. reflexivity.
Qed.

(** X4. In Dialect B the deliveries of an over block get the ball numbers
    1, 2, 3, ... in source order, each carries the [over] value of the block
    (null when the block has none), and the events are kept in order, none
    lost. *)
Theorem parse_v2_over_numbering acc over_blk acc' :
  parse_v2_over acc over_blk = Ok acc' ->
  exists d evs new,
    over_blk = JObj d /\
    py_iter (field_or_empty "deliveries" d) = Ok evs /\
    acc' = (acc ++ new)%list /\
    map over_of new = repeat (field "over" d) (List.length evs) /\
    map ball_of new = map JInt (positions (List.length evs)) /\
    map event_of new = evs.
Proof.
  unfold parse_v2_over. intros H.
  bind_inv H as over_num Hover. apply py_get_ok in Hover.
  destruct Hover as (d & -> & ->).
  bind_inv H as evs0 Hevs0. inversion Hevs0; subst evs0; clear Hevs0.
  bind_inv H as evs Hevs.
  rewrite parse_v2_deliveries_loop in H. inversion H; subst acc'; clear H.
  exists d, evs. eexists. split; [reflexivity|]. split; [exact Hevs|].
  split; [reflexivity|].
  fold (field "over" d). rewrite !map_map. unfold over_of, ball_of, event_of.
  cbn [fst snd]. split; [|split].
  - rewrite <- (enumerate_length evs 1).
    induction (enumerate 1 evs) as [|p l IH]; simpl; [|rewrite IH]; reflexivity.
  - rewrite <- enumerate_positions, map_map. reflexivity.
  - apply enumerate_snd.
Qed.

Lemma parse_v2_over_numbering_witness :
  exists acc',
    parse_v2_over []
      (JObj [("over", JInt 7);
             ("deliveries", JList [ev_runs 1 0 1; ev_wicket; ev_runs 0 1 1])])
      = Ok acc' /\
    map over_of acc' = [JInt 7; JInt 7; JInt 7] /\
    map ball_of acc' = [JInt 1; JInt 2; JInt 3].
Proof.
  destruct (parse_v2_over []
              (JObj [("over", JInt 7);
                     ("deliveries",
                      JList [ev_runs 1 0 1; ev_wicket; ev_runs 0 1 1])]))
    as [acc'|e] eqn:E; [|vm_compute in E; discriminate].
  exists acc'. split; [reflexivity|].
  destruct (parse_v2_over_numbering _ _ _ E)
    as (d & evs & new & Hd & Hevs & -> & Hover & Hball & _).
  injection Hd as <-. vm_compute in Hevs. injection Hevs as <-.
  split; [exact Hover | exact Hball].
Defined.

Lemma split_over_ball_cases s :
  split_over_ball s = (None, None) \/
  exists o b,
    split_over_ball s = (Some o, Some b) /\
    (contains_dot s = false -> b = 0 /\ py_int s = Ok o).
Proof.
  unfold split_over_ball. destruct (contains_dot s).
  - destruct (unpack2 (split_dot s)) as [[over_s ball_s]|e]; [|left; reflexivity].
    cbn [bind]. destruct (py_int over_s) as [o|e]; [|left; reflexivity].
    cbn [bind]. destruct (py_int ball_s) as [b|e]; [|left; reflexivity].
    right. exists o, b. split; [reflexivity | discriminate].
  - destruct (py_int s) as [n|e]; [|left; reflexivity].
    right. exists n, 0. repeat split.
Qed.

(** X5. The ball-label splitter never returns one null: its result is
    (null, null) or a pair of integers; for a label without a dot the ball
    is 0 and the over is what [int] reads. *)
Theorem split_over_ball_shape s :
  split_over_ball s = (None, None) \/
  exists o b,
    split_over_ball s = (Some o, Some b) /\
    (contains_dot s = false -> b = 0 /\ py_int s = Ok o).
Proof. apply split_over_ball_cases. Qed.

Lemma parse_v1_entry_cases acc entry :
  (kept_v1 entry = false /\ parse_v1_entry acc entry = Ok acc) \/
  (kept_v1 entry = true /\
   exists d, both_or_neither d /\ event_of d = first_value entry /\
             parse_v1_entry acc entry = Ok (acc ++ [d])%list).
Proof.
  unfold parse_v1_entry, kept_v1.
  destruct entry as [| | | | |[|[lbl ev] rest]]; try (left; split; reflexivity).
  right. split; [reflexivity|].
  cbn [isinstance_dict truthy negb orb first_key bind py_getitem lookup].
  rewrite String.eqb_refl. cbn [bind].
  destruct (split_over_ball_cases lbl) as [Hn|(o & b & Hs & _)].
  - rewrite Hn. exists (JNull, JNull, ev).
    split; [left; split; reflexivity | split; reflexivity].
  - rewrite Hs. exists (JInt o, JInt b, ev).
    split; [right; exists o, b; split; reflexivity | split; reflexivity].
Qed.

(** X6. The loop over the delivery entries of a Dialect A inning never
    raises: it emits one delivery per entry that is a non-empty mapping, in
    order, the event being the value under the entry's first key, with over
    and ball both null (label not read) or both integers. *)
Theorem parse_v1_entries_total entries :
  exists dels,
    for_each parse_v1_entry [] entries = Ok dels /\
    List.length dels = List.length (filter kept_v1 entries) /\
    map event_of dels = map first_value (filter kept_v1 entries) /\
    Forall both_or_neither dels.
Proof.
  assert (H : forall acc,
             exists new,
               for_each parse_v1_entry acc entries = Ok (acc ++ new)%list /\
               List.length new = List.length (filter kept_v1 entries) /\
               map event_of new = map first_value (filter kept_v1 entries) /\
               Forall both_or_neither new).
  { induction entries as [|x entries IH]; intros acc.
    - exists []. rewrite app_nil_r. repeat split. constructor.
    - cbn [for_each filter].
      destruct (parse_v1_entry_cases acc x)
        as [[Hk He]|(Hk & d & Hd & Hev & He)]; rewrite He, Hk; cbn [bind].
      + apply IH.
      + destruct (IH (acc ++ [d])%list) as (new & Hrun & Hlen & Hevs & Hall).
        exists (d :: new). rewrite Hrun, <- app_assoc. split; [reflexivity|].
        split; [simpl; f_equal; exact Hlen|].
        split; [simpl; f_equal; assumption|].
        constructor; assumption. }
  destruct (H []) as (new & Hrun & Hrest). exists new. split; assumption.
Qed.

Lemma parse_v1_chars_skipped s : forall k acc,
  for_each parse_v1_inning acc (enumerate k (chars s)) = Ok acc.
Proof.
  induction s as [|c s IH]; intros k acc; [reflexivity|].
  cbn [chars enumerate for_each parse_v1_inning isinstance_dict negb orb bind].
  apply IH.
Qed.

(** X7. An [innings] value that is no list: every falsy value (null, false,
    0, the empty string, the empty mapping) and every string give no
    innings; a non-empty mapping raises [KeyError]; a number other than 0 and
    [true] raise [TypeError]. *)
Theorem detect_on_other_values :
  (forall v, truthy v = false -> detect_and_parse_innings v = Ok []) /\
  (forall s, detect_and_parse_innings (JStr s) = Ok []) /\
  (forall d, d <> [] -> detect_and_parse_innings (JObj d) = Raise KeyError) /\
  (forall z, z <> 0 -> detect_and_parse_innings (JInt z) = Raise TypeError) /\
  detect_and_parse_innings (JBool true) = Raise TypeError.
Proof.
  unfold detect_and_parse_innings.
  split; [|split; [|split; [|split]]].
  - intros v Hv. rewrite Hv. reflexivity.
  - intros [|c s]; [reflexivity|].
    cbn [truthy String.eqb negb py_index0 bind is_v2].
    unfold parse_v1_innings. cbn [py_iter bind]. apply parse_v1_chars_skipped.
  - intros [|p d] Hd; [contradiction|]. reflexivity.
  - intros z Hz. cbn [truthy]. apply Z.eqb_neq in Hz. rewrite Hz. reflexivity.
  - reflexivity.
Qed.

Lemma detect_on_other_values_witness :
  detect_and_parse_innings JNull = Ok [] /\
  detect_and_parse_innings (JObj [("1st innings", JNull)]) = Raise KeyError /\
  detect_and_parse_innings (JInt 3) = Raise TypeError.
Proof.
  destruct detect_on_other_values as (Hfalsy & _ & Hobj & Hint & _).
  split; [|split].
  - apply Hfalsy. reflexivity.
  - apply Hobj. discriminate.
  - apply Hint. discriminate.
Defined.

(** * Further properties of the reducer *)

(** The row one turn of the loop writes, read off the event. *)
Lemma reduce_delivery_row match_id inn batting_team bowling_team st d st' :
  reduce_delivery match_id inn batting_team bowling_team st d = Ok st' ->
  exists row,
    deliveries_rows st' = (deliveries_rows st ++ [row])%list /\
    row_of_delivery d row.
Proof.
  destruct d as [[over_num ball_num] ev].
  unfold reduce_delivery. intros H.
  bind_inv H as runs Hruns. apply py_get_ok in Hruns.
  destruct Hruns as (d & -> & ->).
  bind_inv H as rb Hrb. apply py_get_ok in Hrb. destruct Hrb as (rd & Hrd & ->).
  rewrite Hrd in H. simpl in H.
  bind_inv H as rsum Hsum.
  bind_inv H as extras_type Hextras.
  bind_inv H as wickets Hwickets.
  assert (Hw : wickets = chosen_wickets d).
  { unfold chosen_wickets, py_or, field.
    destruct (truthy _); inversion Hwickets; reflexivity. }
  subst wickets. clear Hwickets.
  bind_inv H as w Hwk. destruct w as [[wicket_flag wicket_kind] player_out].
  bind_inv H as total Htotal. inversion H; subst st'; clear H. simpl.
  eexists. split; [reflexivity|].
  exists d. unfold event_of, over_of, ball_of, bears_wicket. simpl.
  repeat match goal with |- _ /\ _ => split end; try reflexivity.
  intros Hnone. unfold wicket_of in Hwk.
  destruct (chosen_wickets d) as [| | | |[|wk r]|]; try discriminate;
    inversion Hwk; split; reflexivity.
Qed.

Lemma reduce_loop_rows match_id inn batting_team bowling_team :
  forall ds st st',
    for_each (reduce_delivery match_id inn batting_team bowling_team) st ds
      = Ok st' ->
    exists new,
      deliveries_rows st' = (deliveries_rows st ++ new)%list /\
      Forall2 row_of_delivery ds new.
Proof.
  induction ds as [|d ds IH]; intros st st' H.
  - inversion H; subst. exists []. rewrite app_nil_r. split; constructor.
  - cbn [for_each] in H. bind_inv H as s1 Hs1.
    apply reduce_delivery_row in Hs1. destruct Hs1 as (row & Hrows & Hrow).
    destruct (IH _ _ H) as (new & Hnew & Hall).
    exists (row :: new). split.
    + rewrite Hnew, Hrows, <- app_assoc. reflexivity.
    + constructor; assumption.
Qed.

(** The rows of one inning, as a block. *)
Lemma reduce_inning_block match_id team1 team2 irows drows inn irows' drows' :
  reduce_inning match_id team1 team2 (irows, drows) inn = Ok (irows', drows') ->
  exists p,
    irows' = (irows ++ [fst p])%list /\
    drows' = (drows ++ snd p)%list /\
    inning_block match_id team1 team2 inn p.
Proof.
  intros H. pose proof H as H'.
  apply reduce_inning_ok in H. simpl in H.
  destruct H as (new & f & Hd & Hlen & Hall & Hos & Hbs & Hf & Hir).
  unfold reduce_inning in H'. bind_inv H' as st Hst.
  apply reduce_loop_rows in Hst. destruct Hst as (new' & Hnew' & Hrows).
  bind_inv H' as ov Hov. injection H' as _ Hdr.
  simpl in Hnew'. rewrite Hnew', Hd in Hdr. apply app_inv_head in Hdr.
  subst new'.
  eexists (_, new). cbn [fst snd]. split; [exact Hir|].
  split; [exact Hd|].
  unfold inning_block, inning_row_of. cbn [fst snd].
  cbn [ir_match_id ir_inning_number ir_batting_team ir_bowling_team ir_runs
       ir_wickets ir_overs].
  repeat match goal with |- _ /\ _ => split end; eauto.
Qed.

(** The rows of all innings: the blocks in order. *)
Lemma reduce_innings_blocks match_id team1 team2 :
  forall norm irows0 drows0 irows drows,
    for_each (reduce_inning match_id team1 team2) (irows0, drows0) norm
      = Ok (irows, drows) ->
    exists pairs,
      irows = (irows0 ++ map fst pairs)%list /\
      drows = (drows0 ++ List.concat (map snd pairs))%list /\
      Forall2 (inning_block match_id team1 team2) norm pairs.
Proof.
  induction norm as [|inn norm IH]; intros irows0 drows0 irows drows H.
  - inversion H; subst. exists []. simpl. rewrite !app_nil_r.
    repeat split. constructor.
  - cbn [for_each] in H. bind_inv H as s1 Hs1. destruct s1 as [irows1 drows1].
    apply reduce_inning_block in Hs1. destruct Hs1 as (p & -> & -> & Hp).
    destruct (IH _ _ _ _ H) as (pairs & -> & -> & Hall).
    exists (p :: pairs). cbn [map List.concat].
    rewrite <- !app_assoc. repeat split. constructor; assumption.
Qed.

Lemma filter_all {A : Type} (f : A -> bool) (l : list A) :
  Forall (fun x => f x = true) l -> filter f l = l.
Proof.
  induction 1 as [|x l Hx _ IH]; simpl; [reflexivity|].
  rewrite Hx, IH. reflexivity.
Qed.

Lemma filter_none {A : Type} (f : A -> bool) (l : list A) :
  Forall (fun x => f x = false) l -> filter f l = [].
Proof.
  induction 1 as [|x l Hx _ IH]; simpl; [reflexivity|].
  rewrite Hx, IH. reflexivity.
Qed.

Lemma block_rows_number match_id team1 team2 inn p n :
  inning_block match_id team1 team2 inn p ->
  rows_of_inning n (snd p) =
    if inning_number inn =? n then snd p else [].
Proof.
  intros (_ & Hall & _). unfold rows_of_inning.
  destruct (inning_number inn =? n) eqn:E.
  - apply filter_all. eapply Forall_impl; [|exact Hall].
    intros r (_ & Hn & _). simpl. rewrite Hn. exact E.
  - apply filter_none. eapply Forall_impl; [|exact Hall].
    intros r (_ & Hn & _). simpl. rewrite Hn. exact E.
Qed.

(** With distinct inning numbers, the Delivery rows with the number of an
    inning are the block of that inning. *)
Lemma blocks_filter match_id team1 team2 : forall norm pairs,
  Forall2 (inning_block match_id team1 team2) norm pairs ->
  NoDup (map inning_number norm) ->
  Forall (fun p =>
            exists inn,
              In inn norm /\
              inning_block match_id team1 team2 inn p /\
              rows_of_inning (inning_number inn) (List.concat (map snd pairs))
                = snd p) pairs.
Proof.
  induction 1 as [|inn p norm pairs Hp Hall IH]; intros Hnd; [constructor|].
  cbn [map] in Hnd. inversion Hnd as [|n ns Hnotin Hnd']; subst.
  cbn [map List.concat]. unfold rows_of_inning in *. constructor.
  - exists inn. split; [left; reflexivity|]. split; [exact Hp|].
    rewrite filter_app.
    pose proof (block_rows_number _ _ _ _ _ (inning_number inn) Hp) as Hb.
    unfold rows_of_inning in Hb. rewrite Hb, Z.eqb_refl.
    assert (Hrest : filter (fun r => dr_inning_number r =? inning_number inn)
                      (List.concat (map snd pairs)) = []).
    { clear - Hall Hnotin. induction Hall as [|inn' p' norm pairs Hp' _ IH'].
      - reflexivity.
      - cbn [map List.concat]. rewrite filter_app.
        pose proof (block_rows_number _ _ _ _ _ (inning_number inn) Hp') as Hb'.
        unfold rows_of_inning in Hb'. rewrite Hb'.
        destruct (inning_number inn' =? inning_number inn) eqn:E.
        + exfalso. apply Hnotin. left. apply Z.eqb_eq in E. exact E.
        + apply IH'. intros Hin. apply Hnotin. right. exact Hin. }
    rewrite Hrest. apply app_nil_r.
  - specialize (IH Hnd'). eapply Forall_impl; [|exact IH].
    intros q (inn' & Hin & Hq & Hf). exists inn'.
    split; [right; exact Hin|]. split; [exact Hq|].
    rewrite filter_app.
    pose proof (block_rows_number _ _ _ _ _ (inning_number inn') Hp) as Hb.
    unfold rows_of_inning in Hb. rewrite Hb.
    destruct (inning_number inn =? inning_number inn') eqn:E.
    + exfalso. apply Hnotin. apply Z.eqb_eq in E. rewrite E.
      apply in_map. exact Hin.
    + exact Hf.
Qed.

(** The rows of a finished transform: the normalized innings and the block
    of rows of each. *)
Lemma parse_match_json_blocks fromisoformat j match_path mr irows drows :
  parse_match_json fromisoformat j match_path = Ok (mr, irows, drows) ->
  exists innings_src norm pairs,
    py_get j "innings" (JList []) = Ok innings_src /\
    detect_and_parse_innings innings_src = Ok norm /\
    NoDup (map inning_number norm) /\
    irows = map fst pairs /\
    drows = List.concat (map snd pairs) /\
    Forall2 (inning_block (mr_match_id mr) (mr_team1 mr) (mr_team2 mr))
      norm pairs.
Proof.
  intros H. apply parse_match_json_ok in H.
  destruct H as (info & teams & src & norm & _ & _ & _ & _ & _ & Hsrc & Hnorm & H).
  apply reduce_innings_blocks in H. destruct H as (pairs & -> & -> & Hall).
  exists src, norm, pairs.
  repeat match goal with |- _ /\ _ => split end; auto.
  apply (detect_numbers_sorted _ _ Hnorm).
Qed.

Lemma row_of_delivery_maps ds block :
  Forall2 row_of_delivery ds block ->
  List.length block = List.length ds /\
  map dr_overs block = map over_of ds /\
  map dr_ball block = map ball_of ds.
Proof.
  induction 1 as [|d r ds block Hr _ IH]; [repeat split|].
  destruct IH as (Hlen & Ho & Hb).
  destruct Hr as (ev & _ & Hover & Hball & _).
  simpl. rewrite Hlen, Ho, Hb, Hover, Hball. repeat split.
Qed.

Lemma block_numbers match_id inn bat bowl block :
  Forall (row_of_inning match_id inn bat bowl) block ->
  map dr_inning_number block = repeat (inning_number inn) (List.length block) /\
  Forall (fun r => dr_match_id r = match_id) block.
Proof.
  induction 1 as [|r block Hr _ IH]; [split; constructor|].
  destruct IH as [Hn Hm]. destruct Hr as (Hid & Hnum & _).
  simpl. rewrite Hn, Hnum. split; [reflexivity | constructor; assumption].
Qed.

Lemma blocks_maps match_id team1 team2 : forall norm pairs,
  Forall2 (inning_block match_id team1 team2) norm pairs ->
  map ir_inning_number (map fst pairs) = map inning_number norm /\
  map ir_batting_team (map fst pairs) = map team norm /\
  map dr_inning_number (List.concat (map snd pairs)) =
    flat_map (fun inn => repeat (inning_number inn)
                           (List.length (deliveries inn))) norm /\
  map dr_overs (List.concat (map snd pairs)) =
    flat_map (fun inn => map over_of (deliveries inn)) norm /\
  map dr_ball (List.concat (map snd pairs)) =
    flat_map (fun inn => map ball_of (deliveries inn)) norm /\
  Forall (fun r => ir_match_id r = match_id) (map fst pairs) /\
  Forall (fun r => dr_match_id r = match_id) (List.concat (map snd pairs)).
Proof.
  induction 1 as [|inn p norm pairs Hp _ IH].
  - simpl. repeat split; constructor.
  - destruct IH as (H1 & H2 & H3 & H4 & H5 & H6 & H7).
    destruct Hp as (Hrow & Hall & Hdel & _).
    destruct Hrow as (Hid & Hnum & Hbat & _).
    destruct (row_of_delivery_maps _ _ Hdel) as (Hlen & Ho & Hb).
    destruct (block_numbers _ _ _ _ _ Hall) as (Hn & Hm).
    cbn [map List.concat flat_map]. rewrite !map_app.
    rewrite H1, H2, H3, H4, H5, Hnum, Hbat, Hn, Hlen, Ho, Hb.
    repeat match goal with |- _ /\ _ => split end; try reflexivity.
    + constructor; assumption.
    + apply Forall_app. split; assumption.
Qed.

(** X8. When the transform returns, its rows follow the normalized innings:
    one Innings row per inning with its number and team, and for each
    inning in order one Delivery row per delivery, carrying the inning
    number and the delivery's over and ball; every row carries the match id
    of the Match row. *)
Theorem rows_follow_innings fromisoformat j match_path mr irows drows :
  parse_match_json fromisoformat j match_path = Ok (mr, irows, drows) ->
  exists innings_src norm,
    py_get j "innings" (JList []) = Ok innings_src /\
    detect_and_parse_innings innings_src = Ok norm /\
    map ir_inning_number irows = map inning_number norm /\
    map ir_batting_team irows = map team norm /\
    map dr_inning_number drows =
      flat_map (fun inn => repeat (inning_number inn)
                             (List.length (deliveries inn))) norm /\
    map dr_overs drows = flat_map (fun inn => map over_of (deliveries inn)) norm /\
    map dr_ball drows = flat_map (fun inn => map ball_of (deliveries inn)) norm /\
    Forall (fun r => ir_match_id r = mr_match_id mr) irows /\
    Forall (fun r => dr_match_id r = mr_match_id mr) drows.
Proof.
  intros H. apply parse_match_json_blocks in H.
  destruct H as (src & norm & pairs & Hsrc & Hnorm & _ & -> & -> & Hall).
  exists src, norm. split; [exact Hsrc|]. split; [exact Hnorm|].
  apply (blocks_maps _ _ _ _ _ Hall).
Qed.

Lemma rows_follow_innings_witness :
  exists mr irows drows,
    parse_match_json fromisoformat_ymd (encode_v1 sample_match) "x.json"
      = Ok (mr, irows, drows) /\
    map ir_inning_number irows = [1; 2] /\
    map dr_inning_number drows = [1; 1; 1; 1; 1; 2] /\
    map dr_ball drows = map JInt [1; 2; 3; 1; 2; 1].
Proof.
  destruct (parse_match_json fromisoformat_ymd (encode_v1 sample_match) "x.json")
    as [[[mr irows] drows]|e] eqn:E; [|vm_compute in E; discriminate].
  exists mr, irows, drows. split; [reflexivity|].
  destruct (rows_follow_innings _ _ _ _ _ _ E)
    as (src & norm & Hsrc & Hnorm & Hnum & _ & Hdn & _ & Hball & _).
  vm_compute in Hsrc. injection Hsrc as <-.
  vm_compute in Hnorm. injection Hnorm as <-.
  split; [exact Hnum | split; [exact Hdn | exact Hball]].
Defined.

Lemma wicket_kinds_bounded ds block :
  Forall2 row_of_delivery ds block ->
  Z.of_nat (List.length (filter has_wicket_kind block))
    <= count_wickets (map event_of ds).
Proof.
  induction 1 as [|d r ds block Hr _ IH].
  - unfold count_wickets. simpl. lia.
  - cbn [map filter]. rewrite count_wickets_cons.
    destruct Hr as (ev & _ & _ & _ & _ & _ & _ & Hnone).
    destruct (bears_wicket (event_of d)).
    + destruct (has_wicket_kind r); simpl List.length; lia.
    + destruct (Hnone eq_refl) as [Hk _].
      assert (Hf : has_wicket_kind r = false)
        by (unfold has_wicket_kind; rewrite Hk; reflexivity).
      rewrite Hf. lia.
Qed.

(** X9. The Innings rows agree with the Delivery rows of the same call: the
    runs of an Innings row are the sum of the totals of the Delivery rows
    with its inning number, these rows have its batting and bowling team,
    those among them with a wicket kind are at most its wickets, and every
    Delivery row has the inning number of some Innings row. *)
Theorem innings_rows_agree_with_deliveries fromisoformat j match_path
  mr irows drows :
  parse_match_json fromisoformat j match_path = Ok (mr, irows, drows) ->
  Forall (fun r =>
            let block := rows_of_inning (ir_inning_number r) drows in
            ir_runs r = JInt (sum_Z (map runs_total_int block)) /\
            Forall (fun d => dr_batting_team d = ir_batting_team r /\
                             dr_bowling_team d = ir_bowling_team r) block /\
            Z.of_nat (List.length (filter has_wicket_kind block))
              <= ir_wickets r) irows /\
  Forall (fun d => In (dr_inning_number d) (map ir_inning_number irows)) drows.
Proof.
  intros H. apply parse_match_json_blocks in H.
  destruct H as (src & norm & pairs & _ & _ & Hnd & -> & -> & Hall).
  split.
  - apply Forall_map.
    pose proof (blocks_filter _ _ _ _ _ Hall Hnd) as Hf.
    eapply Forall_impl; [|exact Hf].
    intros p (inn & _ & Hp & Hrows). simpl.
    destruct Hp as (Hrow & Hteams & Hdel & Hruns).
    destruct Hrow as (_ & Hnum & Hbat & Hbowl & _ & Hwk & _).
    rewrite Hnum, Hrows. split; [exact Hruns|]. split.
    + eapply Forall_impl; [|exact Hteams].
      intros d (_ & _ & Hb1 & Hb2 & _). rewrite Hb1, Hb2, Hbat, Hbowl.
      split; reflexivity.
    + rewrite Hwk. apply wicket_kinds_bounded. exact Hdel.
  - clear Hnd. induction Hall as [|inn p norm pairs Hp _ IH]; [constructor|].
    cbn [map List.concat]. apply Forall_app. split.
    + destruct Hp as (Hrow & Hteams & _).
      destruct Hrow as (_ & Hnum & _).
      eapply Forall_impl; [|exact Hteams].
      intros d (_ & Hn & _). left. rewrite Hn, Hnum. reflexivity.
    + eapply Forall_impl; [|exact IH]. intros d Hd. right. exact Hd.
Qed.

Lemma innings_rows_agree_with_deliveries_witness :
  exists mr irows drows,
    parse_match_json fromisoformat_ymd (encode_v2 sample_match) "x.json"
      = Ok (mr, irows, drows) /\
    map ir_runs irows = [JInt 11; JInt 1] /\
    Forall (fun r =>
              ir_runs r =
              JInt (sum_Z (map runs_total_int
                             (rows_of_inning (ir_inning_number r) drows))))
      irows.
Proof.
  destruct (parse_match_json fromisoformat_ymd (encode_v2 sample_match) "x.json")
    as [[[mr irows] drows]|e] eqn:E; [|vm_compute in E; discriminate].
  exists mr, irows, drows. split; [reflexivity|]. split.
  - assert (E' := E). vm_compute in E'. injection E' as _ <- _. reflexivity.
  - destruct (innings_rows_agree_with_deliveries _ _ _ _ _ _ E) as [Hall _].
    eapply Forall_impl; [|exact Hall]. intros r Hr. apply Hr.
Defined.

(** X10. When the transform returns, every delivery event is a mapping,
    and the batter, bowler and non-striker columns of the Delivery rows are
    the events' fields of these names in order, null where a field is
    absent. *)
Theorem player_columns_copy_the_event fromisoformat j match_path mr irows drows :
  parse_match_json fromisoformat j match_path = Ok (mr, irows, drows) ->
  exists innings_src norm,
    py_get j "innings" (JList []) = Ok innings_src /\
    detect_and_parse_innings innings_src = Ok norm /\
    Forall (fun inn =>
              Forall (fun d => isinstance_dict (event_of d) = true)
                (deliveries inn)) norm /\
    let events := flat_map (fun inn => map event_of (deliveries inn)) norm in
    map dr_batter drows = map (event_field "batter") events /\
    map dr_bowler drows = map (event_field "bowler") events /\
    map dr_non_striker drows = map (event_field "non_striker") events.
Proof.
  intros H. apply parse_match_json_blocks in H.
  destruct H as (src & norm & pairs & Hsrc & Hnorm & _ & _ & -> & Hall).
  exists src, norm. split; [exact Hsrc|]. split; [exact Hnorm|].
  clear Hsrc Hnorm. simpl.
  induction Hall as [|inn p norm pairs Hp _ IH].
  - simpl. repeat split. constructor.
  - destruct IH as (Hm & Hb1 & Hb2 & Hb3).
    destruct Hp as (_ & _ & Hdel & _).
    assert (Hblock :
              Forall (fun d => isinstance_dict (event_of d) = true)
                (deliveries inn) /\
              map dr_batter (snd p) =
                map (event_field "batter") (map event_of (deliveries inn)) /\
              map dr_bowler (snd p) =
                map (event_field "bowler") (map event_of (deliveries inn)) /\
              map dr_non_striker (snd p) =
                map (event_field "non_striker") (map event_of (deliveries inn))).
    { clear - Hdel. induction Hdel as [|d r ds block Hr _ IH'].
      - repeat split. constructor.
      - destruct IH' as (Hf & H1 & H2 & H3).
        destruct Hr as (ev & Hev & _ & _ & Hbat & Hbowl & Hns & _).
        cbn [map]. rewrite H1, H2, H3, Hbat, Hbowl, Hns, Hev.
        repeat split. constructor; [rewrite Hev; reflexivity | exact Hf]. }
    destruct Hblock as (Hf & H1 & H2 & H3).
    cbn [map List.concat flat_map]. rewrite !map_app, H1, H2, H3, Hb1, Hb2, Hb3.
    repeat split. constructor; assumption.
Qed.

Lemma player_columns_copy_the_event_witness :
  exists mr irows drows,
    parse_match_json fromisoformat_ymd (encode_v2 sample_match) "x.json"
      = Ok (mr, irows, drows) /\
    map dr_non_striker drows =
      [JStr "R"; JStr "R"; JStr "R"; JNull; JStr "R"; JStr "R"].
Proof.
  destruct (parse_match_json fromisoformat_ymd (encode_v2 sample_match) "x.json")
    as [[[mr irows] drows]|e] eqn:E; [|vm_compute in E; discriminate].
  exists mr, irows, drows. split; [reflexivity|].
  destruct (player_columns_copy_the_event _ _ _ _ _ _ E)
    as (src & norm & Hsrc & Hnorm & _ & _ & _ & Hns).
  vm_compute in Hsrc. injection Hsrc as <-.
  vm_compute in Hnorm. injection Hnorm as <-.
  exact Hns.
Defined.

(** X11. The bowling team of every Innings row and Delivery row is one
    of the two teams of the Match row; when these are two strings, an inning
    batted by the first is bowled by the second, and, the names being
    different, an inning batted by the second is bowled by the first. *)
Theorem bowling_team_is_the_other fromisoformat j match_path mr irows drows :
  parse_match_json fromisoformat j match_path = Ok (mr, irows, drows) ->
  Forall (fun r => ir_bowling_team r = mr_team1 mr \/
                   ir_bowling_team r = mr_team2 mr) irows /\
  Forall (fun d => dr_bowling_team d = mr_team1 mr \/
                   dr_bowling_team d = mr_team2 mr) drows /\
  forall a b,
    mr_team1 mr = JStr a -> mr_team2 mr = JStr b ->
    Forall (fun r =>
              (ir_batting_team r = JStr a -> ir_bowling_team r = JStr b) /\
              (a <> b -> ir_batting_team r = JStr b ->
               ir_bowling_team r = JStr a)) irows.
Proof.
  intros H. apply parse_match_json_blocks in H.
  destruct H as (src & norm & pairs & _ & _ & _ & -> & -> & Hall).
  induction Hall as [|inn p norm pairs Hp _ IH].
  - simpl. split; [constructor | split; [constructor | intros; constructor]].
  - destruct IH as (Hi & Hd & Hab).
    destruct Hp as (Hrow & Hteams & _).
    destruct Hrow as (_ & _ & Hbat & Hbowl & _).
    cbn [map List.concat]. split; [|split].
    + constructor; [|exact Hi]. rewrite Hbowl.
      destruct (py_eq (team inn) (mr_team1 mr)); auto.
    + apply Forall_app. split; [|exact Hd].
      eapply Forall_impl; [|exact Hteams].
      intros d (_ & _ & _ & Hb & _). rewrite Hb.
      destruct (py_eq (team inn) (mr_team1 mr)); auto.
    + intros a b Ha Hb. constructor; [|apply (Hab a b Ha Hb)].
      rewrite Hbowl, Hbat, Ha, Hb. split.
      * intros ->. simpl. rewrite String.eqb_refl. reflexivity.
      * intros Hne ->. simpl.
        destruct (String.eqb b a) eqn:E; [|reflexivity].
        apply String.eqb_eq in E. congruence.
Qed.

Lemma bowling_team_is_the_other_witness :
  exists mr irows drows,
    parse_match_json fromisoformat_ymd (encode_v2 sample_match) "x.json"
      = Ok (mr, irows, drows) /\
    Forall (fun r =>
              (ir_batting_team r = JStr "A" -> ir_bowling_team r = JStr "B") /\
              ("A" <> "B" -> ir_batting_team r = JStr "B" ->
               ir_bowling_team r = JStr "A")) irows.
Proof.
  destruct (parse_match_json fromisoformat_ymd (encode_v2 sample_match) "x.json")
    as [[[mr irows] drows]|e] eqn:E; [|vm_compute in E; discriminate].
  exists mr, irows, drows. split; [reflexivity|].
  destruct (bowling_team_is_the_other _ _ _ _ _ _ E) as (_ & _ & Hab).
  apply Hab.
  - assert (E' := E). vm_compute in E'. injection E' as <- _ _. reflexivity.
  - assert (E' := E). vm_compute in E'. injection E' as <- _ _. reflexivity.
Defined.

(** * Paths and the match id *)

Lemma split_dot_app_all a b :
  split_dot (a ++ String dot b) = (split_dot a ++ split_dot b)%list.
Proof.
  induction a as [|c a IH]; [reflexivity|].
  cbn [append split_dot]. rewrite IH.
  destruct (Ascii.eqb c dot); [reflexivity|].
  pose proof (split_dot_nonempty a) as Hne.
  destruct (split_dot a) as [|p ps]; [contradiction | reflexivity].
Qed.

Lemma concat_cons_nonempty sep x y l :
  String.concat sep (x :: y :: l) = x ++ sep ++ String.concat sep (y :: l).
Proof. reflexivity. Qed.

(** Joining the pieces of a split gives the string back. *)
Lemma concat_split_dot s : String.concat "." (split_dot s) = s.
Proof.
  induction s as [|c s IH]; [reflexivity|].
  cbn [split_dot]. pose proof (split_dot_nonempty s) as Hne.
  destruct (Ascii.eqb c dot) eqn:E.
  - apply Ascii.eqb_eq in E. subst c.
    destruct (split_dot s) as [|p ps]; [contradiction|].
    rewrite concat_cons_nonempty, IH. reflexivity.
  - destruct (split_dot s) as [|p ps]; [contradiction|].
    destruct ps as [|q ps].
    + simpl in IH. subst p. reflexivity.
    + rewrite concat_cons_nonempty. rewrite concat_cons_nonempty in IH.
      rewrite <- IH. reflexivity.
Qed.

Lemma split_dot_has_piece s :
  existsb (fun p => negb (String.eqb p "")) (split_dot s) = negb (all_dots s).
Proof.
  induction s as [|c s IH]; [reflexivity|].
  cbn [split_dot all_dots]. pose proof (split_dot_nonempty s) as Hne.
  destruct (Ascii.eqb c dot).
  - cbn [existsb]. rewrite IH. reflexivity.
  - destruct (split_dot s) as [|p ps]; [contradiction|]. reflexivity.
Qed.

Lemma has_slash_app a b : has_slash (a ++ b) = has_slash a || has_slash b.
Proof.
  induction a as [|c a IH]; [reflexivity|].
  simpl. rewrite IH. apply orb_assoc.
Qed.

Lemma basename_no_slash s : has_slash s = false -> basename s = s.
Proof. destruct s as [|c s]; [reflexivity|]. intros H. cbn [basename]. rewrite H. reflexivity. Qed.

Lemma basename_after_slash dir base :
  has_slash base = false -> basename (dir ++ String "/" base) = base.
Proof.
  intros H. induction dir as [|c dir IH].
  - cbn [append basename has_slash]. rewrite Ascii.eqb_refl. cbn [orb].
    apply basename_no_slash. exact H.
  - cbn [append basename]. rewrite IH.
    assert (Hs : has_slash (String c (dir ++ String "/" base)) = true).
    { cbn [has_slash]. rewrite has_slash_app. cbn [has_slash].
      rewrite Ascii.eqb_refl. rewrite !orb_true_r. reflexivity. }
    rewrite Hs. reflexivity.
Qed.

Lemma basename_has_no_slash s : has_slash (basename s) = false.
Proof.
  induction s as [|c s IH]; [reflexivity|].
  cbn [basename]. destruct (has_slash (String c s)) eqn:E; assumption.
Qed.

(** The name of a file without its last extension. *)
Lemma splitext_root_ext base ext :
  contains_dot ext = false ->
  splitext_root (base ++ String dot ext) =
    if all_dots base then base ++ String dot ext else base.
Proof.
  intros Hext. unfold splitext_root.
  rewrite split_dot_app_all, (split_dot_no_dot ext Hext), removelast_last.
  rewrite split_dot_has_piece, concat_split_dot.
  destruct (all_dots base); reflexivity.
Qed.

Lemma path_stem_file dir name ext :
  has_slash name = false -> has_slash ext = false ->
  contains_dot ext = false ->
  path_stem (dir ++ String "/" (name ++ String dot ext)) =
    if all_dots name then name ++ String dot ext else name.
Proof.
  intros Hn He Hd. unfold path_stem.
  rewrite basename_after_slash.
  - apply splitext_root_ext. exact Hd.
  - rewrite has_slash_app. cbn [has_slash]. rewrite Hn, He. reflexivity.
Qed.

Lemma py_or_default_dict d k :
  py_or (match lookup k d with Some x => x | None => JObj [] end) (JObj []) =
  py_or (field k d) (JObj []).
Proof. unfold field. destruct (lookup k d); reflexivity. Qed.

Lemma py_get_event_field v k x :
  py_get v k JNull = Ok x -> x = event_field k v.
Proof. destruct v; simpl; intros H; try discriminate. inversion H. reflexivity. Qed.

(** The Match row of a finished transform, read off the [info] mapping. *)
Lemma parse_match_json_row fromisoformat j match_path mr irows drows :
  parse_match_json fromisoformat j match_path = Ok (mr, irows, drows) ->
  exists info teams,
    py_get j "info" (JObj []) = Ok (JObj info) /\
    field_or_empty "teams" info = JList teams /\
    mr =
      {| mr_match_id :=
           if truthy (field "match_id" info) then field "match_id" info
           else JStr (path_stem match_path);
         mr_match_type := field "match_type" info;
         mr_match_date := normalize_date fromisoformat (field "dates" info);
         mr_venue := field "venue" info;
         mr_city := field "city" info;
         mr_country := py_or (field "country" info) JNull;
         mr_team1 := nth 0 teams JNull;
         mr_team2 := nth 1 teams JNull;
         mr_toss_winner :=
           event_field "winner" (py_or (field "toss" info) (JObj []));
         mr_toss_decision :=
           event_field "decision" (py_or (field "toss" info) (JObj []));
         mr_winner :=
           event_field "winner" (py_or (field "outcome" info) (JObj []));
         mr_result :=
           event_field "result" (py_or (field "outcome" info) (JObj []));
         mr_margin := JNull |}.
Proof.
  unfold parse_match_json. intros H.
  bind_inv H as info Hinfo.
  bind_inv H as match_type Htype. apply py_get_ok in Htype.
  destruct Htype as (d & -> & ->).
  rewrite !py_get_obj in H. cbn [bind] in H.
  bind_inv H as padded Hpad.
  bind_inv H as sliced Hslice.
  bind_inv H as tt Hunpack. destruct tt as [team1 team2].
  unfold extract_country_from_venue in H. rewrite !py_get_obj in H.
  cbn [bind] in H. rewrite !py_or_default_dict in H.
  bind_inv H as toss_winner Htw. apply py_get_event_field in Htw.
  bind_inv H as toss_decision Htd. apply py_get_event_field in Htd.
  bind_inv H as winner Hwin. apply py_get_event_field in Hwin.
  bind_inv H as res Hres. apply py_get_event_field in Hres.
  bind_inv H as innings_src Hsrc. bind_inv H as norm Hnorm.
  bind_inv H as rows Hrows. destruct rows as [irows' drows'].
  inversion H; subst mr irows' drows'; clear H.
  assert (Hteams : exists teams,
             field_or_empty "teams" d = JList teams /\
             team1 = nth 0 teams JNull /\ team2 = nth 1 teams JNull).
  { unfold py_add in Hpad. unfold field_or_empty.
    destruct (match lookup "teams" d with Some x => x | None => JList [] end)
      as [| | | |ts|]; simpl in Hpad; try discriminate.
    inversion Hpad; subst padded. simpl in Hslice.
    inversion Hslice; subst sliced. exists ts. split; [reflexivity|].
    destruct ts as [|a [|b r]]; simpl in Hunpack; inversion Hunpack; auto. }
  destruct Hteams as (teams & Hteams & -> & ->).
  exists d, teams. split; [exact Hinfo|]. split; [exact Hteams|].
  subst. reflexivity.
Qed.

Lemma string_app_assoc (a b c : string) : (a ++ b) ++ c = a ++ (b ++ c).
Proof. induction a as [|x a IH]; simpl; [|rewrite IH]; reflexivity. Qed.

Lemma ends_with_slash_split a :
  ends_with_slash a = true -> exists dir, a = dir ++ "/".
Proof.
  induction a as [|c a IH]; [discriminate|].
  destruct a as [|c' a'].
  - cbn [ends_with_slash]. intros H. apply Ascii.eqb_eq in H. subst c.
    exists EmptyString. reflexivity.
  - intros H. change (ends_with_slash (String c' a') = true) in H.
    destruct (IH H) as (dir & Hdir). exists (String c dir).
    cbn [append]. rewrite <- Hdir. reflexivity.
Qed.

Lemma basename_path_join out base :
  has_slash base = false -> basename (path_join out base) = base.
Proof.
  intros Hb. unfold path_join.
  assert (Hs : starts_with_slash base = false).
  { destruct base as [|c base]; [reflexivity|].
    cbn [has_slash] in Hb. apply orb_false_iff in Hb. apply Hb. }
  rewrite Hs. destruct (String.eqb out "") eqn:Eo.
  - apply String.eqb_eq in Eo. subst out. cbn [orb append].
    apply basename_no_slash. exact Hb.
  - cbn [orb]. destruct (ends_with_slash out) eqn:Ee.
    + destruct (ends_with_slash_split _ Ee) as (dir & ->).
      rewrite string_app_assoc. apply basename_after_slash. exact Hb.
    + apply basename_after_slash. exact Hb.
Qed.

(** X12. A record without a truthy match id takes its id from the file
    name: read from [dir/name.ext], with no slash in [name] and [ext] and no
    dot in [ext], the match id is [name], or the whole [name.ext] when
    [name] is empty or made of dots; every Innings and Delivery row carries
    this id. *)
Theorem match_id_from_file_name fromisoformat j dir name ext info
  mr irows drows :
  parse_match_json fromisoformat j (dir ++ "/" ++ name ++ "." ++ ext)
    = Ok (mr, irows, drows) ->
  py_get j "info" (JObj []) = Ok (JObj info) ->
  truthy (field "match_id" info) = false ->
  has_slash name = false -> has_slash ext = false ->
  contains_dot ext = false ->
  mr_match_id mr =
    JStr (if all_dots name then name ++ "." ++ ext else name) /\
  Forall (fun r => ir_match_id r = mr_match_id mr) irows /\
  Forall (fun r => dr_match_id r = mr_match_id mr) drows.
Proof.
  intros H Hinfo Hid Hn He Hd. split.
  - apply parse_match_json_row in H.
    destruct H as (info' & teams & Hinfo' & _ & ->).
    rewrite Hinfo in Hinfo'. injection Hinfo' as <-.
    cbn [mr_match_id]. rewrite Hid. f_equal.
    apply (path_stem_file dir name ext Hn He Hd).
  - apply parse_match_json_blocks in H.
    destruct H as (src & norm & pairs & _ & _ & _ & -> & -> & Hall).
    apply (blocks_maps _ _ _ _ _ Hall).
Qed.

Lemma match_id_from_file_name_witness :
  exists mr irows drows,
    parse_match_json fromisoformat_ymd doc_without_id
      ("./cricsheet_sample" ++ "/" ++ "1234" ++ "." ++ "json")
      = Ok (mr, irows, drows) /\
    mr_match_id mr = JStr "1234" /\
    Forall (fun r => dr_match_id r = mr_match_id mr) drows.
Proof.
  destruct (parse_match_json fromisoformat_ymd doc_without_id
              ("./cricsheet_sample" ++ "/" ++ "1234" ++ "." ++ "json"))
    as [[[mr irows] drows]|e] eqn:E; [|vm_compute in E; discriminate].
  exists mr, irows, drows. split; [reflexivity|].
  destruct (match_id_from_file_name fromisoformat_ymd doc_without_id
              "./cricsheet_sample" "1234" "json"
              [("teams", JList [JStr "A"; JStr "B"])] mr irows drows E
              eq_refl eq_refl eq_refl eq_refl eq_refl) as (Hid & _ & Hd).
  split; [exact Hid | exact Hd].
Defined.

(** X13. The path matters only through the file name without its
    extension, and not at all for a record with a truthy match id: two
    paths with the same stem give the same result; and the path the script
    builds from the output folder and an archive entry has the stem of the
    entry, whatever the folder. *)
Theorem path_only_names_the_match fromisoformat j p1 p2 :
  (path_stem p1 = path_stem p2 ->
   parse_match_json fromisoformat j p1 = parse_match_json fromisoformat j p2) /\
  (forall info,
      py_get j "info" (JObj []) = Ok (JObj info) ->
      truthy (field "match_id" info) = true ->
      parse_match_json fromisoformat j p1 = parse_match_json fromisoformat j p2) /\
  (forall out name,
      path_stem (out_json_path out name) = path_stem name).
Proof.
  split; [|split].
  - unfold path_stem, parse_match_json. intros H. rewrite H. reflexivity.
  - intros info Hinfo Hid. unfold parse_match_json. rewrite Hinfo.
    cbn [bind]. rewrite !py_get_obj. cbn [bind].
    unfold field in Hid. rewrite Hid. reflexivity.
  - intros out name. unfold path_stem, out_json_path.
    rewrite basename_path_join by apply basename_has_no_slash.
    reflexivity.
Qed.

Lemma path_only_names_the_match_witness :
  parse_match_json fromisoformat_ymd doc_third_team "a/b.json" =
  parse_match_json fromisoformat_ymd doc_third_team "c/d/e.json" /\
  parse_match_json fromisoformat_ymd doc_without_id "out/1234.json" =
  parse_match_json fromisoformat_ymd doc_without_id "zip/dir/1234.json".
Proof.
  split.
  - apply (proj1 (proj2 (path_only_names_the_match fromisoformat_ymd
                           doc_third_team "a/b.json" "c/d/e.json"))
             [("match_id", JStr "m1"); ("teams", JList [JStr "A"; JStr "B"])]);
      reflexivity.
  - apply (proj1 (path_only_names_the_match fromisoformat_ymd doc_without_id
                    "out/1234.json" "zip/dir/1234.json")).
    reflexivity.
Defined.

(** X14. A malformed record loses the whole match: a record that is no
    mapping, or whose [info] is no mapping, raises [AttributeError]; an
    [info] whose [teams] is present and no list (null too) raises
    [TypeError]; with [teams] a list or absent, a truthy [toss] or a truthy
    [outcome] that is no mapping raises [AttributeError], whatever the
    other of the two is. *)
Theorem malformed_record_raises fromisoformat match_path :
  (forall j,
      isinstance_dict j = false ->
      parse_match_json fromisoformat j match_path = Raise AttributeError) /\
  (forall d info,
      lookup "info" d = Some info -> isinstance_dict info = false ->
      parse_match_json fromisoformat (JObj d) match_path = Raise AttributeError) /\
  (forall d info teams,
      lookup "info" d = Some (JObj info) ->
      lookup "teams" info = Some teams ->
      (forall l, teams <> JList l) ->
      parse_match_json fromisoformat (JObj d) match_path = Raise TypeError) /\
  (forall d info teams section,
      lookup "info" d = Some (JObj info) ->
      field_or_empty "teams" info = JList teams ->
      field "toss" info = section \/ field "outcome" info = section ->
      truthy section = true -> isinstance_dict section = false ->
      parse_match_json fromisoformat (JObj d) match_path = Raise AttributeError).
Proof.
  split; [|split; [|split]].
  - intros j Hj. unfold parse_match_json.
    destruct j; try reflexivity. discriminate.
  - intros d info Hinfo Hd. unfold parse_match_json.
    rewrite py_get_obj, Hinfo. cbn [bind].
    destruct info; try reflexivity. discriminate.
  - intros d info teams Hinfo Hteams Hl. unfold parse_match_json.
    rewrite py_get_obj, Hinfo. cbn [bind]. rewrite !py_get_obj. cbn [bind].
    rewrite Hteams.
    destruct teams; try reflexivity. exfalso. apply (Hl l). reflexivity.
  - intros d info teams section Hinfo Hteams Hsec Ht Hd.
    unfold parse_match_json.
    rewrite py_get_obj, Hinfo. cbn [bind]. rewrite !py_get_obj. cbn [bind].
    unfold field_or_empty in Hteams. rewrite Hteams.
    cbn [py_add as_int bind py_slice2].
    assert (Hu : exists t1 t2,
               unpack2 (firstn 2 (teams ++ [JNull; JNull])) = Ok (t1, t2)).
    { destruct teams as [|a [|b r]]; simpl; eauto. }
    destruct Hu as (t1 & t2 & Hu). rewrite Hu. cbn [bind].
    unfold extract_country_from_venue. rewrite !py_get_obj. cbn [bind].
    rewrite !py_or_default_dict.
    assert (Hraise : forall k,
               py_get (py_or section (JObj [])) k JNull = Raise AttributeError).
    { intros k. unfold py_or. rewrite Ht. destruct section; try reflexivity.
      discriminate. }
    assert (Htoss : (exists td, py_or (field "toss" info) (JObj []) = JObj td) \/
                    (forall k, py_get (py_or (field "toss" info) (JObj [])) k JNull
                               = Raise AttributeError)).
    { unfold py_or. destruct (truthy (field "toss" info)); [|left; eauto].
      destruct (field "toss" info); try (right; reflexivity). left. eauto. }
    destruct Hsec as [Hs | Hs].
    + rewrite Hs, Hraise. reflexivity.
    + destruct Htoss as [(td & Htd) | Hr].
      * rewrite Htd. rewrite !py_get_obj. cbn [bind].
        rewrite Hs, Hraise. reflexivity.
      * rewrite Hr. reflexivity.
Qed.

Lemma malformed_record_raises_witness :
  parse_match_json fromisoformat_ymd (JList []) "x.json" = Raise AttributeError /\
  parse_match_json fromisoformat_ymd (JObj [("info", JStr "?")]) "x.json"
    = Raise AttributeError /\
  parse_match_json fromisoformat_ymd
    (JObj [("info", JObj [("teams", JNull)])]) "x.json" = Raise TypeError /\
  parse_match_json fromisoformat_ymd
    (JObj [("info", JObj [("outcome", JStr "no result")])]) "x.json"
    = Raise AttributeError /\
  parse_match_json fromisoformat_ymd
    (JObj [("info", JObj [("toss", JObj [("winner", JStr "A")]);
                          ("outcome", JStr "no result")])]) "x.json"
    = Raise AttributeError.
Proof.
  destruct (malformed_record_raises fromisoformat_ymd "x.json")
    as (H1 & H2 & H3 & H4).
  split; [|split; [|split; [|split]]].
  - apply H1. reflexivity.
  - apply (H2 _ (JStr "?")); reflexivity.
  - apply (H3 _ [("teams", JNull)] JNull); try reflexivity. discriminate.
  - apply (H4 _ [("outcome", JStr "no result")] [] (JStr "no result"));
      try reflexivity.
    right. reflexivity.
  - apply (H4 _ [("toss", JObj [("winner", JStr "A")]);
                 ("outcome", JStr "no result")] [] (JStr "no result"));
      try reflexivity.
    right. reflexivity.
Defined.

(** X15. A mapping without [info] and [innings] gives a Match row of
    nulls whose id is the file stem, and no other row.  When the transform
    returns: a missing or falsy [toss] or [outcome] gives null toss or
    outcome columns, a missing date gives a null date, the country is null
    or truthy (an empty string becomes null), and the margin is null. *)
Theorem sparse_record_gives_nulls fromisoformat match_path :
  (forall d,
      lookup "info" d = None -> lookup "innings" d = None ->
      parse_match_json fromisoformat (JObj d) match_path =
      Ok (null_match_row (JStr (path_stem match_path)), [], [])) /\
  (forall j mr irows drows,
      parse_match_json fromisoformat j match_path = Ok (mr, irows, drows) ->
      exists info,
        py_get j "info" (JObj []) = Ok (JObj info) /\
        (truthy (field "toss" info) = false ->
         mr_toss_winner mr = JNull /\ mr_toss_decision mr = JNull) /\
        (truthy (field "outcome" info) = false ->
         mr_winner mr = JNull /\ mr_result mr = JNull) /\
        (lookup "dates" info = None -> mr_match_date mr = JNull) /\
        (mr_country mr = JNull \/ truthy (mr_country mr) = true) /\
        mr_margin mr = JNull).
Proof.
  split.
  - intros d Hinfo Hinn. unfold parse_match_json.
    rewrite !py_get_obj, Hinfo, Hinn. reflexivity.
  - intros j mr irows drows H. apply parse_match_json_row in H.
    destruct H as (info & teams & Hinfo & _ & ->). exists info.
    split; [exact Hinfo|]. cbn.
    repeat match goal with |- _ /\ _ => split end.
    + intros Ht. unfold py_or. rewrite Ht. split; reflexivity.
    + intros Ht. unfold py_or. rewrite Ht. split; reflexivity.
    + intros Hd. unfold field. rewrite Hd. reflexivity.
    + unfold py_or. destruct (truthy (field "country" info)) eqn:E; auto.
    + reflexivity.
Qed.

Lemma sparse_record_gives_nulls_witness :
  parse_match_json fromisoformat_ymd (JObj []) "zip/335982.json" =
  Ok (null_match_row (JStr "335982"), [], []) /\
  exists mr irows drows,
    parse_match_json fromisoformat_ymd
      (JObj [("info", JObj [("toss", JNull); ("country", JStr "")])]) "x.json"
      = Ok (mr, irows, drows) /\
    mr_toss_winner mr = JNull /\ mr_country mr = JNull.
Proof.
  destruct (sparse_record_gives_nulls fromisoformat_ymd "zip/335982.json")
    as [Hempty _].
  split; [apply (Hempty []); reflexivity|].
  destruct (parse_match_json fromisoformat_ymd
              (JObj [("info", JObj [("toss", JNull); ("country", JStr "")])])
              "x.json")
    as [[[mr irows] drows]|e] eqn:E; [|vm_compute in E; discriminate].
  exists mr, irows, drows. split; [reflexivity|].
  destruct (proj2 (sparse_record_gives_nulls fromisoformat_ymd "x.json")
              _ _ _ _ E) as (info & Hinfo & Htoss & _ & _ & Hcountry & _).
  vm_compute in Hinfo. injection Hinfo as <-.
  split; [apply Htoss; reflexivity|].
  assert (E' := E). vm_compute in E'. injection E' as <- _ _. reflexivity.
Defined.

(** * Selection of the sample files *)

Lemma string_compare_trans : forall a b c,
  String.compare a b <> Gt -> String.compare b c <> Gt ->
  String.compare a c <> Gt.
Proof.
  induction a as [|x a IH]; intros [|y b] [|z c]; simpl; intros Hab Hbc;
    try discriminate; try congruence.
  unfold Ascii.compare in *.
  destruct (N.compare_spec (N_of_ascii x) (N_of_ascii y)) as [Exy|Lxy|Gxy];
    destruct (N.compare_spec (N_of_ascii y) (N_of_ascii z)) as [Eyz|Lyz|Gyz];
    destruct (N.compare_spec (N_of_ascii x) (N_of_ascii z)) as [Exz|Lxz|Gxz];
    try congruence; try discriminate; try lia.
  eapply IH; eassumption.
Qed.

Lemma leb_trans a b c :
  String.leb a b = true -> String.leb b c = true -> String.leb a c = true.
Proof.
  unfold String.leb. intros Hab Hbc.
  pose proof (string_compare_trans a b c) as H.
  destruct (String.compare a b); try discriminate;
    destruct (String.compare b c); try discriminate;
    destruct (String.compare a c); try reflexivity;
    exfalso; apply H; congruence.
Qed.

Lemma insert_sorted_perm x l : Permutation (x :: l) (insert_sorted x l).
Proof.
  induction l as [|y l IH]; simpl; [reflexivity|].
  destruct (String.leb x y); [reflexivity|].
  rewrite perm_swap. constructor. exact IH.
Qed.

Lemma py_sorted_perm l : Permutation l (py_sorted l).
Proof.
  induction l as [|x l IH]; simpl; [reflexivity|].
  rewrite <- insert_sorted_perm. constructor. exact IH.
Qed.

Lemma insert_sorted_sorted x l :
  StronglySorted le_string l -> StronglySorted le_string (insert_sorted x l).
Proof.
  induction 1 as [|y l' Hs IH Hall]; simpl.
  - constructor; constructor.
  - destruct (String.leb x y) eqn:E.
    + constructor; [constructor; assumption|].
      constructor; [exact E|].
      eapply Forall_impl; [|exact Hall]. intros z Hz.
      apply (leb_trans x y z E Hz).
    + constructor; [exact IH|].
      eapply Permutation_Forall; [apply insert_sorted_perm|].
      constructor; [|exact Hall].
      destruct (String.leb_total x y) as [H|H]; [congruence | exact H].
Qed.

Lemma py_sorted_sorted l : StronglySorted le_string (py_sorted l).
Proof.
  induction l as [|x l IH]; simpl; [constructor|].
  apply insert_sorted_sorted. exact IH.
Qed.

Lemma strongly_sorted_app_le (l1 l2 : list string) :
  StronglySorted le_string (l1 ++ l2) ->
  forall a b, In a l1 -> In b l2 -> le_string a b.
Proof.
  induction l1 as [|x l1 IH]; simpl; intros Hs a b Ha Hb; [contradiction|].
  inversion Hs as [|y l Hs' Hall]; subst.
  destruct Ha as [->|Ha].
  - rewrite Forall_forall in Hall. apply Hall. apply in_or_app. right. exact Hb.
  - apply (IH Hs' a b Ha Hb).
Qed.

Lemma strongly_sorted_firstn n (l : list string) :
  StronglySorted le_string l -> StronglySorted le_string (firstn n l).
Proof.
  intros Hs. rewrite <- (firstn_skipn n l) in Hs.
  revert Hs. generalize (firstn n l) as l1.
  induction l1 as [|x l1 IH]; simpl; intros Hs; [constructor|].
  inversion Hs as [|y l' Hs' Hall]; subst. constructor; [apply IH; exact Hs'|].
  apply Forall_app in Hall. apply Hall.
Qed.

Lemma collect_loop bytes (read : string -> result bytes) : forall names acc out,
  for_each (collect_entry bytes read) acc names = Ok out ->
  exists new,
    out = (acc ++ new)%list /\
    map fst new = names /\
    Forall (fun p => read (fst p) = Ok (snd p)) new.
Proof.
  induction names as [|n names IH]; intros acc out H.
  - inversion H; subst. exists []. rewrite app_nil_r. repeat split. constructor.
  - cbn [for_each] in H. bind_inv H as s1 Hs1.
    unfold collect_entry in Hs1. bind_inv Hs1 as content Hc.
    inversion Hs1; subst s1; clear Hs1.
    destruct (IH _ _ H) as (new & -> & Hnames & Hall).
    exists ((n, content) :: new). rewrite <- app_assoc.
    split; [reflexivity|]. split; [simpl; f_equal; exact Hnames|].
    constructor; assumption.
Qed.

(** X16. The sample selection returns entries of the archive whose name
    ends in [.json] in any letter case, in ascending order of name, each
    with the content the archive reads for it; for a count that is not
    negative it returns the smaller of the count and the number of such
    names, and every such name left out is not below any name returned. *)
Theorem collect_sample_files_selects bytes namelist
  (read : string -> result bytes) sample_n out :
  collect_sample_files bytes namelist read sample_n = Ok out ->
  let candidates := filter is_json_name namelist in
  map fst out = py_slice_to sample_n (py_sorted candidates) /\
  Forall (fun n => is_json_name n = true /\ In n namelist) (map fst out) /\
  StronglySorted le_string (map fst out) /\
  Forall (fun p => read (fst p) = Ok (snd p)) out /\
  (0 <= sample_n ->
   List.length out = Nat.min (Z.to_nat sample_n) (List.length candidates) /\
   forall a b,
     In a (map fst out) -> In b candidates -> ~ In b (map fst out) ->
     le_string a b).
Proof.
  unfold collect_sample_files. intros H.
  apply collect_loop in H. destruct H as (new & -> & Hnames & Hread).
  cbn [app]. cbv zeta.
  set (candidates := filter is_json_name namelist) in *.
  assert (Hfirst : exists k, map fst new = firstn k (py_sorted candidates)).
  { rewrite Hnames. unfold py_slice_to.
    destruct (0 <=? sample_n); eexists; reflexivity. }
  destruct Hfirst as (k & Hk).
  split; [exact Hnames|]. split; [|split; [|split; [exact Hread|]]].
  - rewrite Hk. apply Forall_forall. intros n Hn.
    assert (Hin : In n candidates).
    { eapply Permutation_in; [symmetry; apply py_sorted_perm|].
      rewrite <- (firstn_skipn k (py_sorted candidates)).
      apply in_or_app. left. exact Hn. }
    unfold candidates in Hin. apply filter_In in Hin.
    destruct Hin as [Hin Hj]. split; assumption.
  - rewrite Hk. apply strongly_sorted_firstn. apply py_sorted_sorted.
  - intros Hpos. apply Z.leb_le in Hpos. split.
    + rewrite <- (length_map fst), Hnames. unfold py_slice_to.
      rewrite Hpos, length_firstn.
      rewrite <- (Permutation_length (py_sorted_perm candidates)). reflexivity.
    + intros a b Ha Hb Hnot. rewrite Hnames in Ha, Hnot.
      unfold py_slice_to in Ha, Hnot. rewrite Hpos in Ha, Hnot.
      eapply (strongly_sorted_app_le
                (firstn (Z.to_nat sample_n) (py_sorted candidates))
                (skipn (Z.to_nat sample_n) (py_sorted candidates))).
      * rewrite firstn_skipn. apply py_sorted_sorted.
      * exact Ha.
      * assert (Hin : In b (py_sorted candidates))
          by (eapply Permutation_in; [apply py_sorted_perm | exact Hb]).
        rewrite <- (firstn_skipn (Z.to_nat sample_n)) in Hin.
        apply in_app_or in Hin. destruct Hin as [Hin|Hin];
          [contradiction | exact Hin].
Qed.

Lemma collect_sample_files_selects_witness :
  exists out,
    collect_sample_files string
      ["t/2.json"; "README.txt"; "t/10.JSON"; "t/1.json"]
      (fun n => Ok ("bytes of " ++ n)) 2 = Ok out /\
    map fst out = ["t/1.json"; "t/10.JSON"] /\
    List.length out = 2%nat /\
    StronglySorted le_string (map fst out).
Proof.
  destruct (collect_sample_files string
              ["t/2.json"; "README.txt"; "t/10.JSON"; "t/1.json"]
              (fun n => Ok ("bytes of " ++ n)) 2)
    as [out|e] eqn:E; [|vm_compute in E; discriminate].
  exists out. split; [reflexivity|].
  destruct (collect_sample_files_selects _ _ _ _ _ E)
    as (Hnames & _ & Hsorted & _ & Hlen).
  split; [exact Hnames|]. split; [|exact Hsorted].
  apply Hlen. discriminate.
Defined.

(** * Loading one sample *)

Section LoadingFacts.

Variable fromisoformat : string -> option date.
Variable bytes : Type.
Variable loads : bytes -> result json.
Variable db : Type.
Variable execute : db_call -> db -> db * option exn.

Lemma run_calls_app l1 : forall l2 con,
  run_calls db execute (l1 ++ l2) con =
  and_then db (run_calls db execute l1) (run_calls db execute l2) con.
Proof.
  induction l1 as [|c l1 IH]; intros l2 con; [reflexivity|].
  unfold and_then. cbn [app run_calls].
  destruct (call db execute c con) as [con' [u|e]]; [|reflexivity].
  rewrite IH. reflexivity.
Qed.

Lemma and_then_ext a a' b b' con :
  (forall c, a c = a' c) -> (forall c, b c = b' c) ->
  and_then db a b con = and_then db a' b' con.
Proof.
  intros Ha Hb. unfold and_then. rewrite Ha.
  destruct (a' con) as [con' [u|e]]; [apply Hb | reflexivity].
Qed.

Lemma run_calls_one c con :
  run_calls db execute [c] con = call db execute c con.
Proof.
  cbn [run_calls]. destruct (call db execute c con) as [con' [[]|e]];
    reflexivity.
Qed.

Lemma upsert_team_calls t con :
  upsert_team db execute t con =
  run_calls db execute (map InsertIgnoreTeam (filter truthy [t])) con.
Proof.
  unfold upsert_team. cbn [filter]. destruct (truthy t); cbn [negb map].
  - symmetry. apply run_calls_one.
  - reflexivity.
Qed.

Lemma insert_match_calls row con :
  insert_match db execute row con = run_calls db execute [ReplaceMatch row] con.
Proof. symmetry. apply run_calls_one. Qed.

Lemma insert_rows_calls irows drows con :
  and_then db (insert_innings db execute irows)
    (insert_deliveries db execute drows) con =
  run_calls db execute (row_calls irows drows) con.
Proof.
  unfold row_calls. rewrite run_calls_app. apply and_then_ext.
  - intros c. destruct irows; [reflexivity|]. symmetry. apply run_calls_one.
  - intros c. destruct drows; [reflexivity|]. symmetry. apply run_calls_one.
Qed.

Lemma filter_truthy_4 (t1 t2 t3 t4 : json) :
  map InsertIgnoreTeam (filter truthy [t1; t2; t3; t4]) =
  (map InsertIgnoreTeam (filter truthy [t1]) ++
   map InsertIgnoreTeam (filter truthy [t2]) ++
   map InsertIgnoreTeam (filter truthy [t3]) ++
   map InsertIgnoreTeam (filter truthy [t4]))%list.
Proof.
  cbn [filter]. destruct (truthy t1), (truthy t2), (truthy t3), (truthy t4);
    reflexivity.
Qed.

(** The actions of the [try] statement after the parse, as the list of
    their statements. *)
Lemma load_actions_calls mr irows drows con :
  and_then db (upsert_team db execute (mr_team1 mr))
    (and_then db (upsert_team db execute (mr_team2 mr))
       (and_then db (upsert_team db execute (mr_toss_winner mr))
          (and_then db (upsert_team db execute (mr_winner mr))
             (and_then db (insert_match db execute mr)
                (and_then db (insert_innings db execute irows)
                   (insert_deliveries db execute drows)))))) con =
  run_calls db execute (sample_calls (mr, irows, drows)) con.
Proof.
  unfold sample_calls, team_calls. rewrite filter_truthy_4.
  rewrite <- !app_assoc.
  rewrite run_calls_app. apply and_then_ext; [apply upsert_team_calls|].
  intros c1. rewrite run_calls_app.
  apply and_then_ext; [apply upsert_team_calls|].
  intros c2. rewrite run_calls_app.
  apply and_then_ext; [apply upsert_team_calls|].
  intros c3. rewrite run_calls_app.
  apply and_then_ext; [apply upsert_team_calls|].
  intros c4. change (ReplaceMatch mr :: row_calls irows drows)
    with ([ReplaceMatch mr] ++ row_calls irows drows)%list.
  rewrite run_calls_app. apply and_then_ext; [apply insert_match_calls|].
  intros c5. apply insert_rows_calls.
Qed.

(** X17. Loading one sample: when decoding or parsing raises, the
    database stays as it was and the failure is reported; otherwise the
    database receives, in this order and until one raises, the upserts of
    the truthy names among team1, team2, toss winner and winner, the Match
    row, the Innings rows unless there are none and the Delivery rows unless
    there are none. *)
Theorem load_sample_runs_calls fbytes out_json_path con :
  (forall e,
      (j <- loads fbytes ;; parse_match_json fromisoformat j out_json_path)
        = Raise e ->
      load_sample fromisoformat bytes loads db execute fbytes out_json_path con
        = (con, Failed e)) /\
  (forall mr irows drows,
      (j <- loads fbytes ;; parse_match_json fromisoformat j out_json_path)
        = Ok (mr, irows, drows) ->
      load_sample fromisoformat bytes loads db execute fbytes out_json_path con =
      match run_calls db execute (sample_calls (mr, irows, drows)) con with
      | (con', Ok _) =>
          (con', Loaded (mr_match_id mr) (List.length irows) (List.length drows))
      | (con', Raise e) => (con', Failed e)
      end).
Proof.
  split.
  - intros e H. unfold load_sample. rewrite H. reflexivity.
  - intros mr irows drows H. unfold load_sample. rewrite H.
    rewrite load_actions_calls. reflexivity.
Qed.

End LoadingFacts.

(** The database that records the statements it receives. *)
Lemma load_sample_runs_calls_witness :
  load_sample fromisoformat_ymd string (fun _ => Ok doc_one_team)
    (list db_call) (fun c con => ((con ++ [c])%list, None))
    "{...}" "out/m2.json" [] =
  ([InsertIgnoreTeam (JStr "A");
    ReplaceMatch
      {| mr_match_id := JStr "m2"; mr_match_type := JNull;
         mr_match_date := JNull; mr_venue := JNull; mr_city := JNull;
         mr_country := JNull; mr_team1 := JStr "A"; mr_team2 := JNull;
         mr_toss_winner := JNull; mr_toss_decision := JNull;
         mr_winner := JNull; mr_result := JNull; mr_margin := JNull |};
    InsertInnings
      [ {| ir_match_id := JStr "m2"; ir_inning_number := 1;
           ir_batting_team := JStr "A"; ir_bowling_team := JNull;
           ir_runs := JInt 0; ir_wickets := 0; ir_overs := Some 0%float |};
        {| ir_match_id := JStr "m2"; ir_inning_number := 2;
           ir_batting_team := JStr "Z"; ir_bowling_team := JStr "A";
           ir_runs := JInt 0; ir_wickets := 0; ir_overs := Some 0%float |} ]],
   Loaded (JStr "m2") 2 0) /\
  load_sample fromisoformat_ymd string (fun _ => Raise ValueError)
    (list db_call) (fun c con => ((con ++ [c])%list, None))
    "not json" "out/bad.json" [ReplaceMatch (null_match_row (JStr "old"))] =
  ([ReplaceMatch (null_match_row (JStr "old"))], Failed ValueError).
Proof.
  split.
  - destruct (parse_match_json fromisoformat_ymd doc_one_team "out/m2.json")
      as [[[mr irows] drows]|e] eqn:E; [|vm_compute in E; discriminate].
    rewrite (proj2 (load_sample_runs_calls fromisoformat_ymd string
                      (fun _ => Ok doc_one_team) (list db_call)
                      (fun c con => ((con ++ [c])%list, None))
                      "{...}" "out/m2.json" []) mr irows drows)
      by exact E.
    vm_compute in E. injection E as <- <- <-. vm_compute. reflexivity.
  - apply (proj1 (load_sample_runs_calls fromisoformat_ymd string
                    (fun _ => Raise ValueError) (list db_call)
                    (fun c con => ((con ++ [c])%list, None))
                    "not json" "out/bad.json"
                    [ReplaceMatch (null_match_row (JStr "old"))])).
    reflexivity.
Defined.

(** X18. The upserts that precede the Match row cover every truthy team
    the Match row names and nothing else, and cover the bowling team of
    every Innings row and Delivery row when it is truthy. *)
Theorem teams_upserted_before_rows fromisoformat j match_path mr irows drows :
  parse_match_json fromisoformat j match_path = Ok (mr, irows, drows) ->
  sample_calls (mr, irows, drows) =
    (team_calls mr ++ ReplaceMatch mr :: row_calls irows drows)%list /\
  (forall t,
      In t [mr_team1 mr; mr_team2 mr; mr_toss_winner mr; mr_winner mr] ->
      truthy t = true -> In (InsertIgnoreTeam t) (team_calls mr)) /\
  (forall c,
      In c (team_calls mr) ->
      exists t,
        c = InsertIgnoreTeam t /\ truthy t = true /\
        In t [mr_team1 mr; mr_team2 mr; mr_toss_winner mr; mr_winner mr]) /\
  Forall (fun r => truthy (ir_bowling_team r) = true ->
                   In (InsertIgnoreTeam (ir_bowling_team r)) (team_calls mr))
    irows /\
  Forall (fun d => truthy (dr_bowling_team d) = true ->
                   In (InsertIgnoreTeam (dr_bowling_team d)) (team_calls mr))
    drows.
Proof.
  intros H.
  assert (Hup : forall t,
             In t [mr_team1 mr; mr_team2 mr; mr_toss_winner mr; mr_winner mr] ->
             truthy t = true -> In (InsertIgnoreTeam t) (team_calls mr)).
  { intros t Hin Ht. unfold team_calls. apply in_map. apply filter_In.
    split; assumption. }
  split; [reflexivity|]. split; [exact Hup|]. split.
  - intros c Hc. unfold team_calls in Hc. apply in_map_iff in Hc.
    destruct Hc as (t & <- & Hin). apply filter_In in Hin.
    destruct Hin as [Hin Ht]. exists t. repeat split; assumption.
  - apply parse_match_json_blocks in H.
    destruct H as (src & norm & pairs & _ & _ & _ & -> & -> & Hall).
    induction Hall as [|inn p norm pairs Hp _ IH]; [split; constructor|].
    destruct IH as [Hi Hd]. destruct Hp as (Hrow & Hteams & _).
    destruct Hrow as (_ & _ & _ & Hbowl & _).
    assert (Hb : forall t,
               t = (if py_eq (team inn) (mr_team1 mr)
                    then mr_team2 mr else mr_team1 mr) ->
               truthy t = true -> In (InsertIgnoreTeam t) (team_calls mr)).
    { intros t -> Ht. apply Hup; [|exact Ht].
      destruct (py_eq (team inn) (mr_team1 mr)); simpl; auto. }
    cbn [map List.concat]. split.
    + constructor; [|exact Hi]. apply Hb. exact Hbowl.
    + apply Forall_app. split; [|exact Hd].
      eapply Forall_impl; [|exact Hteams].
      intros d (_ & _ & _ & Hbd & _). apply Hb. exact Hbd.
Qed.

Lemma teams_upserted_before_rows_witness :
  exists mr irows drows,
    parse_match_json fromisoformat_ymd (encode_v2 sample_match) "x.json"
      = Ok (mr, irows, drows) /\
    team_calls mr = [InsertIgnoreTeam (JStr "A"); InsertIgnoreTeam (JStr "B")] /\
    Forall (fun r => truthy (ir_bowling_team r) = true ->
                     In (InsertIgnoreTeam (ir_bowling_team r)) (team_calls mr))
      irows.
Proof.
  destruct (parse_match_json fromisoformat_ymd (encode_v2 sample_match) "x.json")
    as [[[mr irows] drows]|e] eqn:E; [|vm_compute in E; discriminate].
  exists mr, irows, drows. split; [reflexivity|]. split.
  - assert (E' := E). vm_compute in E'. injection E' as <- _ _. reflexivity.
  - apply (teams_upserted_before_rows _ _ _ _ _ _ E).
Defined.

(** The batting team has no such guarantee: in the match between A and B
    batted by C, no statement upserts C, and the Innings row names it. *)
Example batting_team_not_upserted :
  exists mr irows drows,
    parse_match_json fromisoformat_ymd doc_third_team "m1.json"
      = Ok (mr, irows, drows) /\
    map ir_batting_team irows = [JStr "C"] /\
    ~ In (InsertIgnoreTeam (JStr "C")) (sample_calls (mr, irows, drows)).
Proof.
  eexists. eexists. eexists. split; [vm_compute; reflexivity|].
  split; [vm_compute; reflexivity|].
  vm_compute. intros [H|[H|[H|[H|[H|[]]]]]]; discriminate.
Qed.

Lemma split_over_ball_shape_witness :
  split_over_ball "12" = (Some 12, Some 0) /\
  split_over_ball "3.4" = (Some 3, Some 4).
Proof.
  split.
  - destruct (split_over_ball_shape "12") as [H|(o & b & H & Hb)].
    + vm_compute in H. discriminate.
    + destruct (Hb eq_refl) as [-> Ho]. vm_compute in Ho.
      injection Ho as <-. exact H.
  - destruct (split_over_ball_shape "3.4") as [H|(o & b & H & _)].
    + vm_compute in H. discriminate.
    + reflexivity.
Defined.
